(** * LISA: tool dispatch, version parsing, retry and polling

    A shallow embedding of the parts of the LISA test framework that the
    specification speaks about:

    - [lisa/util/__init__.py]: the exception classes, [parse_version] with
      its lenient regular expression, [find_patterns_groups_in_lines],
      and further [InitializableMixin], the other pattern helpers, the
      field helpers, [deep_update_dict] and [filter_ansi_escape];
    - [lisa/tools/kdump.py]: [KdumpBase.create], the per-distribution
      variants and [check_crashkernel_loaded], and further the version of
      [Kexec] and the grub hooks;
    - [microsoft/testsuites/core/timesync.py]: [_wait_file_changed].

    Python text is modelled by [string] (one character per byte, i.e. the
    code points below 256); Python integers by [N] where they count or
    measure, time in milliseconds. *)

From Stdlib Require Import String Ascii List NArith ZArith Lia Bool.
From Stdlib Require Import DecimalString.
From stdpp Require Import gmap strings list fin_maps.

Local Open Scope string_scope.
Local Open Scope list_scope.

(** ** Text helpers *)

Module Text.

(** One-character string. *)
Definition chr (a : ascii) : string := String a EmptyString.

(** Line feed, the only character [.] refuses and [$] tolerates. *)
Definition LF : ascii := ascii_of_nat 10.

(** [0-9] *)
Definition is_digit (a : ascii) : bool :=
  let n := nat_of_ascii a in (48 <=? n)%nat && (n <=? 57)%nat.

(** Python's [needle in hay] on strings. *)
Fixpoint contains (needle hay : string) : bool :=
  String.prefix needle hay ||
  match hay with
  | EmptyString => false
  | String _ hay' => contains needle hay'
  end.

(** Does the text hold a decimal digit anywhere? *)
Fixpoint has_digit (s : string) : bool :=
  match s with
  | EmptyString => false
  | String a s' => is_digit a || has_digit s'
  end.

End Text.

(** ** Exceptions

    The exception classes of [lisa.util] that the modelled code raises,
    together with the two built-in ones that can escape from it. *)

Inductive exn : Type :=
| LisaException (message : string)
| UnsupportedDistroException (name version extended_message : string)
| ValueError (message : string)
| AssertionError (message : string).

Inductive exn_class : Type :=
| Exception_cls
| LisaException_cls
| UnsupportedDistroException_cls
| ValueError_cls
| AssertionError_cls.

Definition class_of (e : exn) : exn_class :=
  match e with
  | LisaException _ => LisaException_cls
  | UnsupportedDistroException _ _ _ => UnsupportedDistroException_cls
  | ValueError _ => ValueError_cls
  | AssertionError _ => AssertionError_cls
  end.

(** [class UnsupportedDistroException(LisaException)],
    [class LisaException(Exception)]; everything derives from [Exception]. *)
Definition exn_issubclass (c d : exn_class) : bool :=
  match d, c with
  | Exception_cls, _ => true
  | LisaException_cls, (LisaException_cls | UnsupportedDistroException_cls) => true
  | UnsupportedDistroException_cls, UnsupportedDistroException_cls => true
  | ValueError_cls, ValueError_cls => true
  | AssertionError_cls, AssertionError_cls => true
  | _, _ => false
  end.

(** What an [except cls] clause catches. *)
Definition exn_isinstance (cls : exn_class) (e : exn) : bool :=
  exn_issubclass (class_of e) cls.

(** [UnsupportedDistroException.__str__] *)
Definition exn_str (e : exn) : string :=
  match e with
  | UnsupportedDistroException name version extended =>
      let message := "Unsupported distro " +:+ name +:+ " " +:+ version in
      match extended with
      | EmptyString => message
      | _ => message +:+ ". " +:+ extended
      end
  | LisaException m | ValueError m | AssertionError m => m
  end.

(** Outcome of a call: a raised exception or a returned value. *)
Inductive result (A : Type) : Type :=
| Raise (e : exn)
| Return (a : A).
Arguments Raise {A} e.
Arguments Return {A} a.

(** ** Nodes and the remote world

    Modelled from the spec: [Node], its operating system classes, its
    shell, its tools [Cat] and [Service] and the timer of [create_timer]
    are declared outside the source files.  Following section 6 of the
    specification a node exposes the classification of its operating
    system, the execution of commands and the test that a path exists.

    A node is the remote machine.  What the [n]-th command executed on it
    observes is fixed by the node (the remote side is not under the
    program's control); the program's own state is the [World]: the wall
    clock, the number of commands executed so far and the services it
    enabled. *)

Record OperatingSystem := {
  os_mro : list string;     (* names of the classes of [type(node.os).__mro__] *)
  os_name : string;         (* [node.os.name] *)
  os_version : string;      (* [node.os.information.version], as text *)
}.

(** [isinstance(os, cls)]: [cls] is among the classes of the object's type. *)
Definition isinstance (os : OperatingSystem) (cls : string) : bool :=
  existsb (String.eqb cls) (os_mro os).

Record Node := {
  node_os : OperatingSystem;
  cat_stdout : nat -> string -> string;   (* stdout of [cat path] run as n-th command *)
  shell_exists : nat -> string -> bool;   (* [node.shell.exists(path)] as n-th command *)
  run_millis : nat -> N;                  (* how long the n-th command takes *)
}.

Record World := {
  clock : N;                       (* milliseconds *)
  executed : nat;                  (* commands run so far *)
  enabled_services : list string;  (* argument of each [enable_service], latest first *)
}.

Definition M (A : Type) : Type := World -> result A * World.

Definition ret {A} (a : A) : M A := fun w => (Return a, w).
Definition raise {A} (e : exn) : M A := fun w => (Raise e, w).
Definition bind {A B} (m : M A) (f : A -> M B) : M B :=
  fun w => match m w with
           | (Return a, w') => f a w'
           | (Raise e, w') => (Raise e, w')
           end.

Notation "'let*' x ':=' m 'in' k" := (bind m (fun x => k))
  (at level 10, x name, m at level 100, k at level 200).
Notation "m ';;;' k" := (bind m (fun _ => k))
  (at level 100, k at level 200, right associativity).

(** A command occupies the node for [run_millis] and counts as executed. *)
Definition tick (node : Node) (w : World) : World :=
  {| clock := clock w + run_millis node (executed w);
     executed := S (executed w);
     enabled_services := enabled_services w |}.

(** [node.tools[Cat].run(path, force_run=True).stdout] *)
Definition cat_run (node : Node) (path : string) : M string :=
  fun w => (Return (cat_stdout node (executed w) path), tick node w).

(** [node.shell.exists(PurePosixPath(path))] *)
Definition exists_ (node : Node) (path : string) : M bool :=
  fun w => (Return (shell_exists node (executed w) path), tick node w).

(** [time.sleep(ms / 1000)] *)
Definition sleep (ms : N) : M unit :=
  fun w => (Return tt, {| clock := clock w + ms;
                          executed := executed w;
                          enabled_services := enabled_services w |}).

(** [node.tools[Service].enable_service(name)] *)
Definition enable_service (node : Node) (name : string) : M unit :=
  fun w => (Return tt, {| clock := clock (tick node w);
                          executed := executed (tick node w);
                          enabled_services := name :: enabled_services w |}).

(** ** Bounded retry *)

Module Retry.

(** Modelled from the spec: the [retry] decorator comes from the [retry]
    package, which is not among the source files.  It re-invokes the
    operation up to [tries] times, sleeps [delay] between two attempts,
    lets an exception outside [exceptions] through at once and re-raises
    the last failure when the attempts are exhausted.  [more] counts the
    attempts still allowed after the current one. *)
Fixpoint attempts {A} (exceptions : exn_class) (more : nat) (delay : N)
         (f : M A) : M A :=
  fun w =>
    match f w with
    | (Return a, w') => (Return a, w')
    | (Raise e, w') =>
        if exn_isinstance exceptions e then
          match more with
          | O => (Raise e, w')
          | S more' =>
              attempts exceptions more' delay f (snd (sleep delay w'))
          end
        else (Raise e, w')
    end.

(** [@retry(exceptions=..., tries=..., delay=...)], [tries] at least one. *)
Definition retry {A} (exceptions : exn_class) (tries : positive) (delay : N)
           (f : M A) : M A :=
  attempts exceptions (Nat.pred (Pos.to_nat tries)) delay f.

(** The world in which attempt number [i] (counted from zero) starts when
    every earlier attempt was followed by the delay. *)
Fixpoint world_before {A} (delay : N) (f : M A) (w : World) (i : nat) : World :=
  match i with
  | O => w
  | S j => snd (sleep delay (snd (f (world_before delay f w j))))
  end.

(** Attempt [i] raises an exception that the decorator catches. *)
Definition fails_caught {A} (exceptions : exn_class) (delay : N) (f : M A)
           (w : World) (i : nat) : Prop :=
  exists e, fst (f (world_before delay f w i)) = Raise e /\
            exn_isinstance exceptions e = true.

End Retry.

(** ** kdump *)

Inductive kdump_class : Type := KdumpRedhat_cls | KdumpDebian_cls | KdumpSuse_cls.

(** A tool instance: its concrete class and [self.node]. *)
Record Tool := { tool_class : kdump_class; tool_node : Node }.

Definition KdumpRedhat (node : Node) : Tool :=
  {| tool_class := KdumpRedhat_cls; tool_node := node |}.
Definition KdumpDebian (node : Node) : Tool :=
  {| tool_class := KdumpDebian_cls; tool_node := node |}.
Definition KdumpSuse (node : Node) : Tool :=
  {| tool_class := KdumpSuse_cls; tool_node := node |}.

Module KdumpBase.

Definition kexec_crash : string := "/sys/kernel/kexec_crash_loaded".
Definition iomem : string := "/proc/iomem".

(** [UnsupportedDistroException(os=node.os)] *)
Definition unsupported (os : OperatingSystem) : exn :=
  UnsupportedDistroException (os_name os) (os_version os) EmptyString.

(** [KdumpBase.create] *)
Definition create (node : Node) : result Tool :=
  if isinstance (node_os node) "Redhat" then Return (KdumpRedhat node)
  else if isinstance (node_os node) "Debian" then Return (KdumpDebian node)
  else if isinstance (node_os node) "Suse" then Return (KdumpSuse node)
  else Raise (unsupported (node_os node)).

(** [KdumpBase.enable_kdump_service] *)
Definition enable_kdump_service (self : Tool) : M unit :=
  enable_service (tool_node self) "kdump".

(** [KdumpBase._check_kexec_crash_loaded], before decoration. *)
Definition _check_kexec_crash_loaded_once (self : Tool) : M unit :=
  let* stdout := cat_run (tool_node self) kexec_crash in
  if String.eqb "1" stdout then ret tt
  else raise (LisaException (kexec_crash +:+ " file's value is not 1.")).

(** [@retry(exceptions=LisaException, tries=60, delay=1)] *)
Definition _check_kexec_crash_loaded (self : Tool) : M unit :=
  Retry.retry LisaException_cls 60 1000 (_check_kexec_crash_loaded_once self).

(** [KdumpBase._check_crashkernel_in_cmdline] *)
Definition _check_crashkernel_in_cmdline (self : Tool)
           (crashkernel_memory : string) : M unit :=
  let* stdout := cat_run (tool_node self) "/proc/cmdline" in
  if Text.contains ("crashkernel=" +:+ crashkernel_memory) stdout then ret tt
  else raise (LisaException
                ("crashkernel=" +:+ crashkernel_memory +:+
                 " boot parameter is not present inkernel cmdline")).

(** [KdumpBase._check_crashkernel_memory_reserved] *)
Definition _check_crashkernel_memory_reserved (self : Tool) : M unit :=
  let* stdout := cat_run (tool_node self) iomem in
  if Text.contains "Crash kernel" stdout then ret tt
  else raise (LisaException
                ("No find 'Crash kernel' in " +:+ iomem +:+
                 ". Memory isn't reserved forcrash kernel")).

(** [KdumpBase.check_crashkernel_loaded] *)
Definition check_crashkernel_loaded (self : Tool)
           (crashkernel_memory : string) : M unit :=
  _check_crashkernel_in_cmdline self crashkernel_memory ;;;
  let* present := exists_ (tool_node self) kexec_crash in
  if negb present then
    raise (LisaException
             (kexec_crash +:+ " file doesn't exist. Kexec crash is not loaded."))
  else
    _check_kexec_crash_loaded self ;;;
    _check_crashkernel_memory_reserved self.

End KdumpBase.

Module KdumpDebian.

(** [KdumpDebian.enable_kdump_service] *)
Definition enable_kdump_service (self : Tool) : M unit :=
  enable_service (tool_node self) "kdump-tools".

End KdumpDebian.

(** Method resolution: [KdumpDebian] overrides the hook, [KdumpRedhat] and
    [KdumpSuse] inherit it from [KdumpBase]. *)
Definition enable_kdump_service (self : Tool) : M unit :=
  match tool_class self with
  | KdumpDebian_cls => KdumpDebian.enable_kdump_service self
  | KdumpRedhat_cls | KdumpSuse_cls => KdumpBase.enable_kdump_service self
  end.

(** ** Regular expressions, as backtracking matchers

    Each construct of Python's [re] that the patterns use is a combinator
    over continuations; alternatives are tried in the order [re] tries
    them, so the first success is the match [re] reports.  A continuation
    receives the input still to be read and the groups captured so far. *)

Module Re.

Definition groups : Type := gmap string string.
Definition cont : Type := string -> groups -> option (groups * string).

(** One character of a class, e.g. [[vV]] or [(?:\.|\-|\_)]. *)
Definition char (p : ascii -> bool) (k : cont) : cont :=
  fun s g =>
    match s with
    | String a s' => if p a then k s' g else None
    | EmptyString => None
    end.

(** [(?P<name>[p]*?)]: a named group around a lazy star of a character
    class.  The shortest text is tried first; [acc] is the text taken. *)
Fixpoint lazy_group_from (name : string) (p : ascii -> bool) (k : cont)
         (acc : string) (s : string) (g : groups) : option (groups * string) :=
  match k s (<[name := acc]> g) with
  | Some r => Some r
  | None =>
      match s with
      | String a s' =>
          if p a then lazy_group_from name p k (acc +:+ Text.chr a) s' g
          else None
      | EmptyString => None
      end
  end.

Definition lazy_group (name : string) (p : ascii -> bool) (k : cont) : cont :=
  lazy_group_from name p k EmptyString.

(** [(?: r )?]: greedy, the group is tried before its omission. *)
Definition opt (r : cont -> cont) (k : cont) : cont :=
  fun s g =>
    match r k s g with
    | Some x => Some x
    | None => k s g
    end.

(** [$] without MULTILINE: at the end, or just before a final line feed. *)
Definition dollar (k : cont) : cont :=
  fun s g =>
    match s with
    | EmptyString => k s g
    | String a EmptyString => if Ascii.eqb a Text.LF then k s g else None
    | _ => None
    end.

(** End of the pattern: the groups and [match.string[match.end():]]. *)
Definition accept : cont := fun s g => Some (g, s).

(** [pattern.search(text)] for a pattern that begins with [^]: without
    MULTILINE only the attempt at position 0 can succeed. *)
Definition search_anchored (pattern : cont) (text : string)
  : option (groups * string) :=
  pattern text ∅.

(** A continuation keeps a group when the groups it reports agree with
    the ones it received on that name. *)
Definition keeps (name : string) (k : cont) : Prop :=
  forall s g g' rest, k s g = Some (g', rest) -> g' !! name = g !! name.

(** A continuation ends well when what it reports as the rest is the end
    of what it received, and is empty or one line feed. *)
Definition ends_well (k : cont) : Prop :=
  forall s g g' rest,
    k s g = Some (g', rest) ->
    (exists matched, s = matched +:+ rest) /\
    (rest = EmptyString \/ rest = Text.chr Text.LF).

Definition is_vV (a : ascii) : bool := Ascii.eqb a "v" || Ascii.eqb a "V".
Definition is_sep (a : ascii) : bool :=
  Ascii.eqb a "." || Ascii.eqb a "-" || Ascii.eqb a "_".
(** [.] without DOTALL *)
Definition is_dot (a : ascii) : bool := negb (Ascii.eqb a Text.LF).

End Re.

(** [__version_info_pattern]:
    [^[vV]?(?P<major>[0-9]*?)(?:\.|\-|\_)(?P<minor>[0-9]*?)]
    [(?:(?:\.|\-|\_)(?P<patch>[0-9]*?))?(?:(?:\.|\-|\_)(?P<prerelease>.*?))?$]
    (the VERBOSE flag changes nothing: the pattern holds no blank and no #). *)
Definition __version_info_pattern : Re.cont :=
  Re.opt (Re.char Re.is_vV)
   (Re.lazy_group "major" Text.is_digit
    (Re.char Re.is_sep
     (Re.lazy_group "minor" Text.is_digit
      (Re.opt (fun k => Re.char Re.is_sep (Re.lazy_group "patch" Text.is_digit k))
       (Re.opt (fun k => Re.char Re.is_sep (Re.lazy_group "prerelease" Re.is_dot k))
        (Re.dollar Re.accept)))))).

(** The part of the pattern that follows the group [major]. *)
Definition after_major : Re.cont :=
  Re.char Re.is_sep
   (Re.lazy_group "minor" Text.is_digit
    (Re.opt (fun k => Re.char Re.is_sep (Re.lazy_group "patch" Text.is_digit k))
     (Re.opt (fun k => Re.char Re.is_sep (Re.lazy_group "prerelease" Re.is_dot k))
      (Re.dollar Re.accept)))).

(** ** Versions *)

Record VersionInfo := {
  major : N;
  minor : N;
  patch : N;
  prerelease : option string;
  build : option string;
}.

(** [int(value)] on the text of a numeric group (no sign, blank or
    underscore): the digits in base ten, [ValueError] when there is none
    (or something else than a digit), and [ValueError] as well when the
    digits are more than the interpreter converts. *)
Fixpoint digits_value (acc : N) (s : string) : option N :=
  match s with
  | EmptyString => Some acc
  | String a s' =>
      if Text.is_digit a
      then digits_value (10 * acc + N.of_nat (nat_of_ascii a - 48)) s'
      else None
  end.

(** [sys.int_info.default_max_str_digits] *)
Definition max_str_digits : N := 4300.

(** The number of digits at the head of the text. *)
Fixpoint digit_run (s : string) : N :=
  match s with
  | EmptyString => 0
  | String a s' => if Text.is_digit a then N.succ (digit_run s') else 0
  end.

(** [str(n)] *)
Definition decimal (n : N) : string := NilEmpty.string_of_uint (N.to_uint n).

Definition int (value : string) : result N :=
  match value with
  | EmptyString =>
      Raise (ValueError "invalid literal for int() with base 10: ''")
  | _ =>
      if (max_str_digits <? digit_run value)%N then
        Raise (ValueError
                 ("Exceeds the limit (4300 digits) for integer string "
                  +:+ "conversion: value has " +:+ decimal (digit_run value)
                  +:+ " digits; use sys.set_int_max_str_digits() "
                  +:+ "to increase the limit"))
      else
        match digits_value 0 value with
        | Some n => Return n
        | None =>
            Raise (ValueError ("invalid literal for int() with base 10: '"
                               +:+ value +:+ "'"))
        end
  end.

(** [0 if value is None else int(value)] *)
Definition int_or_zero (value : option string) : result N :=
  match value with
  | None => Return 0%N
  | Some v => int v
  end.

Module Semver.

(** Longest prefix of [s] made of characters of the class, and the rest. *)
Fixpoint span (p : ascii -> bool) (s : string) : string * string :=
  match s with
  | EmptyString => (EmptyString, EmptyString)
  | String a s' =>
      if p a then let (l, r) := span p s' in (String a l, r)
      else (EmptyString, s)
  end.

Fixpoint forallb_str (p : ascii -> bool) (s : string) : bool :=
  match s with
  | EmptyString => true
  | String a s' => p a && forallb_str p s'
  end.

(** The pieces of [s] between full stops. *)
Fixpoint split_dots (s : string) : list string :=
  match s with
  | EmptyString => [EmptyString]
  | String a s' =>
      if Ascii.eqb a "."
      then EmptyString :: split_dots s'
      else match split_dots s' with
           | piece :: pieces => String a piece :: pieces
           | [] => [Text.chr a]
           end
  end.

(** [0-9a-zA-Z-] *)
Definition is_ident_char (a : ascii) : bool :=
  let n := nat_of_ascii a in
  Text.is_digit a || ((65 <=? n)%nat && (n <=? 90)%nat)
  || ((97 <=? n)%nat && (n <=? 122)%nat) || Ascii.eqb a "-".

(** A numeric identifier: digits, without a leading zero unless it is 0. *)
Definition is_numeric (s : string) : bool :=
  match s with
  | EmptyString => false
  | String a EmptyString => Text.is_digit a
  | String a s' => Text.is_digit a && negb (Ascii.eqb a "0")
                   && forallb_str Text.is_digit s'
  end.

Definition is_build_ident (s : string) : bool :=
  match s with
  | EmptyString => false
  | _ => forallb_str is_ident_char s
  end.

Definition is_prerelease_ident (s : string) : bool :=
  is_build_ident s && (negb (forallb_str Text.is_digit s) || is_numeric s).

(** Modelled from the spec: [semver.VersionInfo] is not among the source
    files.  [parse] accepts the canonical form
    major.minor.patch[-prerelease][+build] of semantic versioning, the
    three numbers without leading zeros and within what [int] converts,
    and nothing else. *)
Definition parse (version : string) : option VersionInfo :=
  let (a, r1) := span Text.is_digit version in
  match r1 with
  | String "." r2 =>
      let (b, r3) := span Text.is_digit r2 in
      match r3 with
      | String "." r4 =>
          let (c, r5) := span Text.is_digit r4 in
          if is_numeric a && is_numeric b && is_numeric c then
            match int a, int b, int c with
            | Return x, Return y, Return z =>
                let mk p q := {| major := x; minor := y; patch := z;
                                 prerelease := p; build := q |} in
                match r5 with
                | EmptyString => Some (mk None None)
                | String "-" r6 =>
                    let (pre, r7) := span (fun a => negb (Ascii.eqb a "+")) r6 in
                    if forallb is_prerelease_ident (split_dots pre) then
                      match r7 with
                      | EmptyString => Some (mk (Some pre) None)
                      | String _ bld =>
                          if forallb is_build_ident (split_dots bld)
                          then Some (mk (Some pre) (Some bld))
                          else None
                      end
                    else None
                | String "+" bld =>
                    if forallb is_build_ident (split_dots bld)
                    then Some (mk None (Some bld))
                    else None
                | _ => None
                end
            | _, _, _ => None
            end
          else None
      | _ => None
      end
  | _ => None
  end.

(** [VersionInfo.isvalid] *)
Definition isvalid (version : string) : bool :=
  match parse version with Some _ => true | None => false end.

(** Does the version carry a prerelease component? *)
Definition has_prerelease (v : VersionInfo) : bool :=
  match prerelease v with
  | Some (String _ _) => true
  | _ => false
  end.

(** Precedence of two prerelease identifiers: numeric ones by value and
    below the others, the others in ASCII order. *)
Definition identifier_compare (x y : string) : comparison :=
  match (if is_build_ident x then digits_value 0 x else None),
        (if is_build_ident y then digits_value 0 y else None) with
  | Some n, Some m => N.compare n m
  | Some _, None => Lt
  | None, Some _ => Gt
  | None, None => String.compare x y
  end.

Fixpoint identifiers_compare (xs ys : list string) : comparison :=
  match xs, ys with
  | [], [] => Eq
  | [], _ :: _ => Lt
  | _ :: _, [] => Gt
  | x :: xs', y :: ys' =>
      match identifier_compare x y with
      | Eq => identifiers_compare xs' ys'
      | c => c
      end
  end.

Definition prerelease_text (v : VersionInfo) : string :=
  match prerelease v with Some p => p | None => EmptyString end.

(** Modelled from the spec: the comparison of [semver.VersionInfo], not
    among the source files: major, then minor, then patch, numerically;
    then a version with a prerelease before the one without; two
    prereleases by their identifiers.  Build metadata takes no part. *)
Definition compare (v w : VersionInfo) : comparison :=
  match N.compare (major v) (major w) with
  | Eq =>
      match N.compare (minor v) (minor w) with
      | Eq =>
          match N.compare (patch v) (patch w) with
          | Eq =>
              match has_prerelease v, has_prerelease w with
              | false, false => Eq
              | true, false => Lt
              | false, true => Gt
              | true, true =>
                  identifiers_compare (split_dots (prerelease_text v))
                                      (split_dots (prerelease_text w))
              end
          | c => c
          end
      | c => c
      end
  | c => c
  end.

(** [v < w] *)
Definition lt (v w : VersionInfo) : Prop := compare v w = Lt.

End Semver.

(** [parse_version] *)
Definition parse_version (version : string) : result VersionInfo :=
  if Semver.isvalid version then
    match Semver.parse version with
    | Some v => Return v
    | None => Raise (ValueError (version +:+ " is not valid SemVer string"))
    end
  else
    match Re.search_anchored __version_info_pattern version with
    | None => Raise (LisaException ("The version is invalid format: " +:+ version))
    | Some (groupdict, rest) =>
        match int_or_zero (groupdict !! "major") with
        | Raise e => Raise e
        | Return ver_major =>
            match int_or_zero (groupdict !! "minor") with
            | Raise e => Raise e
            | Return ver_minor =>
                match int_or_zero (groupdict !! "patch") with
                | Raise e => Raise e
                | Return ver_patch =>
                    Return {| major := ver_major;
                              minor := ver_minor;
                              patch := ver_patch;
                              prerelease := groupdict !! "prerelease";
                              build := Some rest |}
                end
            end
        end
    end.

(** ** Polling a file: [_wait_file_changed] *)

Module Timesync.

(** [expected_value: Optional[Union[str, List[str]]]] *)
Inductive expected_value : Type :=
| ExpectedNone
| ExpectedStr (value : string)
| ExpectedList (values : list string).

(** The test of the loop body on [result.stdout]. *)
Definition matched (expected : expected_value) (stdout : string) : bool :=
  match expected with
  | ExpectedList values => existsb (String.eqb stdout) values
  | ExpectedStr value => String.eqb stdout value
  | ExpectedNone => false
  end.

(** [timeout = 60] and [sleep(0.5)], in milliseconds. *)
Definition timeout : N := 60000.
Definition interval : N := 500.

(** [timer.elapsed(False)] for a timer created when the clock showed
    [started]. *)
Definition elapsed (started : N) (w : World) : N := clock w - started.

(** The [while] loop.  [rounds] bounds the number of iterations so that
    the recursion is structural; [None] means the bound was too small. *)
Fixpoint wait_loop (rounds : nat) (node : Node) (path : string)
         (expected : expected_value) (started : N) (w : World)
  : option (result bool * World) :=
  if (elapsed started w <? timeout)%N then
    match rounds with
    | O => None
    | S rounds' =>
        match cat_run node path w with
        | (Return stdout, w1) =>
            if matched expected stdout then Some (Return true, w1)
            else wait_loop rounds' node path expected started
                           (snd (sleep interval w1))
        | (Raise e, w1) => Some (Raise e, w1)
        end
    end
  else Some (Return false, w).

(** Does the read done as command [n] satisfy the test of the loop? *)
Definition read_matches (node : Node) (path : string)
           (expected : expected_value) (n : nat) : bool :=
  matched expected (cat_stdout node n path).

(** The time taken by [count] commands from command [from] on. *)
Fixpoint reads_time (node : Node) (from count : nat) : N :=
  match count with
  | O => 0
  | S count' => run_millis node from + reads_time node (S from) count'
  end.

(** Every iteration that does not return sleeps for [interval], so the
    loop cannot start more than [timeout / interval] iterations. *)
Definition max_rounds : nat := N.to_nat (timeout / interval).

(** [_wait_file_changed]; the timer is created on entry. *)
Definition _wait_file_changed (node : Node) (path : string)
           (expected : expected_value) (w : World)
  : option (result bool * World) :=
  wait_loop max_rounds node path expected (clock w) w.

End Timesync.

(** ** Matching patterns over lines: [find_patterns_groups_in_lines] *)

Module Lines.

(** [match.groupdict()] *)
Definition groupdict : Type := gmap string string.

(** A compiled pattern, as far as this function uses it:
    [pattern.match(line)] and the groups of the match. *)
Record Pattern := { pattern_match : string -> option groupdict }.

(** The line boundaries of [str.splitlines] below code point 256 other
    than carriage return: LF, VT, FF, FS, GS, RS, NEL. *)
Definition is_boundary (a : ascii) : bool :=
  let n := nat_of_ascii a in
  (n =? 10)%nat || (n =? 11)%nat || (n =? 12)%nat || (n =? 28)%nat
  || (n =? 29)%nat || (n =? 30)%nat || (n =? 133)%nat.

Definition is_cr (a : ascii) : bool := (nat_of_ascii a =? 13)%nat.

(** [text.splitlines(keepends=False)]; [cur] is the line being read. *)
Fixpoint splitlines_from (cur : string) (s : string) : list string :=
  match s with
  | EmptyString => match cur with EmptyString => [] | _ => [cur] end
  | String a s' =>
      if is_cr a then
        cur :: match s' with
               | String b s'' =>
                   if (nat_of_ascii b =? 10)%nat
                   then splitlines_from EmptyString s''
                   else splitlines_from EmptyString s'
               | EmptyString => []
               end
      else if is_boundary a then cur :: splitlines_from EmptyString s'
      else splitlines_from (cur +:+ Text.chr a) s'
  end.

Definition splitlines (s : string) : list string :=
  splitlines_from EmptyString s.

(** The store of list objects: a reference is a key of the heap. *)
Definition loc : Type := nat.

(** [lst.append(x)] on the list object at [l] *)
Definition append (l : loc) (x : groupdict) (h : gmap loc (list groupdict))
  : gmap loc (list groupdict) :=
  alter (fun xs => xs ++ [x]) l h.

(** [enumerate(patterns)] *)
Definition enumerate {A} (xs : list A) : list (nat * A) :=
  zip (seq 0 (length xs)) xs.

(** The body of the inner [for]: one pattern tried on one line. *)
Definition try_pattern (results : list loc) (line : string)
           (h : gmap loc (list groupdict)) (ip : nat * Pattern)
  : gmap loc (list groupdict) :=
  match pattern_match (snd ip) line with
  | Some matched =>
      match results !! fst ip with
      | Some l => append l matched h        (* results[index].append(...) *)
      | None => h
      end
  | None => h
  end.

(** [find_patterns_groups_in_lines].  [[[]] * len(patterns)] evaluates
    [[]] once: one list object, at [shared], and [len(patterns)]
    references to it.  The value returned is the outer list of
    references together with the store they point into. *)
Definition find_patterns_groups_in_lines (lines : string)
           (patterns : list Pattern)
  : list loc * gmap loc (list groupdict) :=
  let shared : loc := 0%nat in
  let h0 : gmap loc (list groupdict) := <[shared := []]> ∅ in
  let results := replicate (length patterns) shared in
  let h := foldl (fun h line =>
                    foldl (try_pattern results line) h (enumerate patterns))
                 h0 (splitlines lines) in
  (results, h).

(** What the caller reads at [results[index]]. *)
Definition reported (r : list loc * gmap loc (list groupdict)) (index : nat)
  : option (list groupdict) :=
  match fst r !! index with
  | Some l => snd r !! l
  | None => None
  end.

(** The matches of one pattern alone, in line order. *)
Definition own_matches (lines : string) (pattern : Pattern) : list groupdict :=
  omap (pattern_match pattern) (splitlines lines).

(** The matches of all patterns together: line by line, and within a
    line in the order of the patterns. *)
Definition combined_matches (lines : string) (patterns : list Pattern)
  : list groupdict :=
  flat_map (fun line => omap (fun p => pattern_match p line) patterns)
           (splitlines lines).

End Lines.

(** ** The three conditions of a loaded crash kernel

    What [check_crashkernel_loaded] looks at, by the position of the read
    among the commands run on the node. *)

Module Crashkernel.

(** [crashkernel=<memory>] occurs in /proc/cmdline read as command [n]. *)
Definition reservation_in_cmdline (node : Node) (n : nat) (memory : string)
  : bool :=
  Text.contains ("crashkernel=" +:+ memory) (cat_stdout node n "/proc/cmdline").

(** /sys/kernel/kexec_crash_loaded read as command [n] is exactly 1. *)
Definition flag_reads_one (node : Node) (n : nat) : bool :=
  String.eqb "1" (cat_stdout node n KdumpBase.kexec_crash).

(** [Crash kernel] occurs in /proc/iomem read as command [n]. *)
Definition crash_kernel_in_iomem (node : Node) (n : nat) : bool :=
  Text.contains "Crash kernel" (cat_stdout node n KdumpBase.iomem).

(** The attempt, among the 60 that begin with command [n], at which the
    flag first reads 1. *)
Definition first_loaded (node : Node) (n : nat) : option nat :=
  List.find (fun k => flag_reads_one node (n + k)) (seq 0 60).

(** The check starts at command [n]: /proc/cmdline is command [n], the
    existence test [n + 1], the flag reads follow. *)
Definition cmdline_ok (node : Node) (n : nat) (memory : string) : Prop :=
  reservation_in_cmdline node n memory = true.

Definition flag_ok (node : Node) (n : nat) : Prop :=
  exists k, first_loaded node (n + 2) = Some k.

(** /proc/iomem is read right after the flag read that succeeded. *)
Definition iomem_ok (node : Node) (n : nat) : Prop :=
  forall k, first_loaded node (n + 2) = Some k ->
            crash_kernel_in_iomem node (n + 3 + k) = true.

End Crashkernel.

(** ** Sample inputs *)

Module Sample.

Definition ubuntu : OperatingSystem :=
  {| os_mro := ["Ubuntu"; "Debian"; "Linux"; "Posix"; "OperatingSystem"];
     os_name := "Ubuntu";
     os_version := "18.4.0" |}.

Definition freebsd : OperatingSystem :=
  {| os_mro := ["FreeBSD"; "BSD"; "Posix"; "OperatingSystem"];
     os_name := "FreeBSD";
     os_version := "13.1.0" |}.

(** A machine booted with a crash kernel whose loaded flag shows up at
    the fifth command; every command takes [millis]. *)
Definition booted (os : OperatingSystem) (millis : N) : Node :=
  {| node_os := os;
     cat_stdout := fun n path =>
       if String.eqb path "/proc/cmdline"
       then "BOOT_IMAGE=/vmlinuz root=/dev/sda1 crashkernel=512M"
       else if String.eqb path KdumpBase.kexec_crash
       then (if (n <? 4)%nat then "0" else "1")
       else if String.eqb path KdumpBase.iomem
       then "  2b000000-4affffff : Crash kernel"
       else EmptyString;
     shell_exists := fun _ _ => true;
     run_millis := fun _ => millis |}.

Definition start : World :=
  {| clock := 0; executed := 0; enabled_services := [] |}.

Definition current_clocksource : string :=
  "/sys/devices/system/clocksource/clocksource0/current_clocksource".

(** A pattern that matches the lines beginning with [text] and reports
    the line in the group [name]. *)
Definition starts_with (text name : string) : Lines.Pattern :=
  {| Lines.pattern_match := fun line =>
       if String.prefix text line then Some {[ name := line ]} else None |}.

(** Three lines: eth0, lo, eth1. *)
Definition interfaces : string :=
  "eth0" +:+ Text.chr Text.LF +:+ "lo" +:+ Text.chr Text.LF +:+ "eth1".

End Sample.

(** ** [InitializableMixin]

    An object that mixes it in is its flag [_is_initialized] together with
    the rest of its state; the override [_initialize] works on that rest
    and may raise. *)

Module InitializableMixin.

Record object (S : Type) := {
  _is_initialized : bool;
  state : S;
}.
Arguments _is_initialized {S} _.
Arguments state {S} _.

(** The built-in exceptions that derive from [BaseException] without
    deriving from [Exception]. *)
Inductive base_exception : Type :=
| KeyboardInterrupt
| SystemExit
| GeneratorExit.

(** What [_initialize] can raise: an exception of the classes under
    [Exception], or one of the others. *)
Inductive raised : Type :=
| Exception_ (e : exn)
| BaseException_ (b : base_exception).

Inductive outcome (A : Type) : Type :=
| Raises (identifier : raised)
| Returns (a : A).
Arguments Raises {A} identifier.
Arguments Returns {A} a.

(** [isinstance(identifier, Exception)]: what [except Exception] catches. *)
Definition is_Exception (identifier : raised) : bool :=
  match identifier with
  | Exception_ e => exn_isinstance Exception_cls e
  | BaseException_ _ => false
  end.

(** [InitializableMixin.__init__] *)
Definition __init__ {S} (s : S) : object S :=
  {| _is_initialized := false; state := s |}.

(** [InitializableMixin.initialize]: the flag is set, then [_initialize]
    runs with the arguments; the handler of [except Exception] clears
    the flag and raises the exception again, any other exception leaves
    the flag set on its way out. *)
Definition initialize {S Args} (_initialize : Args -> S -> outcome unit * S)
           (args : Args) (self : object S) : outcome unit * object S :=
  if negb (_is_initialized self) then
    match _initialize args (state self) with
    | (Returns _, s) => (Returns tt, {| _is_initialized := true; state := s |})
    | (Raises identifier, s) =>
        if is_Exception identifier then
          (Raises identifier, {| _is_initialized := false; state := s |})
        else
          (Raises identifier, {| _is_initialized := true; state := s |})
    end
  else (Returns tt, self).

(** A series of calls, one per argument, exceptions ignored by the caller. *)
Definition initialize_all {S Args} (_initialize : Args -> S -> outcome unit * S)
           (argss : list Args) (self : object S) : object S :=
  foldl (fun o args => snd (initialize _initialize args o)) self argss.

End InitializableMixin.

(** Does the text hold one of the separators [.], [-], [_]? *)
Fixpoint has_sep (s : string) : bool :=
  match s with
  | EmptyString => false
  | String a s' => Re.is_sep a || has_sep s'
  end.

(** What follows [minor] in the pattern refuses to start on a digit. *)
Definition after_minor : Re.cont :=
  Re.opt (fun k => Re.char Re.is_sep (Re.lazy_group "patch" Text.is_digit k))
   (Re.opt (fun k => Re.char Re.is_sep (Re.lazy_group "prerelease" Re.is_dot k))
    (Re.dollar Re.accept)).

(** ** More sample inputs *)

Module Fixture.

(** [ScriptTransformer._initialize]: [self._index = 0; self._items = []].
    The state is the pair of the two attributes. *)
Definition script_transformer_initialize (_ : unit)
           (s : Z * list (gmap string string))
  : InitializableMixin.outcome unit * (Z * list (gmap string string)) :=
  (InitializableMixin.Returns tt, (0%Z, [])).

(** An override that needs a resource: it counts its runs and raises
    until the resource is there. *)
Definition needs_resource (ready : bool) (runs : nat)
  : InitializableMixin.outcome unit * nat :=
  if ready then (InitializableMixin.Returns tt, S runs)
  else (InitializableMixin.Raises
          (InitializableMixin.Exception_
             (LisaException "resource is not ready")), S runs).

(** An override that the user interrupts when it is not ready: it counts
    its runs and is left by [KeyboardInterrupt]. *)
Definition interrupted (ready : bool) (runs : nat)
  : InitializableMixin.outcome unit * nat :=
  if ready then (InitializableMixin.Returns tt, S runs)
  else (InitializableMixin.Raises
          (InitializableMixin.BaseException_
             InitializableMixin.KeyboardInterrupt), S runs).

End Fixture.

(** ** The other pattern helpers of [lisa.util] *)

Module Patterns.

(** A compiled pattern as [find_patterns_in_lines] uses it:
    [pattern.findall(text)], whose items are strings or tuples. *)
Record FindPattern (A : Type) := { findall : string -> list A }.
Arguments findall {A} _ _.

(** A store of list objects with its next free reference; references are
    numbers, as in [Lines]. *)
Record store (A : Type) := {
  cells : gmap nat (list A);
  next : nat;
}.
Arguments cells {A} _.
Arguments next {A} _.

Definition empty_store {A} : store A := {| cells := ∅; next := 0%nat |}.

(** A new list object holding [xs]. *)
Definition alloc {A} (xs : list A) (h : store A) : nat * store A :=
  (next h, {| cells := <[next h := xs]> (cells h); next := S (next h) |}).

(** The body of the loop of [find_patterns_in_lines]: when the list at
    [results[index]] is empty, [results[index]] is bound to the new list
    that [findall] returns. *)
Definition find_step {A} (lines : string)
           (st : list nat * store A) (ip : nat * FindPattern A)
  : list nat * store A :=
  match fst st !! fst ip with
  | Some l =>
      match cells (snd st) !! l with
      | Some [] =>
          let (l', h') := alloc (findall (snd ip) lines) (snd st) in
          (<[fst ip := l']> (fst st), h')
      | _ => st
      end
  | None => st
  end.

(** [find_patterns_in_lines]: the outer list of references and the store.
    As in [find_patterns_groups_in_lines] the outer list starts as
    [len(patterns)] references to one empty list. *)
Definition find_patterns_in_lines {A} (lines : string)
           (patterns : list (FindPattern A)) : list nat * store A :=
  let (shared, h0) := alloc [] empty_store in
  foldl (find_step lines) (replicate (length patterns) shared, h0)
        (Lines.enumerate patterns).

(** What the caller reads at [results[index]]. *)
Definition reported {A} (r : list nat * store A) (index : nat)
  : option (list A) :=
  match fst r !! index with
  | Some l => cells (snd r) !! l
  | None => None
  end.

(** [find_groups_in_lines]: position 0 of the result for the single
    pattern (the outer list has one position, so the index is in range). *)
Definition find_groups_in_lines (lines : string) (pattern : Lines.Pattern)
  : list Lines.groupdict :=
  match Lines.reported
          (Lines.find_patterns_groups_in_lines lines [pattern]) 0 with
  | Some output => output
  | None => []
  end.

(** [find_group_in_lines]; [repr] renders the list for the message. *)
Definition find_group_in_lines (repr : list Lines.groupdict -> string)
           (lines : string) (pattern : Lines.Pattern)
  : result Lines.groupdict :=
  let output := find_groups_in_lines lines pattern in
  match output with
  | [result] => Return result
  | [] => Return ∅
  | _ =>
      Raise (LisaException
               ("pattern returns more than one result, use "
                +:+ "find_groups_in_lines.results: " +:+ repr output))
  end.

End Patterns.

Module PatternFixture.

(** [re.compile("eth[0-9]")] and [re.compile("lo")] as far as [findall]
    goes on the text [eth0 lo eth1]. *)
Definition eth : Patterns.FindPattern string :=
  {| Patterns.findall := fun s =>
       if String.eqb s "eth0 lo eth1" then ["eth0"; "eth1"] else [] |}.

Definition lo : Patterns.FindPattern string :=
  {| Patterns.findall := fun s =>
       if String.eqb s "eth0 lo eth1" then ["lo"] else [] |}.

End PatternFixture.

(** ** Python values, objects and dictionaries

    The data that the attribute and dictionary helpers of [lisa.util]
    move around.  A dictionary is the list of its items in insertion
    order, with keys that are strings; a plain object is the finite map of
    its attributes. *)

Module Py.

#[warnings="-register-all"]
Inductive value : Type :=
| None_
| Bool (b : bool)
| Int (n : Z)
| Float (bits : Z)
| Str (s : string)
| List (elements : list value)
| Dict (items : list (string * value)).

(** Built-in exceptions besides those of [exn]. *)
Inductive error : Type :=
| Known (e : exn)
| AttributeError (message : string).

Inductive outcome (A : Type) : Type :=
| Raised (e : error)
| Returned (a : A).
Arguments Raised {A} e.
Arguments Returned {A} a.

(** [type(v).__name__] *)
Definition type_name (v : value) : string :=
  match v with
  | None_ => "NoneType"
  | Bool _ => "bool"
  | Int _ => "int"
  | Float _ => "float"
  | Str _ => "str"
  | List _ => "list"
  | Dict _ => "dict"
  end.

(** The text of the [AttributeError] for an attribute that an object of
    the class [cls] has not. *)
Definition no_attribute (cls name : string) : string :=
  "'" +:+ cls +:+ "' object has no attribute '" +:+ name +:+ "'".

(** [value is not None] *)
Definition is_not_none (v : value) : bool :=
  match v with None_ => false | _ => true end.

(** [isinstance(v, dict)] *)
Definition is_dict (v : value) : bool :=
  match v with Dict _ => true | _ => false end.

(** [d.get(key)], [None] for a missing key *)
Fixpoint dict_get (key : string) (items : list (string * value))
  : option value :=
  match items with
  | [] => None
  | (k, v) :: rest => if String.eqb key k then Some v else dict_get key rest
  end.

(** [d[key] = v]: in place when the key is there, else at the end. *)
Fixpoint dict_set (key : string) (v : value) (items : list (string * value))
  : list (string * value) :=
  match items with
  | [] => [(key, v)]
  | (k, old) :: rest =>
      if String.eqb key k then (k, v) :: rest
      else (k, old) :: dict_set key v rest
  end.

(** The first lines of [deep_update_dict]: numbers are taken as they are,
    anything else is copied with [dest.copy()], which lists and
    dictionaries have and strings and [None] have not. *)
Definition copy_of (dest : value) : outcome value :=
  match dest with
  | Int _ | Bool _ | Float _ => Returned dest
  | Dict _ | List _ => Returned dest
  | Str _ => Raised (AttributeError "'str' object has no attribute 'copy'")
  | None_ =>
      Raised (AttributeError "'NoneType' object has no attribute 'copy'")
  end.

(** What the loop of [deep_update_dict] stores under [key]: the merge of
    [v] with [dest[key]] when [v] is a dictionary and [dest] has the key,
    [v] itself otherwise.  [rec] is the function itself. *)
Definition merged (rec : value -> value -> outcome value)
           (dest : list (string * value)) (key : string) (v : value)
  : outcome value :=
  match v, dict_get key dest with
  | Dict _, Some old => rec v old
  | _, _ => Returned v
  end.

(** The loop of [deep_update_dict] over [src.items()]; [dest] holds the
    items of the destination and [result] those of its copy. *)
Definition update_items (rec : value -> value -> outcome value)
           (dest : list (string * value))
  : list (string * value) -> list (string * value) -> outcome value :=
  fix go (items result : list (string * value)) : outcome value :=
    match items with
    | [] => Returned (Dict result)
    | (key, v) :: rest =>
        match merged rec dest key v with
        | Raised e => Raised e
        | Returned v' => go rest (dict_set key v' result)
        end
    end.

(** [deep_update_dict] *)
Fixpoint deep_update_dict (src dest : value) {struct src} : outcome value :=
  match copy_of dest with
  | Raised e => Raised e
  | Returned result =>
      match result with
      | Dict dest_items =>
          match src with
          | Dict items =>
              (fix go (items result : list (string * value)) : outcome value :=
                 match items with
                 | [] => Returned (Dict result)
                 | (key, v) :: rest =>
                     match (match v, dict_get key dest_items with
                            | Dict _, Some old => deep_update_dict v old
                            | _, _ => Returned v
                            end) with
                     | Raised e => Raised e
                     | Returned v' => go rest (dict_set key v' result)
                     end
                 end) items dest_items
          | _ =>
              Raised (AttributeError (no_attribute (type_name src) "items"))
          end
      | _ =>
          match src with
          | Dict items => Returned (Dict items)
          | _ => Returned src
          end
      end
  end.

End Py.

Module DictFixture.

(** [{"name": "kdump", "limits": {"tries": 60}, "path": "/var/crash"}] *)
Definition overrides : list (string * Py.value) :=
  [ ("name", Py.Str "kdump");
    ("limits", Py.Dict [("tries", Py.Int 60)]);
    ("path", Py.Str "/var/crash") ].

(** [{"limits": {"tries": 3, "delay": 1}, "path": {"root": "/mnt"},
      "keep": True}] *)
Definition defaults : list (string * Py.value) :=
  [ ("limits", Py.Dict [("tries", Py.Int 3); ("delay", Py.Int 1)]);
    ("path", Py.Dict [("root", Py.Str "/mnt")]);
    ("keep", Py.Bool true) ].

End DictFixture.

(** ** Attributes and dictionaries: [fields_to_dict], [dict_to_fields],
    [set_filtered_fields]

    [src] and [dest] are plain objects: the finite map of their
    attributes, always true as a condition.  [getattr] raises
    [AttributeError] on a missing attribute, with the name [cls] of the
    class of the object in its text, and [setattr] creates it. *)

Module Fields.

(** The loop of [fields_to_dict]. *)
Fixpoint collect (cls : string) (src : gmap string Py.value)
         (is_none_included : bool)
         (fields : list string) (result : list (string * Py.value))
  : Py.outcome (list (string * Py.value)) :=
  match fields with
  | [] => Py.Returned result
  | field :: rest =>
      match src !! field with
      | None => Py.Raised (Py.AttributeError (Py.no_attribute cls field))
      | Some v =>
          collect cls src is_none_included rest
                  (if is_none_included || Py.is_not_none v
                   then Py.dict_set field v result
                   else result)
      end
  end.

(** [fields_to_dict]; [assert fields] fails on the empty list. *)
Definition fields_to_dict (cls : string) (src : gmap string Py.value)
           (fields : list string) (is_none_included : bool)
  : Py.outcome (list (string * Py.value)) :=
  match fields with
  | [] => Py.Raised (Py.Known (AssertionError EmptyString))
  | _ => collect cls src is_none_included fields []
  end.

(** One item of the loop of [dict_to_fields]:
    [if hasattr(dest, field_name): setattr(dest, field_name, field_value)] *)
Definition set_existing (dest : gmap string Py.value)
           (item : string * Py.value) : gmap string Py.value :=
  match dest !! fst item with
  | Some _ => <[fst item := snd item]> dest
  | None => dest
  end.

(** [dict_to_fields]; [assert src] fails on the empty dictionary. *)
Definition dict_to_fields (src : list (string * Py.value))
           (dest : gmap string Py.value)
  : Py.outcome (gmap string Py.value) :=
  match src with
  | [] => Py.Raised (Py.Known (AssertionError EmptyString))
  | _ => Py.Returned (foldl set_existing dest src)
  end.

(** The loop of [set_filtered_fields]; the second component is [dest] as
    the loop leaves it, also when it raises. *)
Fixpoint copy_fields (src : gmap string Py.value) (fields : list string)
         (dest : gmap string Py.value)
  : Py.outcome unit * gmap string Py.value :=
  match fields with
  | [] => (Py.Returned tt, dest)
  | field_name :: rest =>
      match src !! field_name with
      | None =>
          (Py.Raised (Py.Known (LisaException
                                  ("field '" +:+ field_name
                                   +:+ "' doesn't exist on src"))),
           dest)
      | Some field_value =>
          copy_fields src rest
                      (if Py.is_not_none field_value
                       then <[field_name := field_value]> dest
                       else dest)
      end
  end.

(** [set_filtered_fields] *)
Definition set_filtered_fields (src dest : gmap string Py.value)
           (fields : list string)
  : Py.outcome unit * gmap string Py.value :=
  match fields with
  | [] => (Py.Raised (Py.Known (AssertionError EmptyString)), dest)
  | _ => copy_fields src fields dest
  end.

(** The value that the two loops take from [src] for the name [k]: the
    attribute, when [k] is among the fields and the attribute is not
    [None] (or [None] is let through). *)
Definition kept (src : gmap string Py.value) (is_none_included : bool)
           (fields : list string) (k : string) : option Py.value :=
  if existsb (String.eqb k) fields then
    match src !! k with
    | Some v => if is_none_included || Py.is_not_none v then Some v else None
    | None => None
    end
  else None.

End Fields.

Module FieldsFixture.

(** An object with [name = "node-0"], [port = 22] and [password = None]. *)
Definition runbook_node : gmap string Py.value :=
  <["name" := Py.Str "node-0"]>
    (<["port" := Py.Int 22]> (<["password" := Py.None_]> ∅)).

(** An object with [name = ""], [port = 0], [password = "secret"]. *)
Definition blank_node : gmap string Py.value :=
  <["name" := Py.Str EmptyString]>
    (<["port" := Py.Int 0]> (<["password" := Py.Str "secret"]> ∅)).

End FieldsFixture.

(** ** Greedy matching with captures: [Kexec._get_version] *)

Module Greedy.

(** A matcher reads the input still to be read and reports what the
    pattern's end reports; the text taken by a group is handed to what
    follows the group. *)
Definition cont (R : Type) : Type := string -> option R.

(** [\s] on the code points below 256 *)
Definition is_space (a : ascii) : bool :=
  let n := nat_of_ascii a in
  ((9 <=? n)%nat && (n <=? 13)%nat) || ((28 <=? n)%nat && (n <=? 32)%nat)
  || (n =? 133)%nat || (n =? 160)%nat.

(** [\S] *)
Definition is_nonspace (a : ascii) : bool := negb (is_space a).

(** A literal text. *)
Fixpoint literal {R} (w : string) (k : cont R) : cont R :=
  fun s =>
    match w with
    | EmptyString => k s
    | String c w' =>
        match s with
        | String a s' => if Ascii.eqb a c then literal w' k s' else None
        | EmptyString => None
        end
    end.

(** One character of a class. *)
Definition char {R} (p : ascii -> bool) (k : cont R) : cont R :=
  fun s =>
    match s with
    | String a s' => if p a then k s' else None
    | EmptyString => None
    end.

(** [[p]*], greedy: one more character is tried before what follows;
    [acc] is the text taken so far. *)
Fixpoint star_from {R} (p : ascii -> bool) (k : string -> cont R)
         (acc s : string) {struct s} : option R :=
  match s with
  | String a s' =>
      if p a then
        match star_from p k (acc +:+ Text.chr a) s' with
        | Some r => Some r
        | None => k acc s
        end
      else k acc s
  | EmptyString => k acc s
  end.

(** [([p]+)], greedy; what follows receives the text of the group. *)
Definition plus {R} (p : ascii -> bool) (k : string -> cont R) : cont R :=
  fun s =>
    match s with
    | String a s' => if p a then star_from p k (Text.chr a) s' else None
    | EmptyString => None
    end.

(** Does the text begin with a character of the class? *)
Definition head_is (p : ascii -> bool) (s : string) : bool :=
  match s with
  | String a _ => p a
  | EmptyString => false
  end.

End Greedy.

Module Kexec.

(** [__pattern_kexec_version_info]:
    [^kexec\S+\s+(?P<major>\d+).(?P<minor>\d+).(?P<patch>\d+)];
    the two dots are not escaped.  A match reports the three groups and
    the text after the match. *)
Definition __pattern_kexec_version_info
  : Greedy.cont (string * string * string * string) :=
  Greedy.literal "kexec"
   (Greedy.plus Greedy.is_nonspace (fun _ =>
    Greedy.plus Greedy.is_space (fun _ =>
    Greedy.plus Text.is_digit (fun major =>
    Greedy.char Re.is_dot
     (Greedy.plus Text.is_digit (fun minor =>
      Greedy.char Re.is_dot
       (Greedy.plus Text.is_digit (fun patch rest =>
        Some (major, minor, patch, rest))))))))).

(** [match.group()] of a match that starts at position 0 of [text] and
    leaves [rest] unread. *)
Definition group0 (text rest : string) : string :=
  substring 0 (String.length text - String.length rest) text.

(** [re.finditer(pattern, text)], as the texts of the matches.  The
    pattern begins with [^] and is compiled without MULTILINE, and a match
    is never empty: only the attempt at position 0 can succeed. *)
Definition finditer (text : string) : list string :=
  match __pattern_kexec_version_info text with
  | Some (_, rest) => [group0 text rest]
  | None => []
  end.

(** [Kexec._get_version], from [result.stdout] of [kexec -v] on: the
    loop over the matches and the final [raise]. *)
Definition _get_version (stdout : string) : result VersionInfo :=
  let raw_version := finditer stdout in
  (fix loop (raw_version : list string) : result VersionInfo :=
     match raw_version with
     | [] => Raise (LisaException "No find matched kexec version")
     | version :: raw_version' =>
         match __pattern_kexec_version_info version with
         | Some (major, minor, patch, _) =>
             match int major with
             | Raise e => Raise e
             | Return ver_major =>
                 match int minor with
                 | Raise e => Raise e
                 | Return ver_minor =>
                     match int patch with
                     | Raise e => Raise e
                     | Return ver_patch =>
                         Return (Build_VersionInfo ver_major ver_minor
                                                   ver_patch None None)
                     end
                 end
             end
         | None => loop raw_version'
         end
     end) raw_version.

(** The output [kexec<word><blanks><a><c1><b><c2><c><rest>]. *)
Definition output (word blanks a : string) (c1 : ascii) (b : string)
           (c2 : ascii) (c rest : string) : string :=
  "kexec" +:+ (word +:+ (blanks +:+ (a +:+ String c1 (b +:+ String c2 (c +:+ rest))))).

End Kexec.

(** ** The grub hooks of kdump *)

Module KdumpHooks.

(** Modelled from the spec: [version >= other] of [semver.VersionInfo]
    with a text on the right parses the text and compares. *)
Definition ge_text (version : VersionInfo) (other : string) : result bool :=
  match Semver.parse other with
  | Some w =>
      Return (match Semver.compare version w with Lt => false | _ => true end)
  | None => Raise (ValueError (other +:+ " is not valid SemVer string"))
  end.

(** The double quote of the [grubby] command line. *)
Definition dquote : string := Text.chr (ascii_of_nat 34).

Module Base.

(** [KdumpBase._get_crashkernel_cfg_file] *)
Definition _get_crashkernel_cfg_file : M string := ret "/etc/default/grub".

(** [KdumpBase._get_crashkernel_update_cmd] *)
Definition _get_crashkernel_update_cmd (crashkernel : string) : M string :=
  ret "grub2-mkconfig -o /boot/grub2/grub.cfg".

End Base.

Module Redhat.

(** [KdumpRedhat._get_crashkernel_cfg_file]; [version] is
    [self.node.os.information.version]. *)
Definition _get_crashkernel_cfg_file (version : VersionInfo) : M string :=
  match ge_text version "8.0.0-0" with
  | Raise e => raise e
  | Return true => ret EmptyString
  | Return false => ret "/etc/default/grub"
  end.

(** [KdumpRedhat._get_crashkernel_update_cmd] *)
Definition _get_crashkernel_update_cmd (node : Node) (version : VersionInfo)
           (crashkernel : string) : M string :=
  match ge_text version "8.0.0-0" with
  | Raise e => raise e
  | Return true =>
      ret ("grubby --update-kernel=ALL --args=" +:+ dquote +:+ "crashkernel="
           +:+ crashkernel +:+ dquote)
  | Return false =>
      let* efi := exists_ node "/sys/firmware/efi" in
      if efi then ret "grub2-mkconfig -o /boot/efi/EFI/redhat/grub.cfg"
      else ret "grub2-mkconfig -o /boot/grub2/grub.cfg"
  end.

End Redhat.

Module Debian.

(** [KdumpDebian._get_crashkernel_cfg_file] *)
Definition _get_crashkernel_cfg_file : M string :=
  ret "/etc/default/grub.d/kdump-tools.cfg".

(** [KdumpDebian._get_crashkernel_update_cmd] *)
Definition _get_crashkernel_update_cmd (crashkernel : string) : M string :=
  ret "update-grub".

End Debian.

(** Method resolution: [KdumpRedhat] and [KdumpDebian] override the two
    hooks, [KdumpSuse] inherits them from [KdumpBase]. *)
Definition _get_crashkernel_cfg_file (self : Tool) (version : VersionInfo)
  : M string :=
  match tool_class self with
  | KdumpRedhat_cls => Redhat._get_crashkernel_cfg_file version
  | KdumpDebian_cls => Debian._get_crashkernel_cfg_file
  | KdumpSuse_cls => Base._get_crashkernel_cfg_file
  end.

Definition _get_crashkernel_update_cmd (self : Tool) (version : VersionInfo)
           (crashkernel : string) : M string :=
  match tool_class self with
  | KdumpRedhat_cls =>
      Redhat._get_crashkernel_update_cmd (tool_node self) version crashkernel
  | KdumpDebian_cls => Debian._get_crashkernel_update_cmd crashkernel
  | KdumpSuse_cls => Base._get_crashkernel_update_cmd crashkernel
  end.

(** The two hooks as [config_crashkernel_memory] calls them: first the
    file, then the command. *)
Definition hooks (self : Tool) (version : VersionInfo) (crashkernel : string)
  : M (string * string) :=
  let* cfg_file := _get_crashkernel_cfg_file self version in
  let* update_cmd := _get_crashkernel_update_cmd self version crashkernel in
  ret (cfg_file, update_cmd).

End KdumpHooks.

Module HooksFixture.

Definition node (efi : bool) : Node :=
  {| node_os := {| os_mro := ["Redhat"; "Linux"; "Posix"];
                   os_name := "Redhat"; os_version := "7.9.0" |};
     cat_stdout := fun _ _ => EmptyString;
     shell_exists := fun _ path => efi && String.eqb path "/sys/firmware/efi";
     run_millis := fun _ => 10%N |}.

Definition w0 : World := {| clock := 0; executed := 0; enabled_services := [] |}.

Definition v (n : N) (pre : option string) : VersionInfo :=
  {| major := n; minor := 0; patch := 0; prerelease := pre; build := None |}.

End HooksFixture.

(** ** ANSI escapes: [filter_ansi_escape] *)

Module Ansi.

Definition in_range (lo hi : nat) (a : ascii) : bool :=
  let n := nat_of_ascii a in (lo <=? n)%nat && (n <=? hi)%nat.

(** [\x1B] *)
Definition is_esc (a : ascii) : bool := Ascii.eqb a (ascii_of_nat 27).
(** [[@-Z\\-_]]: from [@] to [Z] and from the backslash to [_] *)
Definition is_fe (a : ascii) : bool := in_range 64 90 a || in_range 92 95 a.
(** [\[] *)
Definition is_bracket (a : ascii) : bool := Ascii.eqb a "[".
(** [[0-?]] *)
Definition is_param (a : ascii) : bool := in_range 48 63 a.
(** [[ -/]] *)
Definition is_inter (a : ascii) : bool := in_range 32 47 a.
(** [[@-~]] *)
Definition is_final (a : ascii) : bool := in_range 64 126 a.

(** [r1|r2]: the left branch first. *)
Definition alt {R} (r1 r2 : Greedy.cont R) : Greedy.cont R :=
  fun s =>
    match r1 s with
    | Some x => Some x
    | None => r2 s
    end.

(** [[p]*], greedy, outside a group. *)
Definition star {R} (p : ascii -> bool) (k : Greedy.cont R) : Greedy.cont R :=
  Greedy.star_from p (fun _ => k) EmptyString.

(** [__ansi_escape]: [\x1B(?:[@-Z\\-_]|\[[0-?]*[ -/]*[@-~])]; a match
    reports the text after it. *)
Definition __ansi_escape : Greedy.cont string :=
  Greedy.char is_esc
   (alt (Greedy.char is_fe Some)
        (Greedy.char is_bracket
          (star is_param (star is_inter (Greedy.char is_final Some))))).

(** [__ansi_escape.sub("", content)]: the text is read from the left; a
    match (never empty) is dropped and the reading goes on after it, a
    character at which no match starts is kept.  [fuel] bounds the number
    of steps; the length of the text is enough. *)
Fixpoint sub (fuel : nat) (content : string) : string :=
  match fuel with
  | O => content
  | S fuel' =>
      match content with
      | EmptyString => EmptyString
      | String a content' =>
          match __ansi_escape content with
          | Some rest => sub fuel' rest
          | None => String a (sub fuel' content')
          end
      end
  end.

(** [filter_ansi_escape] *)
Definition filter_ansi_escape (content : string) : string :=
  sub (String.length content) content.

Definition ESC : ascii := ascii_of_nat 27.

(** [ESC [ params intermediates final], a control sequence. *)
Definition csi (params inters : string) (final : ascii) : string :=
  String ESC (String "[" (params +:+ (inters +:+ Text.chr final))).

End Ansi.

(** The value that orders a prerelease identifier: its number when it is
    numeric. *)
Definition identifier_key (x : string) : option N :=
  if Semver.is_build_ident x then digits_value 0 x else None.

(** * Properties *)

(** ** Text *)

Lemma prefix_app (needle hay : string) :
  String.prefix needle hay = true <-> exists tail, hay = needle +:+ tail.
Proof.
  revert hay. induction needle as [|a needle IH]; intros hay.
  - split; [now exists hay | now destruct hay].
  - destruct hay as [|b hay]; cbn.
    + split; [discriminate | now intros (tail & [=])].
    + destruct (ascii_dec a b) as [->|D].
      * rewrite IH. split; intros (tail & E); exists tail.
        -- now rewrite E.
        -- cbn in E. now injection E.
      * split; [discriminate|].
        intros (tail & E). cbn in E. injection E as E1 _. congruence.
Qed.

(** [Text.contains] is Python's [in]: the needle occurs somewhere. *)
Lemma contains_occurs (needle hay : string) :
  Text.contains needle hay = true
  <-> exists head tail, hay = head +:+ needle +:+ tail.
Proof.
  induction hay as [|b hay IH]; cbn [Text.contains].
  - rewrite orb_false_r, prefix_app. split.
    + intros (tail & E). now exists EmptyString, tail.
    + intros ([|c head] & tail & E); [now exists tail | discriminate].
  - rewrite orb_true_iff, prefix_app, IH. split.
    + intros [(tail & E) | (head & tail & E)].
      * now exists EmptyString, tail.
      * exists (String b head), tail. cbn. now rewrite E.
    + intros ([|c head] & tail & E).
      * left. now exists tail.
      * right. exists head, tail. cbn in E. now injection E.
Qed.

(** ** Distribution dispatch *)

(** The classes [Redhat], [Debian] and [Suse] of [lisa.operating_system]
    head separate branches of the class tree (the declarations are not
    among the source files): an operating system belongs to at most one of
    the three families. *)
Definition one_family (os : OperatingSystem) : Prop :=
  (isinstance os "Redhat" = true -> isinstance os "Debian" = false) /\
  (isinstance os "Redhat" = true -> isinstance os "Suse" = false) /\
  (isinstance os "Debian" = true -> isinstance os "Suse" = false).

Lemma create_redhat (node : Node) :
  isinstance (node_os node) "Redhat" = true ->
  KdumpBase.create node = Return (KdumpRedhat node).
Proof. unfold KdumpBase.create. now intros ->. Qed.

Lemma create_debian (node : Node) :
  one_family (node_os node) ->
  isinstance (node_os node) "Debian" = true ->
  KdumpBase.create node = Return (KdumpDebian node).
Proof.
  intros (RD & _) D. unfold KdumpBase.create.
  destruct (isinstance (node_os node) "Redhat") eqn:R.
  - specialize (RD eq_refl). congruence.
  - now rewrite D.
Qed.

Lemma create_suse (node : Node) :
  one_family (node_os node) ->
  isinstance (node_os node) "Suse" = true ->
  KdumpBase.create node = Return (KdumpSuse node).
Proof.
  intros (_ & RS & DS) S. unfold KdumpBase.create.
  destruct (isinstance (node_os node) "Redhat") eqn:R.
  - specialize (RS eq_refl). congruence.
  - destruct (isinstance (node_os node) "Debian") eqn:D.
    + specialize (DS eq_refl). congruence.
    + now rewrite S.
Qed.

Lemma create_other (node : Node) :
  isinstance (node_os node) "Redhat" = false ->
  isinstance (node_os node) "Debian" = false ->
  isinstance (node_os node) "Suse" = false ->
  KdumpBase.create node = Raise (KdumpBase.unsupported (node_os node)).
Proof. unfold KdumpBase.create. now intros -> -> ->. Qed.

(** Nodes of the same family get the same variant, or both get none. *)
Lemma create_same_family (node node' : Node) :
  isinstance (node_os node') "Redhat" = isinstance (node_os node) "Redhat" ->
  isinstance (node_os node') "Debian" = isinstance (node_os node) "Debian" ->
  isinstance (node_os node') "Suse" = isinstance (node_os node) "Suse" ->
  match KdumpBase.create node, KdumpBase.create node' with
  | Return tool, Return tool' => tool_class tool = tool_class tool'
  | Raise _, Raise _ => True
  | _, _ => False
  end.
Proof.
  unfold KdumpBase.create. intros -> -> ->.
  destruct (isinstance (node_os node) "Redhat"),
           (isinstance (node_os node) "Debian"),
           (isinstance (node_os node) "Suse"); cbn; auto.
Qed.

(** C1. [KdumpBase.create] is a function of the node alone (it neither
    reads nor changes the world) and dispatches on the family of the
    node's operating system: Redhat gives [KdumpRedhat], Debian gives
    [KdumpDebian], Suse gives [KdumpSuse], and any other family raises
    [UnsupportedDistroException] carrying the name and the version of the
    operating system.  The variant depends on the family only. *)
Theorem create_dispatch (node : Node) :
  one_family (node_os node) ->
  (isinstance (node_os node) "Redhat" = true ->
   KdumpBase.create node = Return (KdumpRedhat node)) /\
  (isinstance (node_os node) "Debian" = true ->
   KdumpBase.create node = Return (KdumpDebian node)) /\
  (isinstance (node_os node) "Suse" = true ->
   KdumpBase.create node = Return (KdumpSuse node)) /\
  (isinstance (node_os node) "Redhat" = false ->
   isinstance (node_os node) "Debian" = false ->
   isinstance (node_os node) "Suse" = false ->
   exists e,
     KdumpBase.create node = Raise e /\
     class_of e = UnsupportedDistroException_cls /\
     e = UnsupportedDistroException (os_name (node_os node))
                                    (os_version (node_os node)) EmptyString /\
     exn_str e = "Unsupported distro " +:+ os_name (node_os node) +:+ " "
                 +:+ os_version (node_os node)) /\
  (forall node' : Node,
      isinstance (node_os node') "Redhat" = isinstance (node_os node) "Redhat" ->
      isinstance (node_os node') "Debian" = isinstance (node_os node) "Debian" ->
      isinstance (node_os node') "Suse" = isinstance (node_os node) "Suse" ->
      match KdumpBase.create node, KdumpBase.create node' with
      | Return tool, Return tool' => tool_class tool = tool_class tool'
      | Raise _, Raise _ => True
      | _, _ => False
      end).
Proof.
  intros F. split; [|split; [|split; [|split]]].
  - apply create_redhat.
  - now apply create_debian.
  - now apply create_suse.
  - intros R D S. rewrite (create_other node R D S).
    eexists. repeat split; reflexivity.
  - apply create_same_family.
Qed.

Lemma create_dispatch_witness :
  KdumpBase.create (Sample.booted Sample.ubuntu 20)
  = Return (KdumpDebian (Sample.booted Sample.ubuntu 20)) /\
  exists e, KdumpBase.create (Sample.booted Sample.freebsd 20) = Raise e /\
            exn_str e = "Unsupported distro FreeBSD 13.1.0".
Proof.
  split.
  - apply (create_dispatch (Sample.booted Sample.ubuntu 20)).
    + repeat split; vm_compute; congruence.
    + reflexivity.
  - destruct (create_dispatch (Sample.booted Sample.freebsd 20))
      as (_ & _ & _ & U & _).
    + repeat split; vm_compute; congruence.
    + destruct U as (e & C & _ & _ & S); try reflexivity.
      exists e. split; [exact C | exact S].
Defined.

(** C2. On a node classified as Debian, resolving the crash-dump tool gives
    the Debian variant, and its service-enable hook enables the service
    [kdump-tools]; the hook of the base class enables [kdump], a different
    name, and the Debian hook never enables that one. *)
Theorem debian_enables_kdump_tools (node : Node) (w : World) :
  one_family (node_os node) ->
  isinstance (node_os node) "Debian" = true ->
  exists tool,
    KdumpBase.create node = Return tool /\
    tool = KdumpDebian node /\
    fst (enable_kdump_service tool w) = Return tt /\
    enabled_services (snd (enable_kdump_service tool w))
    = "kdump-tools" :: enabled_services w /\
    enabled_services (snd (KdumpBase.enable_kdump_service tool w))
    = "kdump" :: enabled_services w /\
    "kdump-tools" <> "kdump" /\
    enabled_services (snd (enable_kdump_service tool w))
    <> enabled_services (snd (KdumpBase.enable_kdump_service tool w)).
Proof.
  intros F D.
  exists (KdumpDebian node).
  repeat split; try reflexivity.
  - now apply create_debian.
  - discriminate.
  - cbn. intros E. discriminate E.
Qed.

Lemma debian_enables_kdump_tools_witness :
  exists tool,
    KdumpBase.create (Sample.booted Sample.ubuntu 20) = Return tool /\
    enabled_services (snd (enable_kdump_service tool Sample.start))
    = ["kdump-tools"].
Proof.
  destruct (debian_enables_kdump_tools (Sample.booted Sample.ubuntu 20)
                                       Sample.start)
    as (tool & C & _ & _ & E & _).
  - repeat split; vm_compute; congruence.
  - reflexivity.
  - exists tool. split; [exact C | exact E].
Defined.

(** ** Bounded retry *)

Section RetryFacts.

Context {A : Type}.
Variables (exceptions : exn_class) (delay : N) (f : M A).

Lemma world_before_shift (w : World) (i : nat) :
  Retry.world_before delay f w (S i)
  = Retry.world_before delay f (snd (sleep delay (snd (f w)))) i.
Proof.
  induction i as [|i IH]; [reflexivity|].
  change (Retry.world_before delay f w (S (S i)))
    with (snd (sleep delay (snd (f (Retry.world_before delay f w (S i)))))).
  now rewrite IH.
Qed.

(** A first attempt that fails with a caught exception, with attempts
    left, is followed by the delay and the remaining attempts. *)
Lemma attempts_again (more : nat) (w : World) :
  Retry.fails_caught exceptions delay f w 0 ->
  Retry.attempts exceptions (S more) delay f w
  = Retry.attempts exceptions more delay f (snd (sleep delay (snd (f w)))).
Proof.
  intros (e & E & C). cbn in E. cbn [Retry.attempts].
  destruct (f w) as [[e'|a] w']; cbn in E; [|discriminate].
  injection E as ->. now rewrite C.
Qed.

Lemma attempts_succeeds (k : nat) :
  forall (more : nat) (w : World) (a : A),
    (k <= more)%nat ->
    (forall i, (i < k)%nat -> Retry.fails_caught exceptions delay f w i) ->
    fst (f (Retry.world_before delay f w k)) = Return a ->
    Retry.attempts exceptions more delay f w
    = (Return a, snd (f (Retry.world_before delay f w k))).
Proof.
  induction k as [|k IH]; intros more w a Hk Hfail Hok.
  - cbn in *. destruct more; cbn [Retry.attempts];
      destruct (f w) as [[e|a'] w']; cbn in Hok; try discriminate;
      now injection Hok as ->.
  - destruct more as [|more]; [lia|].
    rewrite attempts_again by (apply Hfail; lia).
    rewrite world_before_shift in Hok |- *.
    apply IH; [lia| |exact Hok].
    intros i Hi. specialize (Hfail (S i) ltac:(lia)).
    unfold Retry.fails_caught in *. now rewrite world_before_shift in Hfail.
Qed.

Lemma attempts_exhausted (more : nat) :
  forall (w : World),
    (forall i, (i <= more)%nat -> Retry.fails_caught exceptions delay f w i) ->
    Retry.attempts exceptions more delay f w
    = f (Retry.world_before delay f w more).
Proof.
  induction more as [|more IH]; intros w Hfail.
  - destruct (Hfail 0%nat ltac:(lia)) as (e & E & C). cbn in *.
    destruct (f w) as [[e'|a] w']; cbn in E; [|discriminate].
    injection E as ->. now rewrite C.
  - rewrite attempts_again by (apply Hfail; lia).
    rewrite world_before_shift. apply IH.
    intros i Hi. specialize (Hfail (S i) ltac:(lia)).
    unfold Retry.fails_caught in *. now rewrite world_before_shift in Hfail.
Qed.

(** An exception that the decorator does not catch ends the retry. *)
Lemma attempts_uncaught (more : nat) (w w' : World) (e : exn) :
  f w = (Raise e, w') ->
  exn_isinstance exceptions e = false ->
  Retry.attempts exceptions more delay f w = (Raise e, w').
Proof.
  intros E C. destruct more; cbn [Retry.attempts]; now rewrite E, C.
Qed.

End RetryFacts.

(** C8. Bounded retry with at most [tries] attempts.  If the operation
    fails with a caught exception on the attempts 1 to k and succeeds on
    attempt k+1, with k+1 at most [tries], the caller receives that result.
    If it fails with a caught exception on all [tries] attempts, the
    caller receives the exception of the last attempt, unchanged. *)
Theorem retry_bounded {A : Type} (exceptions : exn_class) (tries : positive)
        (delay : N) (f : M A) (w : World) :
  (forall (k : nat) (a : A),
      (k + 1 <= Pos.to_nat tries)%nat ->
      (forall i, (i < k)%nat -> Retry.fails_caught exceptions delay f w i) ->
      fst (f (Retry.world_before delay f w k)) = Return a ->
      fst (Retry.retry exceptions tries delay f w) = Return a) /\
  ((forall i, (i < Pos.to_nat tries)%nat ->
              Retry.fails_caught exceptions delay f w i) ->
   exists e,
     fst (f (Retry.world_before delay f w (Pos.to_nat tries - 1))) = Raise e /\
     exn_isinstance exceptions e = true /\
     fst (Retry.retry exceptions tries delay f w) = Raise e).
Proof.
  unfold Retry.retry. split.
  - intros k a Hk Hfail Hok.
    rewrite (attempts_succeeds exceptions delay f k _ w a); auto; lia.
  - intros Hfail.
    pose proof (Pos2Nat.is_pos tries) as Hpos.
    replace (Nat.pred (Pos.to_nat tries)) with (Pos.to_nat tries - 1)%nat by lia.
    destruct (Hfail (Pos.to_nat tries - 1)%nat ltac:(lia)) as (e & E & C).
    exists e. repeat split; auto.
    rewrite attempts_exhausted; [exact E|].
    intros i Hi. apply Hfail. lia.
Qed.

Lemma retry_bounded_witness :
  fst (Retry.retry LisaException_cls 60 1000
         (KdumpBase._check_kexec_crash_loaded_once
            (KdumpDebian (Sample.booted Sample.ubuntu 20)))
         Sample.start) = Return tt /\
  exists e,
    fst (Retry.retry LisaException_cls 3 1000
           (KdumpBase._check_kexec_crash_loaded_once
              (KdumpDebian (Sample.booted Sample.ubuntu 20)))
           Sample.start) = Raise e /\
    class_of e = LisaException_cls.
Proof.
  split.
  - apply (proj1 (retry_bounded LisaException_cls 60 1000
                    (KdumpBase._check_kexec_crash_loaded_once
                       (KdumpDebian (Sample.booted Sample.ubuntu 20)))
                    Sample.start) 4%nat tt).
    + vm_compute. lia.
    + intros i Hi.
      destruct i as [|[|[|[|i]]]]; try lia;
        (eexists; split; [vm_compute; reflexivity | reflexivity]).
    + reflexivity.
  - destruct (proj2 (retry_bounded LisaException_cls 3 1000
                       (KdumpBase._check_kexec_crash_loaded_once
                          (KdumpDebian (Sample.booted Sample.ubuntu 20)))
                       Sample.start)) as (e & E & _ & R).
    + intros i Hi.
      assert (Hi' : (i < 3)%nat) by (vm_compute in Hi; lia).
      destruct i as [|[|[|i]]]; try lia;
        (eexists; split; [vm_compute; reflexivity | reflexivity]).
    + exists e. split; [exact R|].
      vm_compute in E. now injection E as <-.
Defined.

(** ** Crash kernel loaded *)

Lemma find_seq_first (P : nat -> bool) (n : nat) :
  forall (s k : nat),
    List.find P (seq s n) = Some k ->
    (s <= k < s + n)%nat /\ P k = true /\
    forall i, (s <= i < k)%nat -> P i = false.
Proof.
  induction n as [|n IH]; intros s k; cbn [seq List.find]; [discriminate|].
  destruct (P s) eqn:Ps.
  - intros [= <-]. repeat split; auto; lia.
  - intros F. destruct (IH _ _ F) as (B & Pk & Before).
    repeat split; auto; try lia.
    intros i Hi. destruct (Nat.eq_dec i s) as [->|]; auto. apply Before. lia.
Qed.

Lemma find_seq_none (P : nat -> bool) (n : nat) :
  forall (s : nat),
    List.find P (seq s n) = None ->
    forall i, (s <= i < s + n)%nat -> P i = false.
Proof.
  induction n as [|n IH]; intros s; cbn [seq List.find]; [lia|].
  destruct (P s) eqn:Ps; [discriminate|].
  intros F i Hi. destruct (Nat.eq_dec i s) as [->|]; auto.
  apply (IH _ F). lia.
Qed.

Section CrashkernelFacts.

Variable self : Tool.
Let node := tool_node self.
Let once := KdumpBase._check_kexec_crash_loaded_once self.

Lemma once_eq (w : World) :
  once w
  = (if Crashkernel.flag_reads_one node (executed w) then Return tt
     else Raise (LisaException
                   (KdumpBase.kexec_crash +:+ " file's value is not 1.")),
     tick node w).
Proof.
  unfold once, KdumpBase._check_kexec_crash_loaded_once, bind, cat_run,
    Crashkernel.flag_reads_one, ret, raise.
  fold node. now destruct (String.eqb _ _).
Qed.

Lemma executed_world_before (w : World) (i : nat) :
  executed (Retry.world_before 1000 once w i) = (executed w + i)%nat.
Proof.
  induction i as [|i IH]; cbn [Retry.world_before]; [lia|].
  rewrite once_eq. cbn. rewrite IH. lia.
Qed.

Lemma once_fails_caught (w : World) (i : nat) :
  Crashkernel.flag_reads_one node (executed w + i) = false ->
  Retry.fails_caught LisaException_cls 1000 once w i.
Proof.
  intros F. unfold Retry.fails_caught.
  rewrite once_eq, executed_world_before, F. cbn. eauto.
Qed.

(** The decorated check: it returns at the first attempt that reads 1,
    having run one command per attempt, and raises [LisaException] when
    none of the 60 attempts does. *)
Lemma check_kexec_crash_loaded_eq (w : World) :
  match Crashkernel.first_loaded node (executed w) with
  | Some k =>
      fst (KdumpBase._check_kexec_crash_loaded self w) = Return tt /\
      executed (snd (KdumpBase._check_kexec_crash_loaded self w))
      = (executed w + k + 1)%nat
  | None =>
      fst (KdumpBase._check_kexec_crash_loaded self w)
      = Raise (LisaException
                 (KdumpBase.kexec_crash +:+ " file's value is not 1."))
  end.
Proof.
  unfold KdumpBase._check_kexec_crash_loaded, Retry.retry.
  fold once. change (Nat.pred (Pos.to_nat 60)) with 59%nat.
  unfold Crashkernel.first_loaded.
  destruct (List.find _ _) as [k|] eqn:F.
  - apply find_seq_first in F. destruct F as (B & Pk & Before).
    rewrite (attempts_succeeds LisaException_cls 1000 once k 59 w tt).
    + cbn [fst snd]. rewrite once_eq. cbn [snd tick executed].
      rewrite executed_world_before. split; [reflexivity | lia].
    + lia.
    + intros i Hi. apply once_fails_caught. apply Before. lia.
    + rewrite once_eq, executed_world_before. cbn [fst]. now rewrite Pk.
  - pose proof (find_seq_none _ _ _ F) as None_.
    rewrite attempts_exhausted.
    + rewrite once_eq, executed_world_before. cbn [fst].
      now rewrite (None_ 59%nat ltac:(lia)).
    + intros i Hi. apply once_fails_caught. apply None_. lia.
Qed.

End CrashkernelFacts.

(** The flag condition, spelled out: one of the 60 reads that follow the
    existence test shows exactly 1. *)
Lemma flag_ok_iff (node : Node) (n : nat) :
  Crashkernel.flag_ok node n
  <-> exists k, (k < 60)%nat /\
                cat_stdout node (n + 2 + k) KdumpBase.kexec_crash = "1".
Proof.
  unfold Crashkernel.flag_ok, Crashkernel.first_loaded. split.
  - intros (k & F). apply find_seq_first in F as (B & P & _).
    exists k. split; [lia|].
    unfold Crashkernel.flag_reads_one in P.
    apply String.eqb_eq in P. now rewrite <- P.
  - intros (k & B & E).
    destruct (List.find _ _) as [j|] eqn:F; [now exists j|].
    pose proof (find_seq_none _ _ _ F k ltac:(lia)) as N.
    unfold Crashkernel.flag_reads_one in N. cbn beta in N.
    rewrite E in N. discriminate N.
Qed.

(** The outcome of [check_crashkernel_loaded], check by check. *)
Lemma check_crashkernel_loaded_eq (self : Tool) (memory : string) (w : World) :
  fst (KdumpBase.check_crashkernel_loaded self memory w)
  = if Crashkernel.reservation_in_cmdline (tool_node self) (executed w) memory
    then
      if shell_exists (tool_node self) (executed w + 1) KdumpBase.kexec_crash
      then
        match Crashkernel.first_loaded (tool_node self) (executed w + 2) with
        | Some k =>
            if Crashkernel.crash_kernel_in_iomem (tool_node self)
                                                 (executed w + 3 + k)
            then Return tt
            else Raise (LisaException
                          ("No find 'Crash kernel' in " +:+ KdumpBase.iomem +:+
                           ". Memory isn't reserved forcrash kernel"))
        | None =>
            Raise (LisaException
                     (KdumpBase.kexec_crash +:+ " file's value is not 1."))
        end
      else Raise (LisaException
                    (KdumpBase.kexec_crash +:+
                     " file doesn't exist. Kexec crash is not loaded."))
    else Raise (LisaException
                  ("crashkernel=" +:+ memory +:+
                   " boot parameter is not present inkernel cmdline")).
Proof.
  unfold KdumpBase.check_crashkernel_loaded,
    KdumpBase._check_crashkernel_in_cmdline, bind at 1 2.
  unfold cat_run at 1. unfold Crashkernel.reservation_in_cmdline.
  destruct (Text.contains _ _); [|reflexivity].
  cbn [ret raise fst snd]. unfold bind at 1. unfold exists_.
  replace (executed w + 1)%nat with (executed (tick (tool_node self) w))
    by (cbn; lia).
  destruct (shell_exists _ _ _); cbn [negb]; [|reflexivity].
  set (w2 := tick (tool_node self) (tick (tool_node self) w)).
  replace (executed w + 2)%nat with (executed w2) by (cbn; lia).
  pose proof (check_kexec_crash_loaded_eq self w2) as K.
  unfold bind.
  destruct (KdumpBase._check_kexec_crash_loaded self w2) as [[e|[]] w3];
    destruct (Crashkernel.first_loaded _ _) as [k|]; cbn [fst snd] in *.
  - destruct K; discriminate.
  - exact K.
  - destruct K as (_ & X).
    unfold KdumpBase._check_crashkernel_memory_reserved, bind, cat_run,
      Crashkernel.crash_kernel_in_iomem.
    replace (executed w + 3 + k)%nat with (executed w3)
      by (rewrite X; cbn; lia).
    now destruct (Text.contains _ _).
  - discriminate.
Qed.

(** C3. [check_crashkernel_loaded] returns only when the three conditions
    hold: the reservation parameter is in /proc/cmdline, the flag file
    /sys/kernel/kexec_crash_loaded reads exactly 1 at one of the at most 60
    attempts of the retry, and /proc/iomem has a [Crash kernel] entry.
    When one of them fails it raises [LisaException] with a message.  (It
    also requires the flag file to exist; with that, the three conditions
    are enough for it to return.) *)
Theorem check_crashkernel_loaded_conditions (self : Tool) (memory : string)
        (w : World) :
  let node := tool_node self in
  let n := executed w in
  let outcome := fst (KdumpBase.check_crashkernel_loaded self memory w) in
  (outcome = Return tt ->
   Crashkernel.cmdline_ok node n memory /\
   Crashkernel.flag_ok node n /\
   Crashkernel.iomem_ok node n) /\
  (~ (Crashkernel.cmdline_ok node n memory /\
      Crashkernel.flag_ok node n /\
      Crashkernel.iomem_ok node n) ->
   exists message,
     outcome = Raise (LisaException message) /\ message <> EmptyString) /\
  (Crashkernel.cmdline_ok node n memory ->
   Crashkernel.flag_ok node n ->
   Crashkernel.iomem_ok node n ->
   shell_exists node (n + 1) KdumpBase.kexec_crash = true ->
   outcome = Return tt).
Proof.
  cbv zeta. rewrite check_crashkernel_loaded_eq.
  unfold Crashkernel.cmdline_ok, Crashkernel.flag_ok, Crashkernel.iomem_ok.
  destruct (Crashkernel.reservation_in_cmdline _ _ _) eqn:C1.
  2:{ split; [discriminate | split].
      - intros _. eexists. split; [reflexivity | discriminate].
      - discriminate. }
  destruct (shell_exists _ _ _) eqn:E.
  2:{ split; [discriminate | split].
      - intros _. eexists. split; [reflexivity | discriminate].
      - discriminate. }
  destruct (Crashkernel.first_loaded _ _) as [k|] eqn:F.
  2:{ split; [discriminate | split].
      - intros _. eexists. split; [reflexivity | discriminate].
      - intros _ (k & K). discriminate. }
  destruct (Crashkernel.crash_kernel_in_iomem _ _) eqn:I.
  - split; [|split].
    + intros _. repeat split; eauto. intros k' [= <-]. exact I.
    + intros H. exfalso. apply H. repeat split; eauto.
      intros k' [= <-]. exact I.
    + reflexivity.
  - split; [discriminate | split].
    + intros _. eexists. split; [reflexivity | discriminate].
    + intros _ _ H _. specialize (H k eq_refl). congruence.
Qed.

Lemma check_crashkernel_loaded_conditions_witness :
  fst (KdumpBase.check_crashkernel_loaded
         (KdumpDebian (Sample.booted Sample.ubuntu 20)) "512M" Sample.start)
  = Return tt.
Proof.
  apply (check_crashkernel_loaded_conditions
           (KdumpDebian (Sample.booted Sample.ubuntu 20)) "512M" Sample.start).
  - reflexivity.
  - exists 2%nat. reflexivity.
  - intros k H. vm_compute in H. injection H as <-. reflexivity.
  - reflexivity.
Defined.

(** ** The lenient pattern *)

Section PatternFacts.

Lemma keeps_accept name : Re.keeps name Re.accept.
Proof. intros s g g' rest [= <- _]. reflexivity. Qed.

Lemma keeps_dollar name k : Re.keeps name k -> Re.keeps name (Re.dollar k).
Proof.
  intros K s g g' rest. unfold Re.dollar.
  destruct s as [|a [|b s]]; try discriminate; [apply K|].
  destruct (Ascii.eqb a Text.LF); [apply K | discriminate].
Qed.

Lemma keeps_char name p k : Re.keeps name k -> Re.keeps name (Re.char p k).
Proof.
  intros K s g g' rest. unfold Re.char.
  destruct s as [|a s]; [discriminate|].
  destruct (p a); [apply K | discriminate].
Qed.

Lemma keeps_opt name r k :
  Re.keeps name (r k) -> Re.keeps name k -> Re.keeps name (Re.opt r k).
Proof.
  intros R K s g g' rest. unfold Re.opt.
  destruct (r k s g) as [x|] eqn:E.
  - intros [= ->]. eapply R, E.
  - apply K.
Qed.

Lemma keeps_lazy_group name other p k :
  other <> name -> Re.keeps name k -> Re.keeps name (Re.lazy_group other p k).
Proof.
  intros D K s. unfold Re.lazy_group. generalize EmptyString as acc.
  induction s as [|a s IH]; intros acc g g' rest; cbn [Re.lazy_group_from].
  - destruct (k _ _) as [x|] eqn:E; [|discriminate].
    intros [= ->]. rewrite (K _ _ _ _ E). now apply lookup_insert_ne.
  - destruct (k _ _) as [x|] eqn:E.
    + intros [= ->]. rewrite (K _ _ _ _ E). now apply lookup_insert_ne.
    + destruct (p a); [apply IH | discriminate].
Qed.

(** Where no character of the class comes next, the lazy group is empty. *)
Lemma lazy_group_empty name p k s g :
  match s with EmptyString => True | String a _ => p a = false end ->
  Re.lazy_group name p k s g = k s (<[name := EmptyString]> g).
Proof.
  unfold Re.lazy_group. destruct s as [|a s]; cbn [Re.lazy_group_from].
  - now destruct (k _ _).
  - intros ->. now destruct (k _ _).
Qed.

Lemma keeps_after_major : Re.keeps "major" after_major.
Proof.
  unfold after_major.
  repeat first
    [ apply keeps_accept | apply keeps_dollar | apply keeps_char
    | apply keeps_opt | apply keeps_lazy_group; [discriminate|] ].
Qed.

Lemma no_digit_head s :
  Text.has_digit s = false ->
  match s with EmptyString => True | String a _ => Text.is_digit a = false end.
Proof.
  destruct s as [|a s]; cbn; [trivial|]. now intros [? _]%orb_false_iff.
Qed.

(** On a text without digits every match has an empty [major]. *)
Lemma search_no_digits (v : string) (g : Re.groups) (rest : string) :
  Text.has_digit v = false ->
  Re.search_anchored __version_info_pattern v = Some (g, rest) ->
  g !! "major" = Some EmptyString.
Proof.
  intros D. unfold Re.search_anchored, __version_info_pattern.
  fold after_major. unfold Re.opt.
  assert (tail : forall s g0,
             Text.has_digit s = false ->
             Re.lazy_group "major" Text.is_digit after_major s g0
             = Some (g, rest) ->
             g !! "major" = Some EmptyString).
  { intros s g0 Ds. rewrite lazy_group_empty by now apply no_digit_head.
    intros E. rewrite (keeps_after_major _ _ _ _ E).
    apply lookup_insert_eq. }
  destruct (Re.char Re.is_vV _ v ∅) as [x|] eqn:E.
  - intros [= ->]. unfold Re.char in E.
    destruct v as [|a v]; [discriminate|].
    destruct (Re.is_vV a); [|discriminate].
    cbn in D. apply orb_false_iff in D as [_ D]. eapply tail; eauto.
  - now apply tail.
Qed.

End PatternFacts.

(** ** [parse_version] *)

(** A canonical semantic version begins with a digit. *)
Lemma semver_parse_no_digits (v : string) :
  Text.has_digit v = false -> Semver.parse v = None.
Proof.
  intros D. unfold Semver.parse.
  destruct v as [|a v]; [reflexivity|].
  cbn in D. apply orb_false_iff in D as [Da _].
  cbn [Semver.span]. rewrite Da.
  repeat match goal with
         | |- context [let (_, _) := ?p in _] => destruct p
         | |- context [match ?x with _ => _ end] => destruct x; try reflexivity
         end.
Qed.

(** What [parse_version] does with a text that holds no digit: the
    format error when the lenient pattern does not match, and otherwise the
    [ValueError] of [int] applied to the empty [major]. *)
Lemma no_digits_cases (v : string) :
  Text.has_digit v = false ->
  match Re.search_anchored __version_info_pattern v with
  | None =>
      parse_version v
      = Raise (LisaException ("The version is invalid format: " +:+ v))
  | Some _ =>
      parse_version v
      = Raise (ValueError "invalid literal for int() with base 10: ''")
  end.
Proof.
  intros D. unfold parse_version, Semver.isvalid.
  rewrite semver_parse_no_digits by exact D.
  destruct (Re.search_anchored _ v) as [[g rest]|] eqn:E; [|reflexivity].
  now rewrite (search_no_digits v g rest D E).
Qed.

Section PatternEnd.

Lemma ends_well_dollar : Re.ends_well (Re.dollar Re.accept).
Proof.
  intros s g g' rest. unfold Re.dollar, Re.accept.
  destruct s as [|a [|b s]]; try discriminate.
  - intros [= _ <-]. split; [now exists EmptyString | now left].
  - destruct (Ascii.eqb a Text.LF) eqn:E; [|discriminate].
    apply Ascii.eqb_eq in E as ->.
    intros [= _ <-]. split; [now exists EmptyString | now right].
Qed.

Lemma ends_well_char p k : Re.ends_well k -> Re.ends_well (Re.char p k).
Proof.
  intros K s g g' rest. unfold Re.char.
  destruct s as [|a s]; [discriminate|].
  destruct (p a); [|discriminate].
  intros E. destruct (K _ _ _ _ E) as ((m & ->) & R).
  split; [now exists (String a m) | exact R].
Qed.

Lemma ends_well_opt r k :
  Re.ends_well (r k) -> Re.ends_well k -> Re.ends_well (Re.opt r k).
Proof.
  intros R K s g g' rest. unfold Re.opt.
  destruct (r k s g) as [x|] eqn:E.
  - intros [= ->]. eapply R, E.
  - apply K.
Qed.

Lemma ends_well_lazy_group name p k :
  Re.ends_well k -> Re.ends_well (Re.lazy_group name p k).
Proof.
  intros K.
  assert (from : forall acc, Re.ends_well (Re.lazy_group_from name p k acc)).
  2:{ apply from. }
  intros acc s. revert acc.
  induction s as [|a s IH]; intros acc g g' rest; cbn [Re.lazy_group_from].
  - destruct (k _ _) as [x|] eqn:E; [|discriminate].
    intros [= ->]. eapply K, E.
  - destruct (k _ _) as [x|] eqn:E.
    + intros [= ->]. eapply K, E.
    + destruct (p a); [|discriminate].
      intros E'. destruct (IH _ _ _ _ E') as ((m & ->) & R).
      split; [now exists (String a m) | exact R].
Qed.

(** The text that the lenient pattern leaves unmatched is the end of the
    input, and is empty or a single line feed. *)
Lemma search_rest (v : string) (g : Re.groups) (rest : string) :
  Re.search_anchored __version_info_pattern v = Some (g, rest) ->
  (exists matched, v = matched +:+ rest) /\
  (rest = EmptyString \/ rest = Text.chr Text.LF).
Proof.
  unfold Re.search_anchored.
  assert (W : Re.ends_well __version_info_pattern); [|apply W].
  unfold __version_info_pattern.
  repeat first
    [ apply ends_well_dollar | apply ends_well_char
    | apply ends_well_opt | apply ends_well_lazy_group ].
Qed.

End PatternEnd.

(** The result of the lenient branch, from the groups of the match: a
    group that took no part counts for zero, and the unmatched rest of the
    input becomes the build. *)
Lemma parse_version_lenient (v : string) (g : Re.groups) (rest : string)
      (a b c : N) :
  Semver.parse v = None ->
  Re.search_anchored __version_info_pattern v = Some (g, rest) ->
  int_or_zero (g !! "major") = Return a ->
  int_or_zero (g !! "minor") = Return b ->
  int_or_zero (g !! "patch") = Return c ->
  parse_version v
  = Return {| major := a; minor := b; patch := c;
              prerelease := g !! "prerelease"; build := Some rest |} /\
  (g !! "patch" = None -> c = 0%N) /\
  (exists matched, v = matched +:+ rest).
Proof.
  intros V S A B C. unfold parse_version, Semver.isvalid.
  rewrite V, S, A, B, C.
  repeat split.
  - intros P. rewrite P in C. now injection C as <-.
  - apply (search_rest v g rest S).
Qed.

(** C4. [parse_version] on the examples of the specification: 2.0.15 is
    (2,0,15), 18.04 is (18,4,0), v1.2.3-beta is (1,2,3) with prerelease
    beta, and the digit-free text abc raises the format error.  The
    digit-free text made of one full stop does not: it raises the
    [ValueError] of [int] on the empty [major]. *)
Theorem parse_version_examples :
  parse_version "2.0.15"
  = Return {| major := 2; minor := 0; patch := 15;
              prerelease := None; build := None |} /\
  parse_version "18.04"
  = Return {| major := 18; minor := 4; patch := 0;
              prerelease := None; build := Some EmptyString |} /\
  parse_version "v1.2.3-beta"
  = Return {| major := 1; minor := 2; patch := 3;
              prerelease := Some "beta"; build := Some EmptyString |} /\
  (Text.has_digit "abc" = false /\
   parse_version "abc"
   = Raise (LisaException "The version is invalid format: abc")) /\
  (Text.has_digit "." = false /\
   parse_version "."
   = Raise (ValueError "invalid literal for int() with base 10: ''")).
Proof. repeat split; vm_compute; reflexivity. Qed.

(** C5. On a text without any digit [parse_version] never returns: it
    raises the format error [LisaException] when the lenient pattern does
    not match the text, and the [ValueError] of [int] when it does. *)
Theorem parse_version_no_digits (v : string) :
  Text.has_digit v = false ->
  (Re.search_anchored __version_info_pattern v = None ->
   parse_version v
   = Raise (LisaException ("The version is invalid format: " +:+ v))) /\
  (Re.search_anchored __version_info_pattern v <> None ->
   parse_version v
   = Raise (ValueError "invalid literal for int() with base 10: ''")).
Proof.
  intros D. pose proof (no_digits_cases v D) as C.
  destruct (Re.search_anchored _ v) as [m|]; split; congruence.
Qed.

Lemma parse_version_no_digits_witness :
  parse_version "-"
  = Raise (ValueError "invalid literal for int() with base 10: ''").
Proof.
  apply (parse_version_no_digits "-").
  - reflexivity.
  - vm_compute. discriminate.
Defined.

(** C6. In the lenient branch a numeric group that matched the empty text
    is not replaced by zero: a missing major (.5), minor (1.) or patch
    (1.2.) makes [int] raise [ValueError].  Only a patch group that took no
    part (18.04) becomes zero. *)
Theorem parse_version_empty_component :
  (Semver.parse ".5" = None /\
   (exists g rest,
       Re.search_anchored __version_info_pattern ".5" = Some (g, rest) /\
       g !! "major" = Some EmptyString /\ g !! "minor" = Some "5") /\
   parse_version ".5"
   = Raise (ValueError "invalid literal for int() with base 10: ''")) /\
  parse_version "1."
  = Raise (ValueError "invalid literal for int() with base 10: ''") /\
  parse_version "1.2."
  = Raise (ValueError "invalid literal for int() with base 10: ''") /\
  patch <$> (match parse_version "18.04" with
             | Return r => Some r
             | Raise _ => None
             end) = Some 0%N.
Proof.
  repeat split; try (vm_compute; reflexivity).
  eexists _, _. repeat split; vm_compute; reflexivity.
Qed.

(** ** Ordering of versions *)

Lemma compare_major (v w : VersionInfo) :
  (major v < major w)%N -> Semver.lt v w.
Proof.
  intros H. unfold Semver.lt, Semver.compare.
  now rewrite (proj2 (N.compare_lt_iff _ _) H).
Qed.

Lemma compare_minor (v w : VersionInfo) :
  major v = major w -> (minor v < minor w)%N -> Semver.lt v w.
Proof.
  intros E H. unfold Semver.lt, Semver.compare.
  now rewrite E, N.compare_refl, (proj2 (N.compare_lt_iff _ _) H).
Qed.

Lemma compare_patch (v w : VersionInfo) :
  major v = major w -> minor v = minor w -> (patch v < patch w)%N ->
  Semver.lt v w.
Proof.
  intros E1 E2 H. unfold Semver.lt, Semver.compare.
  now rewrite E1, E2, !N.compare_refl, (proj2 (N.compare_lt_iff _ _) H).
Qed.

Lemma compare_prerelease (v w : VersionInfo) :
  major v = major w -> minor v = minor w -> patch v = patch w ->
  Semver.has_prerelease v = true -> Semver.has_prerelease w = false ->
  Semver.lt v w.
Proof.
  intros E1 E2 E3 P Q. unfold Semver.lt, Semver.compare.
  now rewrite E1, E2, E3, !N.compare_refl, P, Q.
Qed.

(** The order of the characters and of the texts is transitive. *)
Lemma ascii_compare_lt (a b : ascii) :
  Ascii.compare a b = Lt <-> (N_of_ascii a < N_of_ascii b)%N.
Proof. unfold Ascii.compare. apply N.compare_lt_iff. Qed.

Lemma string_compare_trans (x : string) :
  forall y z, String.compare x y = Lt -> String.compare y z = Lt ->
              String.compare x z = Lt.
Proof.
  induction x as [|a x IH]; intros [|b y] [|c z]; cbn [String.compare];
    try discriminate; try reflexivity.
  destruct (Ascii.compare a b) eqn:AB; [|intros _|discriminate].
  - apply Ascii.compare_eq_iff in AB as ->.
    destruct (Ascii.compare b c); [apply IH|reflexivity|discriminate].
  - destruct (Ascii.compare b c) eqn:BC; [|intros _|discriminate].
    + apply Ascii.compare_eq_iff in BC as <-. now rewrite AB.
    + pose proof (proj1 (ascii_compare_lt a b) AB) as AB'.
      pose proof (proj1 (ascii_compare_lt b c) BC) as BC'.
      assert (Ascii.compare a c = Lt) as -> by (apply ascii_compare_lt; lia).
      reflexivity.
Qed.

Lemma identifier_compare_key (x y : string) :
  Semver.identifier_compare x y
  = match identifier_key x, identifier_key y with
    | Some n, Some m => N.compare n m
    | Some _, None => Lt
    | None, Some _ => Gt
    | None, None => String.compare x y
    end.
Proof. reflexivity. Qed.

Lemma identifier_compare_antisym (x y : string) :
  Semver.identifier_compare y x = CompOpp (Semver.identifier_compare x y).
Proof.
  rewrite !identifier_compare_key.
  destruct (identifier_key x), (identifier_key y); try reflexivity.
  - apply N.compare_antisym.
  - apply String.compare_antisym.
Qed.

Lemma identifier_compare_trans (x y z : string) :
  Semver.identifier_compare x y = Lt -> Semver.identifier_compare y z = Lt ->
  Semver.identifier_compare x z = Lt.
Proof.
  rewrite !identifier_compare_key.
  destruct (identifier_key x), (identifier_key y), (identifier_key z);
    try discriminate; try reflexivity.
  - rewrite !N.compare_lt_iff. lia.
  - apply string_compare_trans.
Qed.

Lemma identifier_compare_eq_l (x y z : string) :
  Semver.identifier_compare x y = Eq ->
  Semver.identifier_compare x z = Semver.identifier_compare y z.
Proof.
  rewrite !identifier_compare_key.
  destruct (identifier_key x) eqn:X, (identifier_key y) eqn:Y;
    try discriminate.
  - intros E. apply N.compare_eq in E. now subst.
  - intros E. apply String.compare_eq_iff in E. now subst.
Qed.

Lemma identifier_compare_eq_r (x y z : string) :
  Semver.identifier_compare y z = Eq ->
  Semver.identifier_compare x z = Semver.identifier_compare x y.
Proof.
  rewrite !identifier_compare_key.
  destruct (identifier_key y) eqn:Y, (identifier_key z) eqn:Z;
    try discriminate.
  - intros E. apply N.compare_eq in E. now subst.
  - intros E. apply String.compare_eq_iff in E. now subst.
Qed.

Lemma identifiers_compare_antisym (xs : list string) :
  forall ys, Semver.identifiers_compare ys xs
             = CompOpp (Semver.identifiers_compare xs ys).
Proof.
  induction xs as [|x xs IH]; intros [|y ys]; try reflexivity.
  cbn [Semver.identifiers_compare].
  rewrite (identifier_compare_antisym x y).
  destruct (Semver.identifier_compare x y); cbn [CompOpp]; auto.
Qed.

Lemma identifiers_compare_trans (xs : list string) :
  forall ys zs,
    Semver.identifiers_compare xs ys = Lt ->
    Semver.identifiers_compare ys zs = Lt ->
    Semver.identifiers_compare xs zs = Lt.
Proof.
  induction xs as [|x xs IH]; intros [|y ys] [|z zs];
    cbn [Semver.identifiers_compare]; try discriminate; try reflexivity.
  destruct (Semver.identifier_compare x y) eqn:XY; [|intros _|discriminate].
  - rewrite (identifier_compare_eq_l x y z XY).
    destruct (Semver.identifier_compare y z); [apply IH|reflexivity|discriminate].
  - destruct (Semver.identifier_compare y z) eqn:YZ; [|intros _|discriminate].
    + now rewrite (identifier_compare_eq_r x y z YZ), XY.
    + now rewrite (identifier_compare_trans x y z XY YZ).
Qed.

(** When one version comes before another, exactly. *)
Lemma version_lt_iff (v w : VersionInfo) :
  Semver.lt v w <->
  (major v < major w)%N \/
  (major v = major w /\ (minor v < minor w)%N) \/
  (major v = major w /\ minor v = minor w /\ (patch v < patch w)%N) \/
  (major v = major w /\ minor v = minor w /\ patch v = patch w /\
   Semver.has_prerelease v = true /\
   (Semver.has_prerelease w = false \/
    Semver.identifiers_compare
      (Semver.split_dots (Semver.prerelease_text v))
      (Semver.split_dots (Semver.prerelease_text w)) = Lt)).
Proof.
  unfold Semver.lt, Semver.compare.
  destruct (N.compare_spec (major v) (major w)) as [E1|L1|G1];
    [|split; [auto|reflexivity]|split; [discriminate|lia]].
  destruct (N.compare_spec (minor v) (minor w)) as [E2|L2|G2];
    [|split; [auto|reflexivity]|split; [discriminate|lia]].
  destruct (N.compare_spec (patch v) (patch w)) as [E3|L3|G3];
    [|split; [auto 6|reflexivity]|split; [discriminate|lia]].
  destruct (Semver.has_prerelease v), (Semver.has_prerelease w).
  - split; [intros H; do 3 right; auto 7|].
    intros [?|[[_ ?]|[(_ & _ & ?)|(_ & _ & _ & _ & [?|?])]]];
      (lia || discriminate || assumption).
  - split; [intros _; do 3 right; auto 7|reflexivity].
  - split; [discriminate|].
    intros [?|[[_ ?]|[(_ & _ & ?)|(_ & _ & _ & ? & _)]]];
      (lia || discriminate).
  - split; [discriminate|].
    intros [?|[[_ ?]|[(_ & _ & ?)|(_ & _ & _ & ? & _)]]];
      (lia || discriminate).
Qed.

Lemma version_compare_antisym (v w : VersionInfo) :
  Semver.compare w v = CompOpp (Semver.compare v w).
Proof.
  unfold Semver.compare.
  rewrite (N.compare_antisym (major v) (major w)).
  rewrite (N.compare_antisym (minor v) (minor w)).
  rewrite (N.compare_antisym (patch v) (patch w)).
  destruct (N.compare (major v) (major w)); cbn [CompOpp]; try reflexivity.
  destruct (N.compare (minor v) (minor w)); cbn [CompOpp]; try reflexivity.
  destruct (N.compare (patch v) (patch w)); cbn [CompOpp]; try reflexivity.
  destruct (Semver.has_prerelease v), (Semver.has_prerelease w);
    try reflexivity.
  apply identifiers_compare_antisym.
Qed.

Lemma version_lt_asym (v w : VersionInfo) : Semver.lt v w -> ~ Semver.lt w v.
Proof.
  unfold Semver.lt. intros H. rewrite version_compare_antisym, H. discriminate.
Qed.

Lemma version_lt_trans (u v w : VersionInfo) :
  Semver.lt u v -> Semver.lt v w -> Semver.lt u w.
Proof.
  rewrite !version_lt_iff.
  intros [?|[[? ?]|[(? & ? & ?)|(? & ? & ? & Pu & Hu)]]]
         [?|[[? ?]|[(? & ? & ?)|(? & ? & ? & Pv & Hv)]]];
    try (left; lia);
    try (right; left; split; lia);
    try (right; right; left; repeat split; lia).
  do 3 right. repeat split; try congruence.
  destruct Hu as [Hu|Hu]; [congruence|].
  destruct Hv as [Hv|Hv]; [now left|right].
  exact (identifiers_compare_trans _ _ _ Hu Hv).
Qed.

(** C7. Versions are ordered by major, then minor, then patch, compared as
    numbers, and with the three equal a version that carries a prerelease
    comes strictly before one that does not.  One version comes before
    another in these cases and in no other (two prereleases of the same
    numbers apart, which their identifiers order), never both ways round,
    and the order is transitive.  In particular
    2.0.14 < 2.0.15 < 2.0.16 and 1.0.0-rc1 < 1.0.0, as parsed, and none of
    these the other way round. *)
Theorem version_precedence :
  (forall v w : VersionInfo,
      ((major v < major w)%N -> Semver.lt v w) /\
      (major v = major w -> (minor v < minor w)%N -> Semver.lt v w) /\
      (major v = major w -> minor v = minor w -> (patch v < patch w)%N ->
       Semver.lt v w) /\
      (major v = major w -> minor v = minor w -> patch v = patch w ->
       Semver.has_prerelease v = true -> Semver.has_prerelease w = false ->
       Semver.lt v w) /\
      (Semver.lt v w <->
       (major v < major w)%N \/
       (major v = major w /\ (minor v < minor w)%N) \/
       (major v = major w /\ minor v = minor w /\ (patch v < patch w)%N) \/
       (major v = major w /\ minor v = minor w /\ patch v = patch w /\
        Semver.has_prerelease v = true /\
        (Semver.has_prerelease w = false \/
         Semver.identifiers_compare
           (Semver.split_dots (Semver.prerelease_text v))
           (Semver.split_dots (Semver.prerelease_text w)) = Lt))) /\
      (Semver.lt v w -> ~ Semver.lt w v)) /\
  (forall u v w : VersionInfo,
      Semver.lt u v -> Semver.lt v w -> Semver.lt u w) /\
  (exists a b c,
      parse_version "2.0.14" = Return a /\
      parse_version "2.0.15" = Return b /\
      parse_version "2.0.16" = Return c /\
      (major a, minor a, patch a) = (2, 0, 14)%N /\
      (major b, minor b, patch b) = (2, 0, 15)%N /\
      (major c, minor c, patch c) = (2, 0, 16)%N /\
      Semver.lt a b /\ Semver.lt b c /\
      ~ Semver.lt b a /\ ~ Semver.lt c b /\ ~ Semver.lt a a) /\
  (exists p r,
      parse_version "1.0.0-rc1" = Return p /\
      parse_version "1.0.0" = Return r /\
      (major p, minor p, patch p, prerelease p) = (1, 0, 0, Some "rc1")%N /\
      (major r, minor r, patch r, prerelease r) = (1, 0, 0, None)%N /\
      Semver.lt p r /\ ~ Semver.lt r p).
Proof.
  split; [|split; [|split]].
  - intros v w. repeat split.
    + apply compare_major.
    + apply compare_minor.
    + apply compare_patch.
    + apply compare_prerelease.
    + apply version_lt_iff.
    + apply version_lt_iff.
    + apply version_lt_asym.
  - apply version_lt_trans.
  - eexists _, _, _.
    repeat split; try (vm_compute; reflexivity); vm_compute; discriminate.
  - eexists _, _.
    repeat split; try (vm_compute; reflexivity); vm_compute; discriminate.
Qed.

Lemma version_precedence_witness :
  Semver.lt {| major := 1; minor := 0; patch := 0;
               prerelease := Some "rc1"; build := None |}
            {| major := 1; minor := 0; patch := 0;
               prerelease := None; build := None |} /\
  Semver.lt {| major := 2; minor := 0; patch := 14;
               prerelease := None; build := None |}
            {| major := 2; minor := 0; patch := 15;
               prerelease := None; build := None |} /\
  ~ Semver.lt {| major := 2; minor := 0; patch := 15;
                 prerelease := None; build := None |}
              {| major := 2; minor := 0; patch := 14;
                 prerelease := None; build := None |}.
Proof.
  split; [|split].
  - apply (proj1 (proj2 (proj2 (proj2 (proj1 version_precedence _ _)))));
      reflexivity.
  - apply (proj1 (proj2 (proj2 (proj1 version_precedence _ _))));
      reflexivity.
  - apply (proj2 (proj2 (proj2 (proj2 (proj2
             (proj1 version_precedence _ _)))))).
    apply (proj1 (proj2 (proj2 (proj1 version_precedence _ _))));
      reflexivity.
Defined.

(** ** Polling *)

Section WaitFacts.

Variables (node : Node) (path : string)
          (expected : Timesync.expected_value) (started : N).

Let matches := Timesync.read_matches node path expected.

(** The loop, entered with enough rounds for the time that is left:
    it returns a boolean; [true] right after the first read that
    matches; [false] at the first test of the clock that finds the
    timeout reached, all reads having failed to match. *)
Lemma wait_loop_spec (rounds : nat) :
  forall w : World,
    (started <= clock w)%N ->
    (Timesync.timeout
     <= Timesync.elapsed started w + Timesync.interval * N.of_nat rounds)%N ->
    exists (b : bool) (w' : World),
      Timesync.wait_loop rounds node path expected started w
      = Some (Return b, w') /\
      (executed w <= executed w')%nat /\
      (clock w <= clock w')%N /\
      (executed w' = executed w -> w' = w) /\
      ((Timesync.elapsed started w < Timesync.timeout)%N ->
       (executed w < executed w')%nat) /\
      (b = true ->
       (executed w < executed w')%nat /\
       matches (executed w' - 1)%nat = true /\
       forall n, (executed w <= n < executed w' - 1)%nat ->
                 matches n = false) /\
      (b = false ->
       (forall n, (executed w <= n < executed w')%nat -> matches n = false) /\
       (Timesync.timeout <= Timesync.elapsed started w')%N /\
       ((executed w < executed w')%nat ->
        (Timesync.elapsed started w'
         < Timesync.timeout + run_millis node (executed w' - 1)
           + Timesync.interval)%N)).
Proof.
  induction rounds as [|rounds IH]; intros w Hs Hfuel;
    cbn [Timesync.wait_loop];
    destruct (N.ltb_spec (Timesync.elapsed started w) Timesync.timeout)
      as [Hlt|Hge].
  - unfold Timesync.interval in Hfuel. lia.
  - exists false, w. repeat split; auto; try lia; discriminate.
  - unfold cat_run.
    destruct (Timesync.matched expected (cat_stdout node (executed w) path))
      eqn:Hm.
    + exists true, (tick node w). cbn [tick executed clock].
      repeat split; auto; try lia; try discriminate.
      * replace (S (executed w) - 1)%nat with (executed w) by lia.
        exact Hm.
    + set (w2 := snd (sleep Timesync.interval (tick node w))).
      assert (Hc2 : clock w2
                    = (clock w + run_millis node (executed w)
                       + Timesync.interval)%N) by reflexivity.
      assert (He2 : executed w2 = S (executed w)) by reflexivity.
      destruct (IH w2) as (b & w' & R & Hex & Hcl & Hsame & Hent & Ht & Hf).
      { lia. }
      { unfold Timesync.elapsed, Timesync.interval, Timesync.timeout in *.
        lia. }
      exists b, w'. cbn [snd] in R. rewrite R.
      split; [reflexivity|].
      split; [lia|]. split; [lia|]. split; [lia|]. split; [lia|].
      split.
      * intros ->. destruct (Ht eq_refl) as (H1 & H2 & H3).
        repeat split; auto; try lia.
        intros n Hn. destruct (Nat.eq_dec n (executed w)) as [->|Hne].
        -- exact Hm.
        -- apply H3. lia.
      * intros ->. destruct (Hf eq_refl) as (H1 & H2 & H3).
        repeat split; auto.
        -- intros n Hn. destruct (Nat.eq_dec n (executed w)) as [->|Hne].
           ++ exact Hm.
           ++ apply H1. lia.
        -- intros _.
           destruct (Nat.eq_dec (executed w') (executed w2)) as [Heq|Hne].
           ++ rewrite (Hsame Heq), He2.
              replace (S (executed w) - 1)%nat with (executed w) by lia.
              unfold Timesync.elapsed in *. lia.
           ++ apply H3. lia.
  - exists false, w. repeat split; auto; try lia; discriminate.
Qed.

(** The clock when the loop returns: every read took its time and every
    read but a matching one was followed by one interval of sleep. *)
Lemma wait_loop_clock (rounds : nat) :
  forall (w w' : World) (b : bool),
    Timesync.wait_loop rounds node path expected started w
    = Some (Return b, w') ->
    (executed w <= executed w')%nat /\
    (b = true -> (executed w < executed w')%nat) /\
    clock w'
    = (clock w
       + Timesync.reads_time node (executed w) (executed w' - executed w)
       + Timesync.interval
         * N.of_nat (executed w' - executed w - (if b then 1 else 0)))%N.
Proof.
  induction rounds as [|rounds IH]; intros w w' b;
    cbn [Timesync.wait_loop];
    destruct (N.ltb_spec (Timesync.elapsed started w) Timesync.timeout)
      as [Hlt|Hge]; try discriminate.
  - intros [= <- <-]. rewrite Nat.sub_diag. cbn. split; [lia|].
    split; [discriminate | lia].
  - unfold cat_run.
    destruct (Timesync.matched expected (cat_stdout node (executed w) path)).
    + intros [= <- <-]. cbn [tick executed clock].
      replace (S (executed w) - executed w)%nat with 1%nat by lia.
      cbn. split; [lia|]. split; lia.
    + intros R. apply IH in R as (Hex & Ht & Hc).
      cbn [sleep tick snd executed clock] in Hex, Ht, Hc.
      split; [lia|]. split; [intros; lia|].
      rewrite Hc.
      replace (executed w' - executed w)%nat
        with (S (executed w' - S (executed w))) by lia.
      cbn [Timesync.reads_time].
      destruct b.
      * specialize (Ht eq_refl).
        replace (S (executed w' - S (executed w)) - 1)%nat
          with (S (executed w' - S (executed w) - 1)) by lia.
        unfold Timesync.interval. lia.
      * unfold Timesync.interval. lia.
  - intros [= <- <-]. rewrite Nat.sub_diag. cbn. split; [lia|].
    split; [discriminate | lia].
Qed.

End WaitFacts.

(** C9, as amended.  [_wait_file_changed] always returns a boolean and
    never raises.  It returns [true] at once, after a single read and no
    sleep, when the first read equals the expected value or is among the
    expected values; otherwise it sleeps for the interval after every read
    that does not match and returns [true] right after the first read that
    matches.  It returns [false] at the first test of the clock that finds
    the timeout reached, no read having matched; the time elapsed then is
    at least the timeout and exceeds it by less than the duration of the
    last read plus one interval, hence by less than one interval when
    reads take no time.  The time spent is the time of the reads plus one
    interval for every read that did not end the loop. *)
Theorem wait_file_changed_spec (node : Node) (path : string)
        (expected : Timesync.expected_value) (w : World) :
  exists (b : bool) (w' : World),
    Timesync._wait_file_changed node path expected w = Some (Return b, w') /\
    (Timesync.read_matches node path expected (executed w) = true ->
     b = true /\ w' = tick node w) /\
    (b = true ->
     (executed w < executed w')%nat /\
     Timesync.read_matches node path expected (executed w' - 1)%nat = true /\
     forall n, (executed w <= n < executed w' - 1)%nat ->
               Timesync.read_matches node path expected n = false) /\
    (b = false ->
     (executed w < executed w')%nat /\
     (forall n, (executed w <= n < executed w')%nat ->
                Timesync.read_matches node path expected n = false) /\
     (Timesync.timeout <= Timesync.elapsed (clock w) w')%N /\
     (Timesync.elapsed (clock w) w'
      < Timesync.timeout + run_millis node (executed w' - 1)
        + Timesync.interval)%N /\
     ((forall n, run_millis node n = 0%N) ->
      (Timesync.elapsed (clock w) w'
       < Timesync.timeout + Timesync.interval)%N)) /\
    clock w'
    = (clock w
       + Timesync.reads_time node (executed w) (executed w' - executed w)
       + Timesync.interval
         * N.of_nat (executed w' - executed w - (if b then 1 else 0)))%N.
Proof.
  assert (Hz : (Timesync.elapsed (clock w) w < Timesync.timeout)%N).
  { unfold Timesync.elapsed, Timesync.timeout. rewrite N.sub_diag. lia. }
  destruct (wait_loop_spec node path expected (clock w) Timesync.max_rounds w)
    as (b & w' & R & Hex & Hcl & Hsame & Hent & Ht & Hf).
  { lia. }
  { unfold Timesync.elapsed. rewrite N.sub_diag. vm_compute. discriminate. }
  exists b, w'. unfold Timesync._wait_file_changed.
  split; [exact R|]. split; [|split; [|split]].
  4:{ apply (wait_loop_clock node path expected (clock w) _ _ _ _ R). }
  - intros Hm. unfold Timesync.max_rounds in R.
    change (N.to_nat (Timesync.timeout / Timesync.interval)) with 120%nat in R.
    cbn [Timesync.wait_loop] in R.
    apply N.ltb_lt in Hz. rewrite Hz in R.
    unfold cat_run, Timesync.read_matches in *. rewrite Hm in R.
    now injection R as <- <-.
  - exact Ht.
  - intros ->. destruct (Hf eq_refl) as (H1 & H2 & H3).
    specialize (Hent Hz). repeat split; auto.
    intros Hfast. specialize (H3 Hent). rewrite Hfast in H3. lia.
Qed.

Lemma wait_file_changed_spec_witness :
  Timesync._wait_file_changed
    (Sample.booted Sample.ubuntu 20) KdumpBase.iomem
    (Timesync.ExpectedList ["none"; "  2b000000-4affffff : Crash kernel"])
    Sample.start
  = Some (Return true, tick (Sample.booted Sample.ubuntu 20) Sample.start).
Proof.
  destruct (wait_file_changed_spec
              (Sample.booted Sample.ubuntu 20) KdumpBase.iomem
              (Timesync.ExpectedList
                 ["none"; "  2b000000-4affffff : Crash kernel"])
              Sample.start)
    as (b & w' & R & First & _).
  destruct First as [-> ->]; [reflexivity | exact R].
Defined.

(** C9 as stated fails: with reads that take 310 ms each and never match,
    the loop tests the clock every 810 ms, finds 59940 ms at the 75th test
    and returns [false] at 60750 ms, more than one interval (500 ms) past
    the timeout of 60000 ms. *)
Lemma wait_deadline_counterexample :
  ~ (forall (node : Node) (path : string)
            (expected : Timesync.expected_value) (w w' : World),
        Timesync._wait_file_changed node path expected w
        = Some (Return false, w') ->
        (Timesync.elapsed (clock w) w'
         <= Timesync.timeout + Timesync.interval)%N).
Proof.
  intros H.
  specialize (H (Sample.booted Sample.ubuntu 310) Sample.current_clocksource
                (Timesync.ExpectedStr "hyperv_clocksource_tsc_page")
                Sample.start
                {| clock := 60750; executed := 75; enabled_services := [] |}).
  vm_compute in H. apply H; reflexivity.
Qed.

(** ** One shared list of results *)

Section SharedList.

Import Lines.

Variable patterns : list Pattern.
Let results := replicate (length patterns) 0%nat.

(** One line tried against the patterns from position [start] on: the
    matches all land in the list at 0, in the order of the patterns. *)
Lemma try_patterns_line (line : string) (ps : list Pattern) :
  forall (start : nat) (h : gmap loc (list groupdict)) (acc : list groupdict),
    (start + length ps <= length patterns)%nat ->
    h !! 0%nat = Some acc ->
    foldl (try_pattern results line) h (zip (seq start (length ps)) ps)
      !! 0%nat
    = Some (acc ++ omap (fun p => pattern_match p line) ps).
Proof.
  induction ps as [|p ps IH]; intros start h acc Hlen Hh; cbn.
  - now rewrite app_nil_r.
  - cbn in Hlen. unfold try_pattern at 2. cbn [fst snd].
    destruct (pattern_match p line) as [d|] eqn:Hp.
    + unfold results at 2. rewrite lookup_replicate_2 by lia.
      rewrite (IH (S start) _ (acc ++ [d])); [|lia|].
      * now rewrite <- app_assoc.
      * unfold append. now rewrite lookup_alter_eq, Hh.
    + apply IH; [lia | exact Hh].
Qed.

Lemma all_lines (ls : list string) :
  forall (h : gmap loc (list groupdict)) (acc : list groupdict),
    h !! 0%nat = Some acc ->
    foldl (fun h line =>
             foldl (try_pattern results line) h (enumerate patterns))
          h ls !! 0%nat
    = Some (acc ++ flat_map (fun line =>
                               omap (fun p => pattern_match p line) patterns)
                            ls).
Proof.
  induction ls as [|line ls IH]; intros h acc Hh; cbn.
  - now rewrite app_nil_r.
  - erewrite IH.
    + now rewrite <- app_assoc.
    + unfold enumerate. apply try_patterns_line; [lia | exact Hh].
Qed.

End SharedList.

(** The combined list is as long as the lists of the patterns together. *)
Lemma combined_length (ls : list string) (ps : list Lines.Pattern) :
  length (flat_map (fun line =>
                      omap (fun p => Lines.pattern_match p line) ps) ls)
  = sum_list_with (fun p => length (omap (Lines.pattern_match p) ls)) ps.
Proof.
  induction ls as [|line ls IH]; cbn [flat_map].
  - induction ps as [|p ps IHp]; cbn; auto.
  - rewrite length_app, IH. clear IH.
    induction ps as [|p ps IHp]; [reflexivity|].
    cbn [sum_list_with]. rewrite <- IHp.
    cbn [omap list_omap].
    destruct (Lines.pattern_match p line); cbn [length]; lia.
Qed.

Lemma sum_list_with_two {A} (f : A -> nat) (xs : list A) :
  forall (i j : nat) (x y : A),
    xs !! i = Some x -> xs !! j = Some y -> i <> j ->
    (f x + f y <= sum_list_with f xs)%nat.
Proof.
  induction xs as [|z xs IH]; intros i j x y Hi Hj Hne; [discriminate|].
  destruct i as [|i], j as [|j]; cbn in *; try congruence.
  - injection Hi as ->.
    pose proof (sum_list_with_in y f xs (list_elem_of_lookup_2 _ _ _ Hj)). lia.
  - injection Hj as ->.
    pose proof (sum_list_with_in x f xs (list_elem_of_lookup_2 _ _ _ Hi)). lia.
  - specialize (IH i j x y Hi Hj ltac:(congruence)). lia.
Qed.

(** C10. [find_patterns_groups_in_lines] returns an outer list whose
    positions all refer to one and the same inner list.  Every match of
    every pattern is appended to that list, so what is reported for each
    pattern is the list of the matches of all the patterns, line by line,
    and not the matches of that pattern alone: as soon as another pattern
    matches a line, the two differ. *)
Theorem shared_results (lines : string) (patterns : list Lines.Pattern) :
  let r := Lines.find_patterns_groups_in_lines lines patterns in
  length (fst r) = length patterns /\
  (forall i j l m, fst r !! i = Some l -> fst r !! j = Some m -> l = m) /\
  (forall index,
      (index < length patterns)%nat ->
      Lines.reported r index = Some (Lines.combined_matches lines patterns)) /\
  (forall index j q line d,
      (index < length patterns)%nat ->
      patterns !! j = Some q ->
      In line (Lines.splitlines lines) ->
      Lines.pattern_match q line = Some d ->
      exists ds, Lines.reported r index = Some ds /\ In d ds) /\
  (forall index j p q,
      patterns !! index = Some p ->
      patterns !! j = Some q ->
      index <> j ->
      Lines.own_matches lines q <> [] ->
      Lines.reported r index <> Some (Lines.own_matches lines p)).
Proof.
  cbv zeta.
  assert (Hrep : forall index,
             (index < length patterns)%nat ->
             Lines.reported (Lines.find_patterns_groups_in_lines lines patterns)
                            index
             = Some (Lines.combined_matches lines patterns)).
  { intros index Hi.
    unfold Lines.reported, Lines.find_patterns_groups_in_lines. cbn [fst snd].
    rewrite lookup_replicate_2 by exact Hi.
    rewrite (all_lines patterns _ _ []); [reflexivity|].
    apply lookup_insert_eq. }
  unfold Lines.find_patterns_groups_in_lines at 1 2 3. cbn [fst snd].
  split; [apply length_replicate|]. split; [|split; [|split]].
  4:{ intros index j p q Hp Hq Hne Hown.
      rewrite Hrep by (eapply lookup_lt_Some, Hp).
      intros [= E]. apply (f_equal length) in E.
      unfold Lines.combined_matches in E. rewrite combined_length in E.
      pose proof (sum_list_with_two
                    (fun p => length (omap (Lines.pattern_match p)
                                           (Lines.splitlines lines)))
                    patterns index j p q Hp Hq Hne) as L.
      cbn beta in L. unfold Lines.own_matches in *.
      destruct (omap (Lines.pattern_match q) (Lines.splitlines lines));
        [congruence | cbn in L; lia]. }
  - intros i j l m Hl Hm.
    apply lookup_replicate_1 in Hl as [-> _].
    now apply lookup_replicate_1 in Hm as [-> _].
  - exact Hrep.
  - intros index j q line d Hi Hq Hline Hd.
    exists (Lines.combined_matches lines patterns).
    split; [now apply Hrep|].
    unfold Lines.combined_matches. apply in_flat_map.
    exists line. split; [exact Hline|].
    apply list_elem_of_In, list_elem_of_omap.
    exists q. split; [|exact Hd].
    eapply list_elem_of_lookup_2, Hq.
Qed.

Lemma shared_results_witness :
  let patterns := [Sample.starts_with "eth" "nic"; Sample.starts_with "lo" "loopback"] in
  let r := Lines.find_patterns_groups_in_lines Sample.interfaces patterns in
  Lines.reported r 0
  = Some [ {[ "nic" := "eth0" ]}; {[ "loopback" := "lo" ]}; {[ "nic" := "eth1" ]} ] /\
  Lines.reported r 1 = Lines.reported r 0 /\
  Lines.own_matches Sample.interfaces (Sample.starts_with "eth" "nic")
  = [ {[ "nic" := "eth0" ]}; {[ "nic" := "eth1" ]} ].
Proof.
  cbv zeta.
  destruct (shared_results
              Sample.interfaces
              [Sample.starts_with "eth" "nic"; Sample.starts_with "lo" "loopback"])
    as (_ & _ & R & _ & _).
  rewrite (R 0%nat) by (cbn; lia).
  rewrite (R 1%nat) by (cbn; lia).
  repeat split; vm_compute; reflexivity.
Defined.

(** * Further properties *)

(** ** One-time initialization *)

(** X1. Once [initialize] has returned normally the object is marked, and
    every later call, whatever its arguments, returns without running
    [_initialize] and leaves the object as it is. *)
Theorem initialize_once {S Args : Type}
        (_initialize : Args -> S -> InitializableMixin.outcome unit * S)
        (args : Args) (self self' : InitializableMixin.object S) :
  InitializableMixin.initialize _initialize args self
  = (InitializableMixin.Returns tt, self') ->
  InitializableMixin._is_initialized self' = true /\
  forall argss : list Args,
    InitializableMixin.initialize_all _initialize argss self' = self' /\
    Forall (fun a =>
              InitializableMixin.initialize _initialize a self'
              = (InitializableMixin.Returns tt, self')) argss.
Proof.
  intros H.
  assert (I : InitializableMixin._is_initialized self' = true).
  { unfold InitializableMixin.initialize in H.
    destruct (InitializableMixin._is_initialized self) eqn:F; cbn in H.
    - now injection H as <-.
    - destruct (_initialize args _) as [[e|u] s].
      + destruct (InitializableMixin.is_Exception e); discriminate.
      + now injection H as <-. }
  assert (K : forall a, InitializableMixin.initialize _initialize a self'
                        = (InitializableMixin.Returns tt, self')).
  { intros a. unfold InitializableMixin.initialize. now rewrite I. }
  split; [exact I|]. intros argss. split.
  - unfold InitializableMixin.initialize_all.
    induction argss as [|a argss IH]; cbn; [reflexivity|]. now rewrite K.
  - apply Forall_forall. intros a _. apply K.
Qed.

(** X2. A call of [initialize] on an unmarked object whose [_initialize]
    raises lets that exception out, with the state as [_initialize] left
    it.  For an exception that derives from [Exception] the object is
    left unmarked, so the next call runs [_initialize] again, from that
    state.  For [KeyboardInterrupt], [SystemExit] or [GeneratorExit],
    which [except Exception] does not catch, the object is left marked
    although it was not initialized: every later call returns without
    running [_initialize]. *)
Theorem initialize_failure_resets {S Args : Type}
        (_initialize : Args -> S -> InitializableMixin.outcome unit * S)
        (args : Args) (self : InitializableMixin.object S)
        (identifier : InitializableMixin.raised) (s : S) :
  InitializableMixin._is_initialized self = false ->
  _initialize args (InitializableMixin.state self)
  = (InitializableMixin.Raises identifier, s) ->
  let after := snd (InitializableMixin.initialize _initialize args self) in
  fst (InitializableMixin.initialize _initialize args self)
  = InitializableMixin.Raises identifier /\
  InitializableMixin.state after = s /\
  (forall e, identifier = InitializableMixin.Exception_ e ->
     after = InitializableMixin.__init__ s /\
     forall args',
       fst (InitializableMixin.initialize _initialize args' after)
       = fst (_initialize args' s)) /\
  (forall b, identifier = InitializableMixin.BaseException_ b ->
     InitializableMixin._is_initialized after = true /\
     forall args',
       InitializableMixin.initialize _initialize args' after
       = (InitializableMixin.Returns tt, after)).
Proof.
  intros F R after.
  assert (E : InitializableMixin.initialize _initialize args self
              = (InitializableMixin.Raises identifier,
                 {| InitializableMixin._is_initialized :=
                      negb (InitializableMixin.is_Exception identifier);
                    InitializableMixin.state := s |})).
  { unfold InitializableMixin.initialize. rewrite F, R. cbn.
    now destruct (InitializableMixin.is_Exception identifier). }
  subst after. rewrite E. cbn [fst snd InitializableMixin.state].
  split; [reflexivity|]. split; [reflexivity|]. split.
  - intros e ->. split; [reflexivity|]. intros args'.
    unfold InitializableMixin.initialize. cbn.
    destruct (_initialize args' s) as [[e'|[]] s']; [|reflexivity].
    now destruct (InitializableMixin.is_Exception e').
  - intros b ->. split; [reflexivity|]. intros args'. reflexivity.
Qed.

(** ** More on [parse_version] *)

Lemma span_app (p : ascii -> bool) (s a r : string) :
  Semver.span p s = (a, r) -> s = a +:+ r.
Proof.
  revert a r. induction s as [|c s IH]; intros a r; cbn.
  - now intros [= <- <-].
  - destruct (p c).
    + destruct (Semver.span p s) as [l r'].
      intros [= <- <-]. cbn. now rewrite (IH l r' eq_refl).
    + now intros [= <- <-].
Qed.

Lemma has_sep_app (a r : string) :
  has_sep (a +:+ r) = has_sep a || has_sep r.
Proof.
  induction a as [|c a IH]; [reflexivity|].
  simpl. now rewrite IH, orb_assoc.
Qed.

(** A canonical version holds a full stop. *)
Lemma semver_parse_no_sep (v : string) :
  has_sep v = false -> Semver.parse v = None.
Proof.
  intros H. unfold Semver.parse.
  destruct (Semver.span Text.is_digit v) as [a r1] eqn:E.
  apply span_app in E. subst v.
  rewrite has_sep_app in H. apply orb_false_iff in H as [_ H].
  destruct r1 as [|c r1]; [reflexivity|].
  cbn in H. apply orb_false_iff in H as [H _].
  destruct c as [[] [] [] [] [] [] [] []]; try reflexivity; discriminate H.
Qed.

(** The lenient pattern needs a separator after [major]. *)
Lemma lazy_major_no_sep (s : string) :
  forall (acc : string) (g : Re.groups),
    has_sep s = false ->
    Re.lazy_group_from "major" Text.is_digit after_major acc s g = None.
Proof.
  induction s as [|c s IH]; intros acc g H; cbn [Re.lazy_group_from].
  - reflexivity.
  - cbn in H. apply orb_false_iff in H as [Hc Hs].
    unfold after_major at 1, Re.char at 1. rewrite Hc.
    destruct (Text.is_digit c); [now apply IH | reflexivity].
Qed.

Lemma search_no_sep (v : string) :
  has_sep v = false ->
  Re.search_anchored __version_info_pattern v = None.
Proof.
  intros H. unfold Re.search_anchored, __version_info_pattern.
  fold after_major. unfold Re.opt, Re.lazy_group.
  rewrite (lazy_major_no_sep v) by exact H.
  unfold Re.char. destruct v as [|c v]; [reflexivity|].
  cbn in H. apply orb_false_iff in H as [_ H].
  destruct (Re.is_vV c); [|reflexivity].
  now rewrite lazy_major_no_sep.
Qed.

(** X3. A text without any of the separators [.], [-], [_] is never a
    version for [parse_version]: it raises the format error
    [LisaException].  A single number such as 18 is such a text. *)
Theorem parse_version_needs_separator (v : string) :
  has_sep v = false ->
  parse_version v
  = Raise (LisaException ("The version is invalid format: " +:+ v)).
Proof.
  intros H. unfold parse_version, Semver.isvalid.
  now rewrite semver_parse_no_sep, search_no_sep.
Qed.

Lemma parse_version_needs_separator_witness :
  parse_version "18"
  = Raise (LisaException "The version is invalid format: 18").
Proof.
  apply (parse_version_needs_separator "18"). reflexivity.
Defined.

(** X4. When [parse_version] returns a version for a text that is not a
    canonical semantic version, the build of the result is the text left
    after the match, and that text is empty or a single line feed: the
    final [$] of the pattern lets nothing else through. *)
Theorem parse_version_lenient_build (v : string) (r : VersionInfo) :
  Semver.isvalid v = false ->
  parse_version v = Return r ->
  exists matched rest,
    v = matched +:+ rest /\
    build r = Some rest /\
    (rest = EmptyString \/ rest = Text.chr Text.LF).
Proof.
  intros V. unfold parse_version. rewrite V.
  destruct (Re.search_anchored _ v) as [[g rest]|] eqn:S; [|discriminate].
  destruct (search_rest v g rest S) as ((matched & E) & R).
  destruct (int_or_zero (g !! "major")); [discriminate|].
  destruct (int_or_zero (g !! "minor")); [discriminate|].
  destruct (int_or_zero (g !! "patch")); [discriminate|].
  intros [= <-]. exists matched, rest. auto.
Qed.

Lemma parse_version_lenient_build_witness :
  exists matched rest,
    "18.04" +:+ Text.chr Text.LF = matched +:+ rest /\
    (rest = EmptyString \/ rest = Text.chr Text.LF).
Proof.
  destruct (parse_version_lenient_build
              ("18.04" +:+ Text.chr Text.LF)
              {| major := 18; minor := 4; patch := 0;
                 prerelease := None; build := Some (Text.chr Text.LF) |})
    as (matched & rest & E & _ & R).
  - reflexivity.
  - reflexivity.
  - exists matched, rest. split; [exact E | exact R].
Defined.

Lemma append_chr (acc : string) (d : ascii) (a : string) :
  (acc +:+ Text.chr d) +:+ a = acc +:+ String d a.
Proof.
  unfold Text.chr. induction acc as [|x acc IH]; [reflexivity|].
  change (String x ((acc +:+ String d EmptyString) +:+ a)
          = String x (acc +:+ String d a)).
  now rewrite IH.
Qed.

Lemma append_empty (a : string) : a +:+ EmptyString = a.
Proof.
  induction a as [|x a IH]; [reflexivity|].
  change (String x (a +:+ EmptyString) = String x a). now rewrite IH.
Qed.

Lemma digit_not_sep (d : ascii) : Text.is_digit d = true -> Re.is_sep d = false.
Proof. destruct d as [[] [] [] [] [] [] [] []]; intros H; try reflexivity; discriminate H. Qed.

Lemma digit_not_vV (d : ascii) : Text.is_digit d = true -> Re.is_vV d = false.
Proof. destruct d as [[] [] [] [] [] [] [] []]; intros H; try reflexivity; discriminate H. Qed.

Lemma digit_not_LF (d : ascii) :
  Text.is_digit d = true -> Ascii.eqb d Text.LF = false.
Proof. destruct d as [[] [] [] [] [] [] [] []]; intros H; try reflexivity; discriminate H. Qed.

Lemma sep_not_digit (c : ascii) : Re.is_sep c = true -> Text.is_digit c = false.
Proof. destruct c as [[] [] [] [] [] [] [] []]; intros H; try reflexivity; discriminate H. Qed.

(** A run of characters of the class, followed by one outside it. *)
Lemma span_run (p : ascii -> bool) (a : string) (c : ascii) (r : string) :
  Semver.forallb_str p a = true -> p c = false ->
  Semver.span p (a +:+ String c r) = (a, String c r).
Proof.
  intros A C. induction a as [|x a IH]; simpl.
  - now rewrite C.
  - simpl in A. apply andb_true_iff in A as [X A].
    now rewrite X, (IH A).
Qed.

Lemma span_all (p : ascii -> bool) (a : string) :
  Semver.forallb_str p a = true -> Semver.span p a = (a, EmptyString).
Proof.
  intros A. induction a as [|x a IH]; simpl; [reflexivity|].
  simpl in A. apply andb_true_iff in A as [X A]. now rewrite X, (IH A).
Qed.

Lemma digits_value_run (a : string) :
  forall acc, Semver.forallb_str Text.is_digit a = true ->
              exists n, digits_value acc a = Some n.
Proof.
  induction a as [|x a IH]; intros acc A; simpl; [eauto|].
  simpl in A. apply andb_true_iff in A as [X A]. rewrite X. now apply IH.
Qed.

(** A lazy group of digits in front of a continuation that refuses to
    start on a digit takes the whole run of digits. *)
Lemma lazy_digits_run (name : string) (k : Re.cont) :
  (forall d s g, Text.is_digit d = true -> k (String d s) g = None) ->
  forall (a acc rest : string) (g : Re.groups),
    Semver.forallb_str Text.is_digit a = true ->
    Re.lazy_group_from name Text.is_digit k acc (a +:+ rest) g
    = Re.lazy_group_from name Text.is_digit k (acc +:+ a) rest g.
Proof.
  intros K a. induction a as [|d a IH]; intros acc rest g A.
  - change (EmptyString +:+ rest) with rest. now rewrite append_empty.
  - simpl in A. apply andb_true_iff in A as [D A].
    change (String d a +:+ rest) with (String d (a +:+ rest)).
    cbn [Re.lazy_group_from].
    rewrite K by exact D. rewrite D, (IH _ _ _ A). now rewrite append_chr.
Qed.

Lemma after_major_on_digit (d : ascii) (s : string) (g : Re.groups) :
  Text.is_digit d = true -> after_major (String d s) g = None.
Proof.
  intros D. unfold after_major, Re.char. now rewrite (digit_not_sep d D).
Qed.

Lemma after_minor_on_digit (d : ascii) (s : string) (g : Re.groups) :
  Text.is_digit d = true -> after_minor (String d s) g = None.
Proof.
  intros D. unfold after_minor, Re.opt, Re.char, Re.dollar.
  rewrite (digit_not_sep d D).
  destruct s; [now rewrite (digit_not_LF d D) | reflexivity].
Qed.

(** The match of the lenient pattern on two runs of digits around one
    separator. *)
Lemma search_two_components (a b : string) (c : ascii) :
  a <> EmptyString ->
  Semver.forallb_str Text.is_digit a = true ->
  Semver.forallb_str Text.is_digit b = true ->
  Re.is_sep c = true ->
  Re.search_anchored __version_info_pattern (a +:+ String c b)
  = Some (<["minor" := b]> (<["major" := a]> ∅), EmptyString).
Proof.
  intros Na A B C.
  unfold Re.search_anchored, __version_info_pattern.
  fold after_major. unfold Re.opt at 1.
  assert (V : Re.char Re.is_vV (Re.lazy_group "major" Text.is_digit after_major)
                      (a +:+ String c b) ∅ = None).
  { destruct a as [|d a]; [contradiction|].
    simpl in A. apply andb_true_iff in A as [D _].
    change (String d a +:+ String c b) with (String d (a +:+ String c b)).
    unfold Re.char. now rewrite (digit_not_vV d D). }
  rewrite V. unfold Re.lazy_group.
  rewrite (lazy_digits_run "major" after_major after_major_on_digit) by exact A.
  change (EmptyString +:+ a) with a. cbn [Re.lazy_group_from].
  unfold after_major at 1. fold after_minor. unfold Re.char at 1. rewrite C.
  unfold Re.lazy_group.
  rewrite <- (append_empty b) at 1.
  rewrite (lazy_digits_run "minor" after_minor after_minor_on_digit) by exact B.
  change (EmptyString +:+ b) with b. cbn [Re.lazy_group_from].
  reflexivity.
Qed.

Lemma semver_parse_two_components (a b : string) (c : ascii) :
  Semver.forallb_str Text.is_digit a = true ->
  Semver.forallb_str Text.is_digit b = true ->
  Re.is_sep c = true ->
  Semver.parse (a +:+ String c b) = None.
Proof.
  intros A B C. unfold Semver.parse.
  rewrite (span_run _ a c b A (sep_not_digit c C)).
  destruct c as [[] [] [] [] [] [] [] []]; try reflexivity; try discriminate C.
  now rewrite (span_all _ b B).
Qed.

(** On a run of digits [int] counts the whole text. *)
Lemma digit_run_digits (a : string) :
  Semver.forallb_str Text.is_digit a = true ->
  digit_run a = N.of_nat (String.length a).
Proof.
  induction a as [|x a IH]; [reflexivity|].
  cbn [Semver.forallb_str digit_run String.length]. intros A.
  apply andb_true_iff in A as [X A]. rewrite X, (IH A). lia.
Qed.

Lemma int_digits (a : string) :
  a <> EmptyString ->
  Semver.forallb_str Text.is_digit a = true ->
  (String.length a <= 4300)%nat ->
  exists n, digits_value 0 a = Some n /\ int a = Return n.
Proof.
  intros Na A L. destruct (digits_value_run a 0%N A) as (n & E).
  exists n. split; [exact E|]. unfold int.
  destruct a as [|x a]; [contradiction|].
  rewrite (digit_run_digits _ A), E.
  assert ((max_str_digits <? N.of_nat (String.length (String x a)))%N = false)
    as -> by (apply N.ltb_ge; unfold max_str_digits; lia).
  reflexivity.
Qed.

(** Beyond the limit of the interpreter [int] refuses a run of digits. *)
Lemma int_too_long (a : string) :
  Semver.forallb_str Text.is_digit a = true ->
  (4300 < String.length a)%nat ->
  exists message, int a = Raise (ValueError message).
Proof.
  intros A L. unfold int. destruct a as [|x a]; [cbn in L; lia|].
  rewrite (digit_run_digits _ A).
  assert ((max_str_digits <? N.of_nat (String.length (String x a)))%N = true)
    as -> by (apply N.ltb_lt; unfold max_str_digits; lia).
  now eexists.
Qed.

(** [int] raises nothing but [ValueError]. *)
Lemma int_raises (a : string) (e : exn) :
  int a = Raise e -> exists message, e = ValueError message.
Proof.
  unfold int. destruct a as [|x a]; [intros [= <-]; now eexists|].
  destruct (max_str_digits <? digit_run (String x a))%N;
    [intros [= <-]; now eexists|].
  destruct (digits_value 0 (String x a)); [discriminate|].
  intros [= <-]. now eexists.
Qed.

(** X5. A text made of two non-empty runs of digits around one of the
    separators [.], [-], [_] parses to the version with these two numbers
    (leading zeros allowed), patch zero, no prerelease and an empty
    build, as long as neither run has more than the 4300 digits that
    [int] converts; with a longer run [parse_version] raises the
    [ValueError] of [int]. *)
Theorem parse_version_two_components (a b : string) (c : ascii) :
  a <> EmptyString -> b <> EmptyString ->
  Semver.forallb_str Text.is_digit a = true ->
  Semver.forallb_str Text.is_digit b = true ->
  Re.is_sep c = true ->
  ((String.length a <= 4300)%nat -> (String.length b <= 4300)%nat ->
   exists x y,
     digits_value 0 a = Some x /\ digits_value 0 b = Some y /\
     parse_version (a +:+ String c b)
     = Return {| major := x; minor := y; patch := 0;
                 prerelease := None; build := Some EmptyString |}) /\
  ((4300 < String.length a)%nat \/ (4300 < String.length b)%nat ->
   exists message,
     parse_version (a +:+ String c b) = Raise (ValueError message)).
Proof.
  intros Na Nb A B C.
  assert (P : parse_version (a +:+ String c b)
              = match int a with
                | Raise e => Raise e
                | Return x =>
                    match int b with
                    | Raise e => Raise e
                    | Return y =>
                        Return {| major := x; minor := y; patch := 0;
                                  prerelease := None;
                                  build := Some EmptyString |}
                    end
                end).
  { unfold parse_version, Semver.isvalid.
    rewrite (semver_parse_two_components a b c A B C).
    rewrite (search_two_components a b c Na A B C).
    set (g := <["minor" := b]> (<["major" := a]> ∅) : Re.groups).
    assert (Gmajor : g !! "major" = Some a) by reflexivity.
    assert (Gminor : g !! "minor" = Some b) by reflexivity.
    assert (Gpatch : g !! "patch" = None) by reflexivity.
    assert (Gpre : g !! "prerelease" = None) by reflexivity.
    cbv beta iota. rewrite Gmajor, Gminor, Gpatch, Gpre.
    cbn [int_or_zero]. now destruct (int a), (int b). }
  rewrite P. split.
  - intros La Lb.
    destruct (int_digits a Na A La) as (x & X & ->).
    destruct (int_digits b Nb B Lb) as (y & Y & ->).
    now exists x, y.
  - intros [La|Lb].
    + destruct (int_too_long a A La) as (message & ->). now eexists.
    + destruct (int_too_long b B Lb) as (message & ->).
      destruct (int a) as [e|x] eqn:Ia; [|now eexists].
      destruct (int_raises a e Ia) as (message' & ->). now eexists.
Qed.

Lemma parse_version_two_components_witness :
  parse_version "0020_04"
  = Return {| major := 20; minor := 4; patch := 0;
              prerelease := None; build := Some EmptyString |}.
Proof.
  destruct (parse_version_two_components "0020" "04" "_")
    as [(x & y & X & Y & P) _].
  - discriminate.
  - discriminate.
  - reflexivity.
  - reflexivity.
  - reflexivity.
  - cbn [String.length]. lia.
  - cbn [String.length]. lia.
  - vm_compute in X. vm_compute in Y.
    injection X as <-. injection Y as <-. exact P.
Defined.

Lemma initialize_once_witness :
  InitializableMixin.initialize_all
    Fixture.script_transformer_initialize [tt; tt; tt]
    {| InitializableMixin._is_initialized := true;
       InitializableMixin.state := (0%Z, []) |}
  = {| InitializableMixin._is_initialized := true;
       InitializableMixin.state := (0%Z, []) |}.
Proof.
  apply (initialize_once Fixture.script_transformer_initialize tt
           (InitializableMixin.__init__ (7%Z, [∅]))).
  reflexivity.
Defined.

Lemma initialize_failure_resets_witness :
  (fst (InitializableMixin.initialize Fixture.needs_resource false
          (InitializableMixin.__init__ 0%nat))
   = InitializableMixin.Raises
       (InitializableMixin.Exception_ (LisaException "resource is not ready"))
   /\
   snd (InitializableMixin.initialize Fixture.needs_resource false
          (InitializableMixin.__init__ 0%nat))
   = InitializableMixin.__init__ 1%nat) /\
  InitializableMixin.initialize Fixture.interrupted true
    (snd (InitializableMixin.initialize Fixture.interrupted false
            (InitializableMixin.__init__ 0%nat)))
  = (InitializableMixin.Returns tt,
     {| InitializableMixin._is_initialized := true;
        InitializableMixin.state := 1%nat |}).
Proof.
  split.
  - destruct (initialize_failure_resets Fixture.needs_resource false
                (InitializableMixin.__init__ 0%nat)
                (InitializableMixin.Exception_
                   (LisaException "resource is not ready")) 1%nat
                eq_refl eq_refl) as (Out & _ & Caught & _).
    split; [exact Out|].
    exact (proj1 (Caught _ eq_refl)).
  - destruct (initialize_failure_resets Fixture.interrupted false
                (InitializableMixin.__init__ 0%nat)
                (InitializableMixin.BaseException_
                   InitializableMixin.KeyboardInterrupt) 1%nat
                eq_refl eq_refl) as (_ & _ & _ & Passed).
    exact (proj2 (Passed _ eq_refl) true).
Defined.

(** ** What the checks of the crash kernel cost *)

Lemma reads_time_snoc (node : Node) (count : nat) :
  forall from,
    Timesync.reads_time node from (S count)
    = (Timesync.reads_time node from count + run_millis node (from + count))%N.
Proof.
  induction count as [|count IH]; intros from.
  - cbn. rewrite Nat.add_0_r. lia.
  - change (Timesync.reads_time node from (S (S count)))
      with (run_millis node from
            + Timesync.reads_time node (S from) (S count))%N.
    rewrite IH. cbn [Timesync.reads_time].
    replace (S from + count)%nat with (from + S count)%nat by lia. lia.
Qed.

Lemma reads_time_add (node : Node) (a b : nat) :
  forall from,
    Timesync.reads_time node from (a + b)
    = (Timesync.reads_time node from a
       + Timesync.reads_time node (from + a) b)%N.
Proof.
  induction a as [|a IH]; intros from.
  - cbn. now rewrite Nat.add_0_r.
  - cbn [Nat.add Timesync.reads_time]. rewrite IH.
    replace (S from + a)%nat with (from + S a)%nat by lia. lia.
Qed.

(** The clock before attempt [i] of the flag check: [i] reads and [i]
    sleeps of one second have gone by. *)
Lemma clock_world_before (self : Tool) (w : World) (i : nat) :
  clock (Retry.world_before 1000
           (KdumpBase._check_kexec_crash_loaded_once self) w i)
  = (clock w + Timesync.reads_time (tool_node self) (executed w) i
     + 1000 * N.of_nat i)%N.
Proof.
  induction i as [|i IH].
  - cbn. lia.
  - cbn [Retry.world_before]. rewrite once_eq. cbn [snd sleep tick clock].
    rewrite IH, executed_world_before, reads_time_snoc. lia.
Qed.

Lemma services_world_before (self : Tool) (w : World) (i : nat) :
  enabled_services (Retry.world_before 1000
                      (KdumpBase._check_kexec_crash_loaded_once self) w i)
  = enabled_services w.
Proof.
  induction i as [|i IH]; [reflexivity|].
  cbn [Retry.world_before]. rewrite once_eq. cbn. exact IH.
Qed.

(** The world after the decorated flag check. *)
Lemma check_kexec_world (self : Tool) (w : World) :
  let out := KdumpBase._check_kexec_crash_loaded self w in
  let reads :=
    match Crashkernel.first_loaded (tool_node self) (executed w) with
    | Some k => S k
    | None => 60%nat
    end in
  executed (snd out) = (executed w + reads)%nat /\
  clock (snd out)
  = (clock w + Timesync.reads_time (tool_node self) (executed w) reads
     + 1000 * N.of_nat (reads - 1))%N /\
  enabled_services (snd out) = enabled_services w.
Proof.
  cbv zeta. unfold KdumpBase._check_kexec_crash_loaded, Retry.retry.
  change (Nat.pred (Pos.to_nat 60)) with 59%nat.
  set (once := KdumpBase._check_kexec_crash_loaded_once self).
  assert (after : forall k,
             let w' := snd (once (Retry.world_before 1000 once w k)) in
             executed w' = (executed w + S k)%nat /\
             clock w'
             = (clock w + Timesync.reads_time (tool_node self) (executed w) (S k)
                + 1000 * N.of_nat (S k - 1))%N /\
             enabled_services w' = enabled_services w).
  { intros k. cbv zeta. unfold once. rewrite once_eq.
    cbn [snd tick executed clock enabled_services].
    rewrite executed_world_before, clock_world_before, services_world_before,
      reads_time_snoc.
    repeat split; lia. }
  unfold Crashkernel.first_loaded.
  destruct (List.find _ _) as [k|] eqn:F.
  - apply find_seq_first in F. destruct F as (B & Pk & Before).
    rewrite (attempts_succeeds LisaException_cls 1000 once k 59 w tt).
    + cbn [snd]. apply after.
    + lia.
    + intros i Hi. apply once_fails_caught. apply Before. lia.
    + unfold once. rewrite once_eq, executed_world_before. cbn [fst].
      now rewrite Pk.
  - pose proof (find_seq_none _ _ _ F) as None_.
    rewrite attempts_exhausted.
    + apply (after 59%nat).
    + intros i Hi. apply once_fails_caught. apply None_. lia.
Qed.

(** X6. The decorated flag check [_check_kexec_crash_loaded] stops at the
    first read of the flag that shows 1: with [k] failed reads before it,
    it has run [k + 1] commands and slept [k] seconds.  When none of 60
    reads shows 1 it raises [LisaException] after exactly 60 commands and
    59 seconds of sleep.  It enables no service. *)
Theorem check_kexec_crash_loaded_cost (self : Tool) (w : World) :
  let node := tool_node self in
  let out := KdumpBase._check_kexec_crash_loaded self w in
  enabled_services (snd out) = enabled_services w /\
  match Crashkernel.first_loaded node (executed w) with
  | Some k =>
      (k < 60)%nat /\
      fst out = Return tt /\
      executed (snd out) = (executed w + k + 1)%nat /\
      clock (snd out)
      = (clock w + Timesync.reads_time node (executed w) (k + 1)
         + 1000 * N.of_nat k)%N
  | None =>
      (exists message, fst out = Raise (LisaException message)) /\
      executed (snd out) = (executed w + 60)%nat /\
      clock (snd out)
      = (clock w + Timesync.reads_time node (executed w) 60 + 59000)%N
  end.
Proof.
  cbv zeta.
  pose proof (check_kexec_world self w) as (E & C & Sv).
  pose proof (check_kexec_crash_loaded_eq self w) as R.
  split; [exact Sv|].
  destruct (Crashkernel.first_loaded _ _) as [k|] eqn:F.
  - destruct R as (R & _).
    unfold Crashkernel.first_loaded in F.
    apply find_seq_first in F as (B & _ & _).
    repeat split; auto; try lia.
    rewrite C. replace (S k - 1)%nat with k by lia.
    now replace (k + 1)%nat with (S k) by lia.
  - repeat split; eauto.
Qed.

(** The world after [check_crashkernel_loaded], check by check. *)
Lemma check_crashkernel_loaded_world (self : Tool) (memory : string)
      (w : World) :
  snd (KdumpBase.check_crashkernel_loaded self memory w)
  = if Crashkernel.reservation_in_cmdline (tool_node self) (executed w) memory
    then
      if shell_exists (tool_node self) (executed w + 1) KdumpBase.kexec_crash
      then
        let out := KdumpBase._check_kexec_crash_loaded
                     self (tick (tool_node self) (tick (tool_node self) w)) in
        match fst out with
        | Return _ => tick (tool_node self) (snd out)
        | Raise _ => snd out
        end
      else tick (tool_node self) (tick (tool_node self) w)
    else tick (tool_node self) w.
Proof.
  unfold KdumpBase.check_crashkernel_loaded,
    KdumpBase._check_crashkernel_in_cmdline,
    KdumpBase._check_crashkernel_memory_reserved,
    Crashkernel.reservation_in_cmdline, bind, cat_run, exists_.
  destruct (Text.contains _ _); [|reflexivity].
  cbn [ret fst snd].
  replace (executed w + 1)%nat with (executed (tick (tool_node self) w))
    by (cbn; lia).
  destruct (shell_exists _ _ _); cbn [negb]; [|reflexivity].
  cbv zeta.
  destruct (KdumpBase._check_kexec_crash_loaded self _) as [[e|[]] w3];
    cbn [fst snd]; [reflexivity|].
  now destruct (Text.contains _ _).
Qed.

(** X7. [check_crashkernel_loaded] fails fast on its first two checks:
    without the reservation in /proc/cmdline it raises after that single
    read, and without the flag file after the read and the existence test,
    reading neither flag nor /proc/iomem and never sleeping.  In every
    case it runs at most 63 commands, sleeps at most 59 seconds in all and
    enables no service. *)
Theorem check_crashkernel_loaded_cost (self : Tool) (memory : string)
        (w : World) :
  let node := tool_node self in
  let n := executed w in
  let out := KdumpBase.check_crashkernel_loaded self memory w in
  (Crashkernel.reservation_in_cmdline node n memory = false ->
   snd out = tick node w) /\
  (Crashkernel.reservation_in_cmdline node n memory = true ->
   shell_exists node (n + 1) KdumpBase.kexec_crash = false ->
   snd out = tick node (tick node w)) /\
  (n < executed (snd out) <= n + 63)%nat /\
  (clock w + Timesync.reads_time node n (executed (snd out) - n)
   <= clock (snd out)
   <= clock w + Timesync.reads_time node n (executed (snd out) - n)
      + 59000)%N /\
  enabled_services (snd out) = enabled_services w.
Proof.
  cbv zeta. rewrite check_crashkernel_loaded_world.
  set (node := tool_node self). set (n := executed w).
  assert (T1 : Timesync.reads_time node n 1 = run_millis node n)
    by (cbn; lia).
  assert (T2 : Timesync.reads_time node n 2
               = (run_millis node n + run_millis node (S n))%N)
    by (cbn; lia).
  destruct (Crashkernel.reservation_in_cmdline _ _ _).
  2:{ cbn [tick executed clock enabled_services]. fold n.
      replace (S n - n)%nat with 1%nat by lia. rewrite T1.
      repeat split; try discriminate; lia. }
  destruct (shell_exists _ _ _).
  2:{ cbn [tick executed clock enabled_services]. fold n.
      replace (S (S n) - n)%nat with 2%nat by lia. rewrite T2.
      repeat split; try discriminate; lia. }
  split; [discriminate|]. split; [discriminate|].
  set (w2 := tick node (tick node w)).
  assert (E2 : executed w2 = (n + 2)%nat) by (cbn; unfold n; lia).
  assert (C2 : clock w2 = (clock w + Timesync.reads_time node n 2)%N)
    by (rewrite T2; cbn; fold n; lia).
  pose proof (check_kexec_world self w2) as K. cbv zeta in K.
  fold node in K.
  set (reads := match Crashkernel.first_loaded node (executed w2) with
                | Some k => S k
                | None => 60%nat
                end) in K.
  assert (R : (1 <= reads <= 60)%nat).
  { unfold reads, Crashkernel.first_loaded.
    destruct (List.find _ _) as [k|] eqn:F; [|lia].
    apply find_seq_first in F as (B & _ & _). lia. }
  destruct K as (E3 & C3 & S3). cbv zeta.
  destruct (KdumpBase._check_kexec_crash_loaded self w2) as [[e|[]] w3];
    cbn [fst snd] in *.
  - rewrite E3, C3, E2, C2, S3.
    replace (n + 2 + reads - n)%nat with (2 + reads)%nat by lia.
    rewrite (reads_time_add node 2 reads n).
    repeat split; lia.
  - cbn [tick executed clock enabled_services].
    rewrite E3, C3, E2, C2, S3.
    replace (S (n + 2 + reads) - n)%nat with (S (2 + reads)) by lia.
    rewrite reads_time_snoc, (reads_time_add node 2 reads n).
    replace (n + (2 + reads))%nat with (n + 2 + reads)%nat by lia.
    repeat split; lia.
Qed.

Lemma check_crashkernel_loaded_cost_witness :
  snd (KdumpBase.check_crashkernel_loaded
         (KdumpDebian (Sample.booted Sample.ubuntu 20)) "1G" Sample.start)
  = tick (Sample.booted Sample.ubuntu 20) Sample.start.
Proof.
  apply (check_crashkernel_loaded_cost
           (KdumpDebian (Sample.booted Sample.ubuntu 20)) "1G" Sample.start).
  reflexivity.
Defined.

(** ** How long the polling goes on *)

Lemma wait_loop_reads (node : Node) (path : string)
      (expected : Timesync.expected_value) (started : N) (rounds : nat) :
  forall (w w' : World) (r : result bool),
    Timesync.wait_loop rounds node path expected started w = Some (r, w') ->
    (executed w' <= executed w + rounds)%nat /\
    enabled_services w' = enabled_services w.
Proof.
  induction rounds as [|rounds IH]; intros w w' r;
    cbn [Timesync.wait_loop];
    destruct (Timesync.elapsed started w <? Timesync.timeout)%N;
    try discriminate.
  - intros [= _ <-]. split; [lia | reflexivity].
  - unfold cat_run.
    destruct (Timesync.matched expected _).
    + intros [= _ <-]. cbn. split; [lia | reflexivity].
    + intros H. apply IH in H as (H & S). cbn in H, S. split; [lia | exact S].
  - intros [= _ <-]. split; [lia | reflexivity].
Qed.

(** X8. [_wait_file_changed] reads the file at least once and at most 120
    times, enables no service, and with no expected value at all (the
    value [None] that its type allows) it can only return [false]. *)
Theorem wait_file_changed_reads (node : Node) (path : string)
        (expected : Timesync.expected_value) (w w' : World) (b : bool) :
  Timesync._wait_file_changed node path expected w = Some (Return b, w') ->
  (1 <= executed w' - executed w <= 120)%nat /\
  enabled_services w' = enabled_services w /\
  (expected = Timesync.ExpectedNone -> b = false).
Proof.
  unfold Timesync._wait_file_changed. intros H.
  pose proof (wait_loop_reads _ _ _ _ _ _ _ _ H) as (Hmax & Hs).
  change Timesync.max_rounds with 120%nat in Hmax.
  destruct (wait_loop_spec node path expected (clock w) Timesync.max_rounds w)
    as (b' & w'' & R & _ & _ & _ & Hent & Ht & _).
  { lia. }
  { unfold Timesync.elapsed. rewrite N.sub_diag. vm_compute. discriminate. }
  rewrite H in R. injection R as <- <-.
  split; [|split].
  - assert (executed w < executed w')%nat; [|lia].
    apply Hent. unfold Timesync.elapsed, Timesync.timeout.
    rewrite N.sub_diag. lia.
  - exact Hs.
  - intros ->. destruct b; [|reflexivity].
    destruct (Ht eq_refl) as (_ & M & _).
    unfold Timesync.read_matches in M. discriminate M.
Qed.

Lemma wait_file_changed_reads_witness :
  (1 <= 120 - 0 <= 120)%nat /\ false = false.
Proof.
  destruct (wait_file_changed_reads
              (Sample.booted Sample.ubuntu 0) Sample.current_clocksource
              Timesync.ExpectedNone Sample.start
              {| clock := 60000; executed := 120; enabled_services := [] |}
              false) as (R & _ & B).
  - vm_compute. reflexivity.
  - split; [exact R | now apply B].
Defined.

(** ** The pattern helpers *)

Section FindPatterns.

Context {A : Type}.
Variable lines : string.

(** The store after one new list per pattern. *)
Let allocs (h : Patterns.store A) (ps : list (Patterns.FindPattern A)) :=
  foldl (fun h p => snd (Patterns.alloc (Patterns.findall p lines) h)) h ps.

Lemma allocs_next (ps : list (Patterns.FindPattern A)) :
  forall h, Patterns.next (allocs h ps) = (Patterns.next h + length ps)%nat.
Proof.
  induction ps as [|p ps IH]; intros h; cbn; [lia|].
  unfold allocs in IH. rewrite IH. cbn. lia.
Qed.

Lemma allocs_below (ps : list (Patterns.FindPattern A)) :
  forall h l,
    (l < Patterns.next h)%nat ->
    Patterns.cells (allocs h ps) !! l = Patterns.cells h !! l.
Proof.
  induction ps as [|p ps IH]; intros h l Hl; cbn; [reflexivity|].
  unfold allocs in IH. rewrite IH by (cbn; lia).
  cbn. apply lookup_insert_ne. lia.
Qed.

Lemma allocs_lookup (ps : list (Patterns.FindPattern A)) :
  forall h j p,
    ps !! j = Some p ->
    Patterns.cells (allocs h ps) !! (Patterns.next h + j)%nat
    = Some (Patterns.findall p lines).
Proof.
  induction ps as [|q ps IH]; intros h j p Hj; [discriminate|].
  destruct j as [|j]; cbn in Hj |- *.
  - injection Hj as ->. rewrite Nat.add_0_r.
    fold (allocs (snd (Patterns.alloc (Patterns.findall p lines) h)) ps).
    rewrite allocs_below by (cbn; lia).
    cbn. apply lookup_insert_eq.
  - fold (allocs (snd (Patterns.alloc (Patterns.findall q lines) h)) ps).
    replace (Patterns.next h + S j)%nat
      with (Patterns.next (snd (Patterns.alloc (Patterns.findall q lines) h))
            + j)%nat by (cbn; lia).
    now apply IH.
Qed.

(** The loop in closed form: every position gets a list of its own. *)
Lemma find_steps (ps : list (Patterns.FindPattern A)) :
  forall (done : list nat) (h : Patterns.store A),
    Patterns.cells h !! 0%nat = Some [] ->
    (0 < Patterns.next h)%nat ->
    foldl (Patterns.find_step lines)
          (done ++ replicate (length ps) 0%nat, h)
          (zip (seq (length done) (length ps)) ps)
    = (done ++ seq (Patterns.next h) (length ps), allocs h ps).
Proof.
  induction ps as [|p ps IH]; intros done h H0 Hn; [reflexivity|].
  cbn [length seq zip zip_with replicate foldl].
  unfold Patterns.find_step at 2. cbn [fst snd].
  rewrite lookup_app_r by lia. rewrite Nat.sub_diag. cbn [lookup list_lookup].
  rewrite H0. cbn [Patterns.alloc].
  replace (<[length done := Patterns.next h]>
             (done ++ 0%nat :: replicate (length ps) 0%nat))
    with ((done ++ [Patterns.next h]) ++ replicate (length ps) 0%nat).
  2:{ rewrite insert_app_r_alt by lia. rewrite Nat.sub_diag. cbn.
      now rewrite <- app_assoc. }
  replace (S (length done)) with (length (done ++ [Patterns.next h]))
    by (rewrite length_app; cbn; lia).
  rewrite IH.
  - rewrite <- app_assoc. reflexivity.
  - cbn. rewrite lookup_insert_ne by lia. exact H0.
  - cbn. lia.
Qed.

End FindPatterns.

(** X9. [find_patterns_in_lines] starts from the same shared empty list
    as [find_patterns_groups_in_lines], but it rebinds each position
    instead of appending: every position reports the [findall] of its own
    pattern and of no other, and the shared list stays empty. *)
Theorem find_patterns_in_lines_own {A : Type} (lines : string)
        (patterns : list (Patterns.FindPattern A)) :
  let r := Patterns.find_patterns_in_lines lines patterns in
  length (fst r) = length patterns /\
  Patterns.cells (snd r) !! 0%nat = Some [] /\
  forall index p,
    patterns !! index = Some p ->
    Patterns.reported r index = Some (Patterns.findall p lines).
Proof.
  cbv zeta. unfold Patterns.find_patterns_in_lines, Lines.enumerate.
  cbn [Patterns.alloc Patterns.empty_store Patterns.next Patterns.cells].
  set (h0 := {| Patterns.cells := <[0%nat := []]> ∅; Patterns.next := 1 |}).
  pose proof (find_steps lines patterns [] h0) as F.
  cbn [app length] in F. rewrite F; [|apply lookup_insert_eq | cbn; lia].
  cbn [fst snd].
  split; [apply length_seq|]. split.
  - rewrite allocs_below by (cbn; lia). apply lookup_insert_eq.
  - intros index p Hp. unfold Patterns.reported. cbn [fst snd].
    rewrite lookup_seq_lt by (eapply lookup_lt_Some, Hp).
    now apply allocs_lookup.
Qed.

Lemma find_patterns_in_lines_own_witness :
  Patterns.reported
    (Patterns.find_patterns_in_lines
       "eth0 lo eth1" [PatternFixture.eth; PatternFixture.lo]) 1
  = Some ["lo"].
Proof.
  destruct (find_patterns_in_lines_own
              "eth0 lo eth1" [PatternFixture.eth; PatternFixture.lo])
    as (_ & _ & R).
  apply (R 1%nat PatternFixture.lo). reflexivity.
Defined.

Lemma single_pattern_matches (pattern : Lines.Pattern) (ls : list string) :
  flat_map (fun line => omap (fun p => Lines.pattern_match p line) [pattern]) ls
  = omap (Lines.pattern_match pattern) ls.
Proof.
  induction ls as [|line ls IH]; [reflexivity|].
  cbn [flat_map]. rewrite IH. cbn [omap list_omap].
  now destruct (Lines.pattern_match pattern line).
Qed.

Lemma find_groups_own (lines : string) (pattern : Lines.Pattern) :
  Patterns.find_groups_in_lines lines pattern
  = Lines.own_matches lines pattern.
Proof.
  unfold Patterns.find_groups_in_lines, Lines.reported,
    Lines.find_patterns_groups_in_lines.
  cbn [fst snd length replicate lookup list_lookup].
  rewrite (all_lines [pattern] _ _ []) by apply lookup_insert_eq.
  cbn [app]. apply single_pattern_matches.
Qed.

(** X10. [find_groups_in_lines] returns the matches of its pattern, one
    per matching line and in the order of the lines; with a single pattern
    the shared list of [find_patterns_groups_in_lines] holds nothing
    else. *)
Theorem find_groups_in_lines_own (lines : string) (pattern : Lines.Pattern) :
  Patterns.find_groups_in_lines lines pattern
  = omap (Lines.pattern_match pattern) (Lines.splitlines lines) /\
  forall d,
    In d (Patterns.find_groups_in_lines lines pattern) <->
    exists line, In line (Lines.splitlines lines) /\
                 Lines.pattern_match pattern line = Some d.
Proof.
  rewrite find_groups_own. unfold Lines.own_matches. split; [reflexivity|].
  intros d. rewrite <- list_elem_of_In, list_elem_of_omap.
  split; intros (line & L & M); exists line; split; auto;
    now apply list_elem_of_In.
Qed.

(** X11. [find_group_in_lines] returns the match when exactly one line
    matches the pattern, the empty dictionary when none does, and raises
    [LisaException] when two or more lines match. *)
Theorem find_group_in_lines_cases (repr : list Lines.groupdict -> string)
        (lines : string) (pattern : Lines.Pattern) :
  let matches := Lines.own_matches lines pattern in
  (matches = [] ->
   Patterns.find_group_in_lines repr lines pattern = Return ∅) /\
  (forall d, matches = [d] ->
             Patterns.find_group_in_lines repr lines pattern = Return d) /\
  ((2 <= length matches)%nat ->
   exists message,
     Patterns.find_group_in_lines repr lines pattern
     = Raise (LisaException message)).
Proof.
  cbv zeta. unfold Patterns.find_group_in_lines. rewrite find_groups_own.
  split; [|split].
  - now intros ->.
  - now intros d ->.
  - destruct (Lines.own_matches lines pattern) as [|d [|d' ds]];
      cbn; intros H; try lia. eauto.
Qed.

Lemma find_group_in_lines_cases_witness :
  Patterns.find_group_in_lines (fun _ => "[...]") Sample.interfaces
                               (Sample.starts_with "lo" "loopback")
  = Return {[ "loopback" := "lo" ]} /\
  exists message,
    Patterns.find_group_in_lines (fun _ => "[...]") Sample.interfaces
                                 (Sample.starts_with "eth" "nic")
    = Raise (LisaException message).
Proof.
  split.
  - apply (find_group_in_lines_cases (fun _ => "[...]") Sample.interfaces
             (Sample.starts_with "lo" "loopback")).
    reflexivity.
  - apply (find_group_in_lines_cases (fun _ => "[...]") Sample.interfaces
             (Sample.starts_with "eth" "nic")).
    vm_compute. lia.
Defined.

(** ** Merging dictionaries *)

(** The loop of [deep_update_dict] is [Py.update_items] applied to the
    function itself. *)
Lemma deep_update_dict_items (items dest : list (string * Py.value)) :
  Py.deep_update_dict (Py.Dict items) (Py.Dict dest)
  = Py.update_items Py.deep_update_dict dest items dest.
Proof. reflexivity. Qed.

Lemma dict_get_set_eq (key : string) (v : Py.value)
      (items : list (string * Py.value)) :
  Py.dict_get key (Py.dict_set key v items) = Some v.
Proof.
  induction items as [|[k old] items IH]; cbn.
  - now rewrite String.eqb_refl.
  - destruct (String.eqb key k) eqn:E; cbn; rewrite E; [reflexivity | exact IH].
Qed.

Lemma dict_get_set_ne (key k : string) (v : Py.value)
      (items : list (string * Py.value)) :
  k <> key ->
  Py.dict_get k (Py.dict_set key v items) = Py.dict_get k items.
Proof.
  intros D. induction items as [|[k' old] items IH]; cbn.
  - apply String.eqb_neq in D. now rewrite D.
  - destruct (String.eqb key k') eqn:E; cbn.
    + apply String.eqb_eq in E as <-.
      apply String.eqb_neq in D. now rewrite D.
    + now rewrite IH.
Qed.

Lemma dict_get_missing (key : string) (items : list (string * Py.value)) :
  ~ In key (map fst items) -> Py.dict_get key items = None.
Proof.
  induction items as [|[k v] items IH]; cbn; [reflexivity|].
  intros H. destruct (String.eqb key k) eqn:E.
  - apply String.eqb_eq in E. subst. tauto.
  - apply IH. tauto.
Qed.

Section UpdateItems.

Variable rec : Py.value -> Py.value -> Py.outcome Py.value.
Variable dest : list (string * Py.value).

Let merged := Py.merged rec dest.

Lemma update_items_lookup (items : list (string * Py.value)) :
  forall (result : list (string * Py.value)) (r : Py.value),
    NoDup (map fst items) ->
    Py.update_items rec dest items result = Py.Returned r ->
    exists out,
      r = Py.Dict out /\
      forall k,
        (Py.dict_get k items = None ->
         Py.dict_get k out = Py.dict_get k result) /\
        (forall v, Py.dict_get k items = Some v ->
                   exists v', merged k v = Py.Returned v' /\
                              Py.dict_get k out = Some v').
Proof.
  induction items as [|[key v] items IH]; intros result r N; cbn.
  - intros [= <-]. exists result. split; [reflexivity|].
    intros k. split; [reflexivity | discriminate].
  - fold (merged key v).
    destruct (merged key v) as [e|v'] eqn:M; [discriminate|].
    intros H. apply NoDup_cons in N as [Nk N].
    rewrite list_elem_of_In in Nk.
    destruct (IH _ _ N H) as (out & -> & L).
    exists out. split; [reflexivity|]. intros k.
    destruct (String.eqb k key) eqn:E.
    + apply String.eqb_eq in E as ->. split; [discriminate|].
      intros v0 [= <-]. exists v'. split; [exact M|].
      rewrite (proj1 (L key)) by now apply dict_get_missing.
      apply dict_get_set_eq.
    + apply String.eqb_neq in E. split.
      * intros Hk. rewrite (proj1 (L k) Hk). now apply dict_get_set_ne.
      * apply (proj2 (L k)).
Qed.

(** One item whose merge fails makes the loop fail. *)
Lemma update_items_fails (items : list (string * Py.value)) :
  forall (result : list (string * Py.value)) (key : string) (v : Py.value)
         (e : Py.error),
    In (key, v) items ->
    merged key v = Py.Raised e ->
    exists e', Py.update_items rec dest items result = Py.Raised e'.
Proof.
  induction items as [|[k w] items IH]; intros result key v e I M; cbn.
  - contradiction.
  - fold (merged k w). destruct I as [[= -> ->]|I].
    + rewrite M. eauto.
    + destruct (merged k w) as [e'|w']; [eauto|]. eapply IH; eauto.
Qed.

End UpdateItems.

(** X12. The result of [deep_update_dict] on two dictionaries, key by
    key: a key that [src] lacks keeps the value of [dest]; a key of [src]
    whose value is not a dictionary, or which [dest] lacks, gets the value
    of [src], whatever [dest] held there (a dictionary is replaced by a
    number without any complaint); a key that both have, with a
    dictionary in [src], gets the merge of the two values. *)
Theorem deep_update_dict_lookup (src dest : list (string * Py.value))
        (r : Py.value) :
  NoDup (map fst src) ->
  Py.deep_update_dict (Py.Dict src) (Py.Dict dest) = Py.Returned r ->
  exists out,
    r = Py.Dict out /\
    forall k,
      (Py.dict_get k src = None -> Py.dict_get k out = Py.dict_get k dest) /\
      (forall v,
          Py.dict_get k src = Some v ->
          Py.is_dict v = false \/ Py.dict_get k dest = None ->
          Py.dict_get k out = Some v) /\
      (forall v old,
          Py.dict_get k src = Some v ->
          Py.is_dict v = true ->
          Py.dict_get k dest = Some old ->
          exists v', Py.deep_update_dict v old = Py.Returned v' /\
                     Py.dict_get k out = Some v').
Proof.
  intros N H. rewrite deep_update_dict_items in H.
  destruct (update_items_lookup _ _ _ _ _ N H) as (out & -> & L).
  exists out. split; [reflexivity|]. intros k.
  destruct (L k) as (L1 & L2). split; [exact L1|]. split.
  - intros v Hv C. destruct (L2 v Hv) as (v' & M & G).
    unfold Py.merged in M.
    destruct C as [C|C].
    + destruct v; try discriminate C; destruct (Py.dict_get k dest);
        injection M as <-; exact G.
    + rewrite C in M. destruct v; injection M as <-; exact G.
  - intros v old Hv D O. destruct (L2 v Hv) as (v' & M & G).
    unfold Py.merged in M. rewrite O in M.
    destruct v; try discriminate D. eauto.
Qed.

Lemma deep_update_dict_lookup_witness :
  exists out,
    Py.deep_update_dict (Py.Dict DictFixture.overrides)
                        (Py.Dict DictFixture.defaults)
    = Py.Returned (Py.Dict out) /\
    Py.dict_get "keep" out = Some (Py.Bool true) /\
    Py.dict_get "path" out = Some (Py.Str "/var/crash") /\
    Py.dict_get "limits" out
    = Some (Py.Dict [("tries", Py.Int 60); ("delay", Py.Int 1)]).
Proof.
  destruct (deep_update_dict_lookup
              DictFixture.overrides DictFixture.defaults
              (Py.Dict [ ("limits", Py.Dict [("tries", Py.Int 60);
                                             ("delay", Py.Int 1)]);
                         ("path", Py.Str "/var/crash");
                         ("keep", Py.Bool true);
                         ("name", Py.Str "kdump") ]))
    as (out & E & L).
  - apply (bool_decide_unpack _). vm_compute. exact I.
  - reflexivity.
  - exists out. split; [now rewrite <- E|].
    split; [|split].
    + rewrite (proj1 (L "keep")) by reflexivity. reflexivity.
    + apply (proj1 (proj2 (L "path")) (Py.Str "/var/crash")).
      * reflexivity.
      * now left.
    + destruct (proj2 (proj2 (L "limits"))
                  (Py.Dict [("tries", Py.Int 60)])
                  (Py.Dict [("tries", Py.Int 3); ("delay", Py.Int 1)]))
        as (v' & M & G); try reflexivity.
      vm_compute in M. injection M as <-. exact G.
Defined.

(** X13. [deep_update_dict] of a dictionary onto something that is not
    one: a number, a boolean or a list is replaced by the dictionary; a
    string or [None] makes the call raise [AttributeError], since they
    have no [copy].  The same failure under any key of [dest] where [src]
    has a dictionary makes the whole merge fail. *)
Theorem deep_update_dict_conflicts (items : list (string * Py.value)) :
  (forall old,
      match old with
      | Py.Int _ | Py.Bool _ | Py.Float _ | Py.List _ => True
      | _ => False
      end ->
      Py.deep_update_dict (Py.Dict items) old = Py.Returned (Py.Dict items)) /\
  (forall old,
      old = Py.None_ \/ (exists s, old = Py.Str s) ->
      exists message,
        Py.deep_update_dict (Py.Dict items) old
        = Py.Raised (Py.AttributeError message)) /\
  (forall dest key inner old,
      In (key, Py.Dict inner) items ->
      Py.dict_get key dest = Some old ->
      old = Py.None_ \/ (exists s, old = Py.Str s) ->
      exists e,
        Py.deep_update_dict (Py.Dict items) (Py.Dict dest) = Py.Raised e).
Proof.
  assert (fails : forall inner old,
             old = Py.None_ \/ (exists s, old = Py.Str s) ->
             exists message,
               Py.deep_update_dict (Py.Dict inner) old
               = Py.Raised (Py.AttributeError message)).
  { intros inner old [->|(s & ->)]; cbn; eauto. }
  split; [|split].
  - intros old H. destruct old; try contradiction; reflexivity.
  - apply fails.
  - intros dest key inner old I G O.
    rewrite deep_update_dict_items.
    destruct (fails inner old O) as (message & F).
    eapply update_items_fails; [exact I|].
    unfold Py.merged. rewrite G. exact F.
Qed.

Lemma deep_update_dict_conflicts_witness :
  exists e,
    Py.deep_update_dict
      (Py.Dict [("path", Py.Dict [("root", Py.Str "/mnt")])])
      (Py.Dict DictFixture.overrides)
    = Py.Raised e.
Proof.
  apply (proj2 (proj2 (deep_update_dict_conflicts
                         [("path", Py.Dict [("root", Py.Str "/mnt")])]))
           DictFixture.overrides "path" [("root", Py.Str "/mnt")]
           (Py.Str "/var/crash")).
  - now left.
  - reflexivity.
  - right. now exists "/var/crash".
Defined.

(** ** Attributes and dictionaries *)

Lemma kept_cons_eq (src : gmap string Py.value) (inc : bool) (f : string)
      (rest : list string) (v : Py.value) :
  src !! f = Some v ->
  Fields.kept src inc (f :: rest) f
  = if inc || Py.is_not_none v then Some v else None.
Proof.
  intros H. unfold Fields.kept. cbn [existsb].
  now rewrite String.eqb_refl, H.
Qed.

Lemma kept_cons_ne (src : gmap string Py.value) (inc : bool) (f k : string)
      (rest : list string) :
  k <> f -> Fields.kept src inc (f :: rest) k = Fields.kept src inc rest k.
Proof.
  intros D. unfold Fields.kept. cbn [existsb].
  apply String.eqb_neq in D. now rewrite D.
Qed.

Lemma kept_rest_eq (src : gmap string Py.value) (inc : bool) (f : string)
      (rest : list string) (v : Py.value) :
  src !! f = Some v ->
  Fields.kept src inc rest f = None \/
  Fields.kept src inc rest f
  = if inc || Py.is_not_none v then Some v else None.
Proof.
  intros H. unfold Fields.kept. rewrite H.
  destruct (existsb _ rest); [now right | now left].
Qed.

(** The loop of [set_filtered_fields], attribute by attribute. *)
Lemma copy_fields_lookup (src : gmap string Py.value) (fields : list string) :
  forall dest dest',
    Fields.copy_fields src fields dest = (Py.Returned tt, dest') ->
    forall k, dest' !! k
              = match Fields.kept src false fields k with
                | Some v => Some v
                | None => dest !! k
                end.
Proof.
  induction fields as [|f rest IH]; intros dest dest'; cbn [Fields.copy_fields].
  - now intros [= <-] k.
  - destruct (src !! f) as [v|] eqn:S; [|discriminate].
    intros H k. rewrite (IH _ _ H k).
    destruct (String.eqb k f) eqn:E.
    + apply String.eqb_eq in E as ->.
      rewrite (kept_cons_eq _ _ _ _ _ S). cbn [orb].
      destruct (kept_rest_eq src false f rest v S) as [-> | ->]; cbn [orb].
      * destruct (Py.is_not_none v); [apply lookup_insert_eq | reflexivity].
      * destruct (Py.is_not_none v); [reflexivity|].
        reflexivity.
    + apply String.eqb_neq in E. rewrite (kept_cons_ne _ _ _ _ _ E).
      destruct (Fields.kept src false rest k); [reflexivity|].
      destruct (Py.is_not_none v); [now apply lookup_insert_ne | reflexivity].
Qed.

Lemma copy_fields_returns (src : gmap string Py.value) (fields : list string) :
  forall dest,
    (forall f, In f fields -> is_Some (src !! f)) ->
    fst (Fields.copy_fields src fields dest) = Py.Returned tt.
Proof.
  induction fields as [|f rest IH]; intros dest H; cbn [Fields.copy_fields].
  - reflexivity.
  - destruct (H f (or_introl eq_refl)) as (v & ->).
    apply IH. intros f' I. apply H. now right.
Qed.

Lemma copy_fields_app (src : gmap string Py.value) (pre rest : list string) :
  forall dest,
    (forall f, In f pre -> is_Some (src !! f)) ->
    Fields.copy_fields src (pre ++ rest) dest
    = Fields.copy_fields src rest (snd (Fields.copy_fields src pre dest)).
Proof.
  induction pre as [|f pre IH]; intros dest H; [reflexivity|].
  cbn [app Fields.copy_fields].
  destruct (H f (or_introl eq_refl)) as (v & ->).
  apply IH. intros f' I. apply H. now right.
Qed.

(** X14. [set_filtered_fields] with fields that all exist on [src] returns
    and leaves in [dest] the attribute of [src] for every field whose
    value is not [None], creating the attribute if need be; every other
    attribute of [dest], a field whose value is [None] included, is as
    before.  With an empty list of fields its assertion fails. *)
Theorem set_filtered_fields_copies (src dest : gmap string Py.value)
        (fields : list string) :
  (fields = [] ->
   Fields.set_filtered_fields src dest fields
   = (Py.Raised (Py.Known (AssertionError EmptyString)), dest)) /\
  (fields <> [] ->
   (forall f, In f fields -> is_Some (src !! f)) ->
   fst (Fields.set_filtered_fields src dest fields) = Py.Returned tt /\
   forall k,
     snd (Fields.set_filtered_fields src dest fields) !! k
     = match Fields.kept src false fields k with
       | Some v => Some v
       | None => dest !! k
       end).
Proof.
  split; [now intros ->|].
  intros N H.
  assert (E : Fields.set_filtered_fields src dest fields
              = Fields.copy_fields src fields dest)
    by (destruct fields; [contradiction | reflexivity]).
  rewrite E. pose proof (copy_fields_returns src fields dest H) as R.
  split; [exact R|].
  apply copy_fields_lookup.
  destruct (Fields.copy_fields src fields dest) as [o d]. cbn in *. now subst.
Qed.

Lemma set_filtered_fields_copies_witness :
  snd (Fields.set_filtered_fields
         FieldsFixture.runbook_node FieldsFixture.blank_node
         ["name"; "password"]) !! "password"
  = Some (Py.Str "secret").
Proof.
  destruct (proj2 (set_filtered_fields_copies
                     FieldsFixture.runbook_node FieldsFixture.blank_node
                     ["name"; "password"])) as (_ & L).
  - discriminate.
  - intros f [<-|[<-|[]]]; vm_compute; eauto.
  - rewrite L. reflexivity.
Defined.

(** X15. [set_filtered_fields] is not all-or-nothing: at the first field
    that [src] lacks it raises [LisaException] naming that field, and
    [dest] keeps what was copied for the fields before it. *)
Theorem set_filtered_fields_missing (src dest : gmap string Py.value)
        (before after : list string) (missing : string) :
  (forall f, In f before -> is_Some (src !! f)) ->
  src !! missing = None ->
  fst (Fields.set_filtered_fields src dest (before ++ missing :: after))
  = Py.Raised (Py.Known (LisaException
                           ("field '" +:+ missing
                            +:+ "' doesn't exist on src"))) /\
  forall k,
    snd (Fields.set_filtered_fields src dest (before ++ missing :: after)) !! k
    = match Fields.kept src false before k with
      | Some v => Some v
      | None => dest !! k
      end.
Proof.
  intros H M.
  assert (E : Fields.set_filtered_fields src dest (before ++ missing :: after)
              = Fields.copy_fields src (before ++ missing :: after) dest)
    by (destruct before; reflexivity).
  rewrite E, (copy_fields_app src before _ dest H).
  cbn [Fields.copy_fields]. rewrite M. cbn [fst snd].
  split; [reflexivity|].
  apply copy_fields_lookup.
  pose proof (copy_fields_returns src before dest H) as R.
  destruct (Fields.copy_fields src before dest) as [o d]. cbn in *. now subst.
Qed.

Lemma set_filtered_fields_missing_witness :
  snd (Fields.set_filtered_fields
         FieldsFixture.runbook_node FieldsFixture.blank_node
         ["name"; "address"; "port"]) !! "name"
  = Some (Py.Str "node-0") /\
  snd (Fields.set_filtered_fields
         FieldsFixture.runbook_node FieldsFixture.blank_node
         ["name"; "address"; "port"]) !! "port"
  = Some (Py.Int 0).
Proof.
  destruct (set_filtered_fields_missing
              FieldsFixture.runbook_node FieldsFixture.blank_node
              ["name"] ["port"] "address") as (_ & L).
  - intros f [<-|[]]; vm_compute; eauto.
  - reflexivity.
  - cbn [app] in L. rewrite !L. split; reflexivity.
Defined.

Lemma dict_set_keys (key : string) (v : Py.value)
      (items : list (string * Py.value)) (x : string) :
  In x (map fst (Py.dict_set key v items)) <-> x = key \/ In x (map fst items).
Proof.
  induction items as [|[k old] items IH]; cbn.
  - intuition.
  - destruct (String.eqb key k) eqn:E; cbn.
    + apply String.eqb_eq in E as ->. intuition.
    + rewrite IH. intuition.
Qed.

Lemma dict_set_NoDup (key : string) (v : Py.value)
      (items : list (string * Py.value)) :
  List.NoDup (map fst items) -> List.NoDup (map fst (Py.dict_set key v items)).
Proof.
  induction items as [|[k old] items IH]; cbn; intros N.
  - constructor; [intros [] | constructor].
  - inversion N as [|? ? Nk N']; subst.
    destruct (String.eqb key k) eqn:E; cbn.
    + now constructor.
    + constructor; [|now apply IH].
      rewrite dict_set_keys. intros [->|I]; [|contradiction].
      now rewrite String.eqb_refl in E.
Qed.

(** The loop of [fields_to_dict], key by key. *)
Lemma collect_lookup (cls : string) (src : gmap string Py.value)
      (inc : bool) (fields : list string) :
  forall result d,
    Fields.collect cls src inc fields result = Py.Returned d ->
    (List.NoDup (map fst result) -> List.NoDup (map fst d)) /\
    (forall f, In f fields -> is_Some (src !! f)) /\
    forall k, Py.dict_get k d
              = match Fields.kept src inc fields k with
                | Some v => Some v
                | None => Py.dict_get k result
                end.
Proof.
  induction fields as [|f rest IH]; intros result d; cbn [Fields.collect].
  - intros [= <-]. repeat split; auto. intros f [].
  - destruct (src !! f) as [v|] eqn:S; [|discriminate].
    intros H. destruct (IH _ _ H) as (N & X & L).
    split; [|split].
    + intros Nr. apply N.
      destruct (inc || Py.is_not_none v); [now apply dict_set_NoDup | exact Nr].
    + intros f' [<-|I]; [now rewrite S | now apply X].
    + intros k. rewrite (L k).
      destruct (String.eqb k f) eqn:E.
      * apply String.eqb_eq in E as ->.
        rewrite (kept_cons_eq _ _ _ _ _ S).
        destruct (kept_rest_eq src inc f rest v S) as [-> | ->];
          destruct (inc || Py.is_not_none v); try reflexivity.
        apply dict_get_set_eq.
      * apply String.eqb_neq in E. rewrite (kept_cons_ne _ _ _ _ _ E).
        destruct (Fields.kept src inc rest k); [reflexivity|].
        destruct (inc || Py.is_not_none v); [now apply dict_get_set_ne|].
        reflexivity.
Qed.

Lemma collect_missing (cls : string) (src : gmap string Py.value)
      (inc : bool) (before after : list string) (missing : string) :
  forall result,
    (forall f, In f before -> is_Some (src !! f)) ->
    src !! missing = None ->
    Fields.collect cls src inc (before ++ missing :: after) result
    = Py.Raised (Py.AttributeError (Py.no_attribute cls missing)).
Proof.
  induction before as [|f before IH]; intros result H M;
    cbn [app Fields.collect].
  - now rewrite M.
  - destruct (H f (or_introl eq_refl)) as (v & ->).
    apply IH; [|exact M]. intros f' I. apply H. now right.
Qed.

(** What a returned [fields_to_dict] tells. *)
Lemma fields_to_dict_facts (cls : string) (src : gmap string Py.value)
      (fields : list string) (inc : bool) (d : list (string * Py.value)) :
  Fields.fields_to_dict cls src fields inc = Py.Returned d ->
  List.NoDup (map fst d) /\
  (forall f, In f fields -> is_Some (src !! f)) /\
  forall k, Py.dict_get k d = Fields.kept src inc fields k.
Proof.
  intros H.
  assert (E : Fields.collect cls src inc fields [] = Py.Returned d)
    by (destruct fields; [discriminate | exact H]).
  destruct (collect_lookup _ _ _ _ _ _ E) as (N & X & L).
  split; [apply N; constructor|]. split; [exact X|].
  intros k. rewrite (L k). now destruct (Fields.kept src inc fields k).
Qed.

(** X16. [fields_to_dict] returns a dictionary exactly when the list of
    fields is not empty and [src] has every one of them.  The dictionary
    then has one entry per field whose attribute is not [None] (per field,
    when [None] is let through) and nothing else.  An empty list fails the
    assertion; a field that [src] lacks raises [AttributeError]. *)
Theorem fields_to_dict_entries (cls : string) (src : gmap string Py.value)
        (fields : list string) (is_none_included : bool) :
  (fields = [] ->
   Fields.fields_to_dict cls src fields is_none_included
   = Py.Raised (Py.Known (AssertionError EmptyString))) /\
  (forall d,
      Fields.fields_to_dict cls src fields is_none_included = Py.Returned d ->
      List.NoDup (map fst d) /\
      (forall f, In f fields -> is_Some (src !! f)) /\
      forall k, Py.dict_get k d = Fields.kept src is_none_included fields k) /\
  (fields <> [] -> (forall f, In f fields -> is_Some (src !! f)) ->
   exists d,
     Fields.fields_to_dict cls src fields is_none_included = Py.Returned d) /\
  (forall before missing after,
      fields = before ++ missing :: after ->
      (forall f, In f before -> is_Some (src !! f)) ->
      src !! missing = None ->
      exists message,
        Fields.fields_to_dict cls src fields is_none_included
        = Py.Raised (Py.AttributeError message)).
Proof.
  split; [now intros ->|]. split; [|split].
  - intros d H. now apply fields_to_dict_facts in H.
  - intros Ne All.
    assert (C : forall result,
               exists d, Fields.collect cls src is_none_included fields result
                         = Py.Returned d).
    { clear Ne. induction fields as [|f rest IH]; intros result;
        cbn [Fields.collect]; [now eexists|].
      destruct (All f (or_introl eq_refl)) as (v & ->).
      apply IH. intros f' I. apply All. now right. }
    destruct fields; [contradiction|]. apply C.
  - intros before missing after -> H M.
    exists (Py.no_attribute cls missing).
    rewrite <- (collect_missing cls src is_none_included before after missing
                                [] H M).
    now destruct before.
Qed.

Lemma fields_to_dict_entries_witness :
  exists message,
    Fields.fields_to_dict "Node" FieldsFixture.runbook_node
                          ["name"; "address"] false
    = Py.Raised (Py.AttributeError message).
Proof.
  apply (proj2 (proj2 (proj2 (fields_to_dict_entries
                         "Node" FieldsFixture.runbook_node
                         ["name"; "address"] false)))
           ["name"] "address" []).
  - reflexivity.
  - intros f [<-|[]]; vm_compute; eauto.
  - reflexivity.
Defined.

(** The loop of [dict_to_fields], attribute by attribute. *)
Lemma set_existing_lookup (src : list (string * Py.value)) :
  forall dest k,
    List.NoDup (map fst src) ->
    foldl Fields.set_existing dest src !! k
    = match dest !! k with
      | Some old => Some (default old (Py.dict_get k src))
      | None => None
      end.
Proof.
  induction src as [|[k0 v0] src IH]; intros dest k N; cbn [foldl].
  - cbn. now destruct (dest !! k).
  - inversion N as [|? ? Nk N']; subst. rewrite (IH _ _ N').
    unfold Fields.set_existing. cbn [fst snd Py.dict_get].
    destruct (String.eqb k k0) eqn:E.
    + apply String.eqb_eq in E as ->.
      rewrite (dict_get_missing k0 src Nk).
      destruct (dest !! k0) eqn:D.
      * now rewrite lookup_insert_eq.
      * now rewrite D.
    + apply String.eqb_neq in E.
      destruct (dest !! k0); [|reflexivity].
      now rewrite lookup_insert_ne by congruence.
Qed.

(** X17. Copying through a dictionary and copying directly agree: when
    [fields_to_dict] (without [None] values) returns a dictionary that is
    not empty and [dest] already has the attributes it names,
    [dict_to_fields] of that dictionary leaves [dest] exactly as
    [set_filtered_fields] does.  When every field is [None] the dictionary
    is empty and [dict_to_fields] fails its assertion, while
    [set_filtered_fields] returns and changes nothing. *)
Theorem fields_round_trip (cls : string) (src dest : gmap string Py.value)
        (fields : list string) (d : list (string * Py.value)) :
  Fields.fields_to_dict cls src fields false = Py.Returned d ->
  (d <> [] ->
   (forall k, is_Some (Py.dict_get k d) -> is_Some (dest !! k)) ->
   Fields.dict_to_fields d dest
   = Py.Returned (snd (Fields.set_filtered_fields src dest fields)) /\
   fst (Fields.set_filtered_fields src dest fields) = Py.Returned tt) /\
  (d = [] ->
   Fields.dict_to_fields d dest
   = Py.Raised (Py.Known (AssertionError EmptyString)) /\
   Fields.set_filtered_fields src dest fields = (Py.Returned tt, dest)).
Proof.
  intros H.
  destruct (fields_to_dict_facts cls src fields false d H) as (N & X & L).
  assert (F : fields <> []) by (intros ->; discriminate H).
  assert (E : Fields.set_filtered_fields src dest fields
              = Fields.copy_fields src fields dest)
    by (destruct fields; [contradiction | reflexivity]).
  pose proof (copy_fields_returns src fields dest X) as R.
  assert (C : forall k,
             snd (Fields.copy_fields src fields dest) !! k
             = match Fields.kept src false fields k with
               | Some v => Some v
               | None => dest !! k
               end).
  { apply copy_fields_lookup.
    destruct (Fields.copy_fields src fields dest) as [o d']. cbn in *.
    now subst. }
  split.
  - intros Nd Hd. rewrite E. split; [|exact R].
    assert (Ed : Fields.dict_to_fields d dest
                 = Py.Returned (foldl Fields.set_existing dest d))
      by (destruct d; [contradiction | reflexivity]).
    rewrite Ed. f_equal. apply map_eq. intros k.
    rewrite (set_existing_lookup d dest k N), C, <- L.
    destruct (Py.dict_get k d) as [v|] eqn:G.
    + destruct (Hd k) as (old & ->); [eauto | reflexivity].
    + now destruct (dest !! k).
  - intros ->. split; [reflexivity|]. rewrite E.
    destruct (Fields.copy_fields src fields dest) as [o d'] eqn:P.
    cbn in R, C. subst o. f_equal. apply map_eq. intros k.
    rewrite C, <- L. reflexivity.
Qed.

Lemma fields_round_trip_witness :
  Fields.dict_to_fields
    [("name", Py.Str "node-0"); ("port", Py.Int 22)] FieldsFixture.blank_node
  = Py.Returned
      (snd (Fields.set_filtered_fields
              FieldsFixture.runbook_node FieldsFixture.blank_node
              ["name"; "port"; "password"])).
Proof.
  apply (proj1 (fields_round_trip
                  "Node" FieldsFixture.runbook_node FieldsFixture.blank_node
                  ["name"; "port"; "password"]
                  [("name", Py.Str "node-0"); ("port", Py.Int 22)]
                  eq_refl)).
  - discriminate.
  - intros k (v & G). cbn in G.
    destruct (String.eqb k "name") eqn:E1.
    + apply String.eqb_eq in E1 as ->. vm_compute. eauto.
    + destruct (String.eqb k "port") eqn:E2; [|discriminate].
      apply String.eqb_eq in E2 as ->. vm_compute. eauto.
Defined.

(** ** The version of kexec *)

Section GreedyFacts.

Context {R : Type}.

Lemma literal_app (w : string) (k : Greedy.cont R) (s : string) :
  Greedy.literal w k (w +:+ s) = k s.
Proof.
  induction w as [|c w IH]; [reflexivity|].
  change (String c w +:+ s) with (String c (w +:+ s)).
  cbn [Greedy.literal]. now rewrite Ascii.eqb_refl.
Qed.

Lemma literal_sound (w : string) (k : Greedy.cont R) (s : string) (x : R) :
  Greedy.literal w k s = Some x -> exists s', s = w +:+ s' /\ k s' = Some x.
Proof.
  revert s. induction w as [|c w IH]; intros s H.
  - now exists s.
  - destruct s as [|a s]; [discriminate|]. cbn [Greedy.literal] in H.
    destruct (Ascii.eqb a c) eqn:E; [|discriminate].
    apply Ascii.eqb_eq in E. subst a.
    destruct (IH _ H) as (s' & -> & K). now exists s'.
Qed.

Lemma append_assoc (a b c : string) : (a +:+ b) +:+ c = a +:+ (b +:+ c).
Proof.
  induction a as [|x a IH]; [reflexivity|].
  change (String x ((a +:+ b) +:+ c) = String x (a +:+ (b +:+ c))).
  now rewrite IH.
Qed.

(** The greedy star takes a whole run when what follows accepts there. *)
Lemma star_from_run (p : ascii -> bool) (k : string -> Greedy.cont R)
      (w acc r : string) (x : R) :
  Semver.forallb_str p w = true ->
  Greedy.head_is p r = false ->
  k (acc +:+ w) r = Some x ->
  Greedy.star_from p k acc (w +:+ r) = Some x.
Proof.
  revert acc. induction w as [|a w IH]; intros acc W Hd K.
  - rewrite append_empty in K. change (EmptyString +:+ r) with r.
    destruct r as [|b r]; [exact K|].
    cbn [Greedy.star_from]. cbn [Greedy.head_is] in Hd. now rewrite Hd.
  - cbn [Semver.forallb_str] in W. apply andb_true_iff in W as [Pa W].
    change (String a w +:+ r) with (String a (w +:+ r)).
    cbn [Greedy.star_from]. rewrite Pa.
    rewrite (IH (acc +:+ Text.chr a) W Hd); [reflexivity|].
    now rewrite append_chr.
Qed.

Lemma plus_run (p : ascii -> bool) (k : string -> Greedy.cont R)
      (w r : string) (x : R) :
  w <> EmptyString ->
  Semver.forallb_str p w = true ->
  Greedy.head_is p r = false ->
  k w r = Some x ->
  Greedy.plus p k (w +:+ r) = Some x.
Proof.
  intros Ne W Hd K. destruct w as [|a w]; [congruence|].
  cbn [Semver.forallb_str] in W. apply andb_true_iff in W as [Pa W].
  change (String a w +:+ r) with (String a (w +:+ r)).
  cbn [Greedy.plus]. rewrite Pa. now apply star_from_run.
Qed.

(** Whatever the greedy star hands over is a run of the class. *)
Lemma star_from_sound (p : ascii -> bool) (k : string -> Greedy.cont R)
      (acc s : string) (x : R) :
  Greedy.star_from p k acc s = Some x ->
  exists w r, Semver.forallb_str p w = true /\ s = w +:+ r /\
              k (acc +:+ w) r = Some x.
Proof.
  revert acc. induction s as [|a s IH]; intros acc H.
  - cbn [Greedy.star_from] in H. exists EmptyString, EmptyString.
    rewrite (append_empty acc). repeat split. exact H.
  - cbn [Greedy.star_from] in H.
    assert (Stop : k acc (String a s) = Some x ->
                   exists w r, Semver.forallb_str p w = true /\
                               String a s = w +:+ r /\
                               k (acc +:+ w) r = Some x).
    { intros K. exists EmptyString, (String a s).
      rewrite (append_empty acc). repeat split. exact K. }
    destruct (p a) eqn:Pa; [|now apply Stop].
    destruct (Greedy.star_from p k (acc +:+ Text.chr a) s) as [y|] eqn:E;
      [|now apply Stop].
    injection H as ->. destruct (IH _ E) as (w & r & W & -> & K).
    exists (String a w), r. repeat split.
    + cbn [Semver.forallb_str]. now rewrite Pa, W.
    + now rewrite <- append_chr.
Qed.

Lemma plus_sound (p : ascii -> bool) (k : string -> Greedy.cont R)
      (s : string) (x : R) :
  Greedy.plus p k s = Some x ->
  exists w r, w <> EmptyString /\ Semver.forallb_str p w = true /\
              s = w +:+ r /\ k w r = Some x.
Proof.
  destruct s as [|a s]; [discriminate|]. cbn [Greedy.plus].
  destruct (p a) eqn:Pa; [|discriminate]. intros H.
  destruct (star_from_sound _ _ _ _ _ H) as (w & r & W & -> & K).
  exists (String a w), r. repeat split.
  - discriminate.
  - cbn [Semver.forallb_str]. now rewrite Pa, W.
  - exact K.
Qed.

Lemma char_sound (p : ascii -> bool) (k : Greedy.cont R) (s : string) (x : R) :
  Greedy.char p k s = Some x ->
  exists a s', s = String a s' /\ p a = true /\ k s' = Some x.
Proof.
  destruct s as [|a s]; [discriminate|]. cbn [Greedy.char].
  destruct (p a) eqn:Pa; [|discriminate]. intros K. now exists a, s.
Qed.

End GreedyFacts.

Lemma head_is_app (p : ascii -> bool) (w r : string) :
  w <> EmptyString -> Greedy.head_is p (w +:+ r) = Greedy.head_is p w.
Proof. destruct w; [congruence|reflexivity]. Qed.

Lemma head_is_run (p q : ascii -> bool) (w : string) :
  (forall a, p a = true -> q a = false) ->
  Semver.forallb_str p w = true -> Greedy.head_is q w = false.
Proof.
  intros PQ. destruct w as [|a w]; [reflexivity|].
  cbn [Semver.forallb_str Greedy.head_is]. intros W.
  apply andb_true_iff in W as [Pa _]. now apply PQ.
Qed.

Lemma space_not_nonspace (a : ascii) :
  Greedy.is_space a = true -> Greedy.is_nonspace a = false.
Proof. unfold Greedy.is_nonspace. now intros ->. Qed.

Lemma digit_not_space (a : ascii) :
  Text.is_digit a = true -> Greedy.is_space a = false.
Proof.
  destruct a as [[] [] [] [] [] [] [] []]; (reflexivity || discriminate).
Qed.

Lemma digits_value_digits (s : string) (acc n : N) :
  digits_value acc s = Some n -> Semver.forallb_str Text.is_digit s = true.
Proof.
  revert acc. induction s as [|a s IH]; intros acc H; [reflexivity|].
  cbn [digits_value] in H. cbn [Semver.forallb_str].
  destruct (Text.is_digit a); [|discriminate]. now apply IH in H.
Qed.

Lemma int_value (s : string) (n : N) :
  s <> EmptyString -> digits_value 0 s = Some n ->
  (String.length s <= 4300)%nat -> int s = Return n.
Proof.
  intros Ne H L.
  destruct (int_digits s Ne (digits_value_digits _ _ _ H) L) as (m & V & I).
  congruence.
Qed.

(** [int] fails on a non-empty run of digits only beyond the limit. *)
Lemma int_digits_raises (s : string) (e : exn) :
  s <> EmptyString -> Semver.forallb_str Text.is_digit s = true ->
  int s = Raise e ->
  (4300 < String.length s)%nat /\ exists message, e = ValueError message.
Proof.
  intros Ne W I. split; [|exact (int_raises s e I)].
  destruct (Nat.le_gt_cases (String.length s) 4300) as [L|L]; [|exact L].
  destruct (int_digits s Ne W L) as (n & _ & R). congruence.
Qed.

Lemma length_append (a b : string) :
  String.length (a +:+ b) = (String.length a + String.length b)%nat.
Proof.
  induction a as [|c a IH]; [reflexivity|].
  change (S (String.length (a +:+ b)) = S (String.length a + String.length b)).
  now rewrite IH.
Qed.

Lemma group0_length (text rest : string) :
  (String.length (Kexec.group0 text rest) <= String.length text)%nat.
Proof.
  unfold Kexec.group0.
  generalize (String.length text - String.length rest)%nat as n.
  induction text as [|c text IH]; intros [|n]; cbn [substring String.length];
    try lia.
  specialize (IH n). lia.
Qed.

Lemma group0_app (m rest : string) : Kexec.group0 (m +:+ rest) rest = m.
Proof.
  unfold Kexec.group0.
  assert (L : forall a b, String.length (a +:+ b)
                          = (String.length a + String.length b)%nat).
  { intros a b. induction a as [|c a IH]; [reflexivity|].
    change (S (String.length (a +:+ b))
            = S (String.length a + String.length b)). now rewrite IH. }
  rewrite L. replace (String.length m + String.length rest - String.length rest)%nat
    with (String.length m) by lia.
  induction m as [|c m IH]; [now destruct rest|].
  change (String c m +:+ rest) with (String c (m +:+ rest)).
  cbn [String.length substring]. now rewrite IH.
Qed.

Lemma output_app (word blanks a : string) (c1 : ascii) (b : string)
      (c2 : ascii) (c rest : string) :
  Kexec.output word blanks a c1 b c2 c rest
  = Kexec.output word blanks a c1 b c2 c EmptyString +:+ rest.
Proof.
  unfold Kexec.output. rewrite append_empty.
  rewrite !append_assoc.
  change (String c1 (b +:+ String c2 c) +:+ rest)
    with (String c1 ((b +:+ String c2 c) +:+ rest)).
  rewrite append_assoc.
  change (String c2 c +:+ rest) with (String c2 (c +:+ rest)).
  reflexivity.
Qed.

(** The pattern on a well-formed output: every greedy group takes its
    whole run at the first attempt. *)
Lemma pattern_output (word blanks a : string) (c1 : ascii) (b : string)
      (c2 : ascii) (c rest : string) :
  word <> EmptyString -> Semver.forallb_str Greedy.is_nonspace word = true ->
  blanks <> EmptyString -> Semver.forallb_str Greedy.is_space blanks = true ->
  a <> EmptyString -> Semver.forallb_str Text.is_digit a = true ->
  b <> EmptyString -> Semver.forallb_str Text.is_digit b = true ->
  c <> EmptyString -> Semver.forallb_str Text.is_digit c = true ->
  Text.is_digit c1 = false -> Re.is_dot c1 = true ->
  Text.is_digit c2 = false -> Re.is_dot c2 = true ->
  Greedy.head_is Text.is_digit rest = false ->
  Kexec.__pattern_kexec_version_info
    (Kexec.output word blanks a c1 b c2 c rest) = Some (a, b, c, rest).
Proof.
  intros Nw Ww Ns Ws Na Wa Nb Wb Nc Wc D1 L1 D2 L2 Hd.
  unfold Kexec.__pattern_kexec_version_info, Kexec.output.
  rewrite literal_app.
  apply plus_run; [exact Nw|exact Ww| |].
  { rewrite head_is_app by exact Ns.
    apply (head_is_run Greedy.is_space); [apply space_not_nonspace|exact Ws]. }
  apply plus_run; [exact Ns|exact Ws| |].
  { rewrite head_is_app by exact Na.
    apply (head_is_run Text.is_digit); [apply digit_not_space|exact Wa]. }
  apply plus_run; [exact Na|exact Wa|exact D1|].
  cbn [Greedy.char]. rewrite L1.
  apply plus_run; [exact Nb|exact Wb|exact D2|].
  cbn [Greedy.char]. rewrite L2.
  now apply plus_run.
Qed.

(** X18.  An output of [kexec -v] made of [kexec] directly followed by a
    word without blanks, blanks, and three runs of digits [a], [b], [c]
    with one character between two of them, none of the runs longer than
    the 4300 digits that [int] converts, parses to the version [a.b.c]
    without prerelease and build.  Because the dots of the pattern are
    not escaped the two characters need not be full stops: any character
    that is neither a digit nor a line feed separates the numbers.  What
    follows the third run is ignored. *)
Theorem kexec_version_parsed (word blanks a : string) (c1 : ascii)
        (b : string) (c2 : ascii) (c rest : string) (x y z : N) :
  word <> EmptyString -> Semver.forallb_str Greedy.is_nonspace word = true ->
  blanks <> EmptyString -> Semver.forallb_str Greedy.is_space blanks = true ->
  a <> EmptyString -> digits_value 0 a = Some x ->
  b <> EmptyString -> digits_value 0 b = Some y ->
  c <> EmptyString -> digits_value 0 c = Some z ->
  (String.length a <= 4300)%nat -> (String.length b <= 4300)%nat ->
  (String.length c <= 4300)%nat ->
  Text.is_digit c1 = false -> c1 <> Text.LF ->
  Text.is_digit c2 = false -> c2 <> Text.LF ->
  Greedy.head_is Text.is_digit rest = false ->
  Kexec._get_version (Kexec.output word blanks a c1 b c2 c rest)
  = Return {| major := x; minor := y; patch := z;
              prerelease := None; build := None |}.
Proof.
  intros Nw Ww Ns Ws Na Va Nb Vb Nc Vc La Lb Lc D1 L1 D2 L2 Hd.
  assert (Dot : forall ch, ch <> Text.LF -> Re.is_dot ch = true).
  { intros ch Hch. unfold Re.is_dot. apply negb_true_iff.
    now apply Ascii.eqb_neq. }
  pose proof (digits_value_digits _ _ _ Va) as Wa.
  pose proof (digits_value_digits _ _ _ Vb) as Wb.
  pose proof (digits_value_digits _ _ _ Vc) as Wc.
  unfold Kexec._get_version, Kexec.finditer.
  rewrite pattern_output by auto.
  rewrite output_app, group0_app.
  rewrite pattern_output by auto.
  now rewrite (int_value a x), (int_value b y), (int_value c z).
Qed.

Lemma kexec_version_parsed_witness :
  Kexec._get_version "kexec-tools 2-0_18 released"
  = Return {| major := 2; minor := 0; patch := 18;
              prerelease := None; build := None |}.
Proof.
  apply (kexec_version_parsed "-tools" " " "2" "-" "0" "_" "18" " released");
    try (reflexivity || discriminate); cbn [String.length]; lia.
Defined.

(** What a match of the pattern looks like: the text begins with [kexec]
    and a character that is no blank, and the three groups are non-empty
    runs of digits of the text. *)
Lemma pattern_sound (s ma mi pa rest : string) :
  Kexec.__pattern_kexec_version_info s = Some (ma, mi, pa, rest) ->
  (exists ch s', s = "kexec" +:+ String ch s' /\ Greedy.is_space ch = false) /\
  (ma <> EmptyString /\ Semver.forallb_str Text.is_digit ma = true) /\
  (mi <> EmptyString /\ Semver.forallb_str Text.is_digit mi = true) /\
  (pa <> EmptyString /\ Semver.forallb_str Text.is_digit pa = true) /\
  (String.length ma + String.length mi + String.length pa
   < String.length s)%nat.
Proof.
  unfold Kexec.__pattern_kexec_version_info. intros H.
  apply literal_sound in H as (s1 & -> & H).
  apply plus_sound in H as (w & r1 & Nw & Ww & -> & H).
  apply plus_sound in H as (sp & r2 & _ & _ & -> & H).
  apply plus_sound in H as (a & r3 & Na & Wa & -> & H).
  apply char_sound in H as (c1 & r4 & -> & _ & H).
  apply plus_sound in H as (b & r5 & Nb & Wb & -> & H).
  apply char_sound in H as (c2 & r6 & -> & _ & H).
  apply plus_sound in H as (c & r7 & Nc & Wc & -> & H).
  injection H as <- <- <- <-.
  repeat split; try assumption.
  - destruct w as [|ch w]; [congruence|].
    cbn [Semver.forallb_str] in Ww. apply andb_true_iff in Ww as [Pch _].
    exists ch, (w +:+ (sp +:+ (a +:+ String c1 (b +:+ String c2 (c +:+ r7))))).
    split; [reflexivity|]. unfold Greedy.is_nonspace in Pch.
    now apply negb_true_iff in Pch.
  - rewrite !length_append. cbn [String.length].
    rewrite !length_append. cbn [String.length].
    rewrite !length_append. lia.
Qed.

(** X19.  [Kexec._get_version] returns a version without prerelease and
    build, or raises the [LisaException] "No find matched kexec version",
    or, only for an output of more than 4300 characters, the [ValueError]
    of [int] on a group that exceeds the digits it converts.  It returns
    only when the output begins with [kexec] directly followed by a
    character that is no blank, so [kexec 2.0.18], or a version on a later
    line, is not found. *)
Theorem kexec_version_outcomes (stdout : string) :
  match Kexec._get_version stdout with
  | Return v =>
      prerelease v = None /\ build v = None /\
      exists ch s, stdout = "kexec" +:+ String ch s /\
                   Greedy.is_space ch = false
  | Raise e =>
      e = LisaException "No find matched kexec version" \/
      ((4300 < String.length stdout)%nat /\
       exists message, e = ValueError message)
  end.
Proof.
  unfold Kexec._get_version, Kexec.finditer.
  destruct (Kexec.__pattern_kexec_version_info stdout)
    as [[[[ma0 mi0] pa0] rest0]|] eqn:First; [|now left].
  apply pattern_sound in First as (Begin & _).
  pose proof (group0_length stdout rest0) as G.
  destruct (Kexec.__pattern_kexec_version_info (Kexec.group0 stdout rest0))
    as [[[[ma mi] pa] rest]|] eqn:Second; [|now left].
  apply pattern_sound in Second
    as (_ & (Na & Wa) & (Nb & Wb) & (Nc & Wc) & Len).
  destruct (int ma) as [e|x] eqn:Ia.
  { destruct (int_digits_raises ma e Na Wa Ia) as (L & M).
    right. split; [lia|exact M]. }
  destruct (int mi) as [e|y] eqn:Ib.
  { destruct (int_digits_raises mi e Nb Wb Ib) as (L & M).
    right. split; [lia|exact M]. }
  destruct (int pa) as [e|z] eqn:Ic.
  { destruct (int_digits_raises pa e Nc Wc Ic) as (L & M).
    right. split; [lia|exact M]. }
  cbn. auto.
Qed.

(** ** The grub hooks of kdump *)

Lemma split_dots_cons (s : string) :
  exists piece pieces, Semver.split_dots s = piece :: pieces.
Proof.
  induction s as [|a s (piece & pieces & IH)]; [now eexists _, _|].
  cbn [Semver.split_dots]. destruct (Ascii.eqb a "."); [now eexists _, _|].
  rewrite IH. now eexists _, _.
Qed.

Lemma identifiers_compare_zero (xs : list string) :
  xs <> [] -> Semver.identifiers_compare xs ["0"] <> Lt.
Proof.
  destruct xs as [|x xs]; [congruence|]. intros _.
  cbn [Semver.identifiers_compare]. unfold Semver.identifier_compare.
  change (if Semver.is_build_ident "0" then digits_value 0 "0" else None)
    with (Some 0%N).
  destruct (if Semver.is_build_ident x then digits_value 0 x else None)
    as [n|]; [|discriminate].
  destruct (N.compare_spec n 0) as [_| |_]; [|lia|discriminate].
  now destruct xs.
Qed.

(** The threshold [8.0.0-0] lies below every version of major 8. *)
Lemma ge_text_eight (version : VersionInfo) :
  KdumpHooks.ge_text version "8.0.0-0" = Return (8 <=? major version)%N.
Proof.
  unfold KdumpHooks.ge_text.
  change (Semver.parse "8.0.0-0")
    with (Some {| major := 8; minor := 0; patch := 0;
                  prerelease := Some "0"; build := None |}).
  f_equal. unfold Semver.compare. cbn [major minor patch].
  destruct (N.compare_spec (major version) 8) as [E|L|G].
  - rewrite E. cbn [N.leb N.compare Pos.compare Pos.compare_cont].
    destruct (N.compare_spec (minor version) 0) as [_|L|_]; [|lia|reflexivity].
    destruct (N.compare_spec (patch version) 0) as [_|L|_]; [|lia|reflexivity].
    change (Semver.has_prerelease
              {| major := 8; minor := 0; patch := 0;
                 prerelease := Some "0"; build := None |}) with true.
    destruct (Semver.has_prerelease version); [|reflexivity].
    change (Semver.split_dots
              (Semver.prerelease_text
                 {| major := 8; minor := 0; patch := 0;
                    prerelease := Some "0"; build := None |})) with ["0"].
    destruct (split_dots_cons (Semver.prerelease_text version))
      as (piece & pieces & ->).
    pose proof (identifiers_compare_zero (piece :: pieces)) as Z.
    destruct (Semver.identifiers_compare (piece :: pieces) ["0"]);
      try reflexivity.
    now contradiction Z.
  - symmetry. apply N.leb_gt in L. now rewrite L.
  - symmetry. assert (8 <= major version)%N as L by lia.
    apply N.leb_le in L. now rewrite L.
Qed.

(** X20.  The hooks of [KdumpRedhat] split at major version 8, whatever
    the minor, patch, prerelease and build: from 8 on (the prereleases of
    8.0.0 included, since the threshold is [8.0.0-0]) there is no grub
    file to edit and the command is [grubby] with the reservation in
    double quotes, and the node is not touched; below 8 the file is
    [/etc/default/grub] and one test of [/sys/firmware/efi] chooses
    between the EFI and the BIOS [grub.cfg]. *)
Theorem redhat_hooks_threshold (node : Node) (version : VersionInfo)
        (crashkernel : string) (w : World) :
  ((8 <= major version)%N ->
   KdumpHooks.hooks (KdumpRedhat node) version crashkernel w
   = (Return (EmptyString,
              "grubby --update-kernel=ALL --args=" +:+ KdumpHooks.dquote
              +:+ "crashkernel=" +:+ crashkernel +:+ KdumpHooks.dquote), w))
  /\
  ((major version < 8)%N ->
   KdumpHooks.hooks (KdumpRedhat node) version crashkernel w
   = (Return ("/etc/default/grub",
              if shell_exists node (executed w) "/sys/firmware/efi"
              then "grub2-mkconfig -o /boot/efi/EFI/redhat/grub.cfg"
              else "grub2-mkconfig -o /boot/grub2/grub.cfg"),
      tick node w)).
Proof.
  unfold KdumpHooks.hooks, KdumpHooks._get_crashkernel_cfg_file,
    KdumpHooks._get_crashkernel_update_cmd,
    KdumpHooks.Redhat._get_crashkernel_cfg_file,
    KdumpHooks.Redhat._get_crashkernel_update_cmd.
  cbn [tool_class tool_node KdumpRedhat].
  rewrite ge_text_eight. split; intros H.
  - apply N.leb_le in H. rewrite H. reflexivity.
  - apply N.leb_gt in H. rewrite H. unfold bind, ret, exists_.
    now destruct (shell_exists node (executed w) "/sys/firmware/efi").
Qed.

Lemma redhat_hooks_threshold_witness :
  fst (KdumpHooks.hooks (KdumpRedhat (HooksFixture.node true))
         (HooksFixture.v 8 (Some "rc1")) "512M" HooksFixture.w0)
  = Return (EmptyString,
            "grubby --update-kernel=ALL --args=" +:+ KdumpHooks.dquote
            +:+ "crashkernel=512M" +:+ KdumpHooks.dquote)
  /\
  fst (KdumpHooks.hooks (KdumpRedhat (HooksFixture.node true))
         (HooksFixture.v 7 None) "512M" HooksFixture.w0)
  = Return ("/etc/default/grub",
            "grub2-mkconfig -o /boot/efi/EFI/redhat/grub.cfg").
Proof.
  split.
  - destruct (redhat_hooks_threshold (HooksFixture.node true)
                (HooksFixture.v 8 (Some "rc1")) "512M" HooksFixture.w0)
      as [Hi _].
    rewrite Hi; [reflexivity|]. vm_compute. discriminate.
  - destruct (redhat_hooks_threshold (HooksFixture.node true)
                (HooksFixture.v 7 None) "512M" HooksFixture.w0)
      as [_ Lo].
    rewrite Lo; [reflexivity|]. reflexivity.
Defined.

(** ** ANSI escapes *)

Lemma star_shorter (p : ascii -> bool) (k : Greedy.cont string)
      (s rest : string) :
  (forall s' rest', k s' = Some rest' ->
                    (String.length rest' < String.length s')%nat) ->
  Ansi.star p k s = Some rest ->
  (String.length rest < String.length s)%nat.
Proof.
  intros K H. apply star_from_sound in H as (w & r & _ & -> & H).
  apply K in H. rewrite length_append. lia.
Qed.

Lemma char_some_shorter (p : ascii -> bool) (s rest : string) :
  Greedy.char p Some s = Some rest ->
  (String.length rest < String.length s)%nat.
Proof.
  intros H. apply char_sound in H as (a & s' & -> & _ & [= ->]).
  cbn [String.length]. lia.
Qed.

(** A match is never empty. *)
Lemma ansi_escape_shorter (s rest : string) :
  Ansi.__ansi_escape s = Some rest ->
  (String.length rest < String.length s)%nat.
Proof.
  unfold Ansi.__ansi_escape. intros H.
  apply char_sound in H as (a & s' & -> & _ & H).
  cbn [String.length]. unfold Ansi.alt in H.
  destruct (Greedy.char Ansi.is_fe Some s') as [x|] eqn:Fe.
  - injection H as ->. apply char_some_shorter in Fe. lia.
  - apply char_sound in H as (b & s'' & -> & _ & H).
    cbn [String.length].
    apply star_shorter in H; [lia|].
    intros t r Ht. apply star_shorter in Ht; [exact Ht|].
    intros t' r'. apply char_some_shorter.
Qed.

(** The length of the text is fuel enough. *)
Lemma sub_fuel (fuel : nat) :
  forall content, (String.length content <= fuel)%nat ->
                  Ansi.sub fuel content = Ansi.filter_ansi_escape content.
Proof.
  unfold Ansi.filter_ansi_escape.
  induction fuel as [fuel IH] using lt_wf_ind. intros content L.
  destruct content as [|a s].
  - now destruct fuel.
  - destruct fuel as [|fuel]; [cbn [String.length] in L; lia|].
    cbn [String.length] in *. cbn [Ansi.sub].
    destruct (Ansi.__ansi_escape (String a s)) as [rest|] eqn:E.
    + apply ansi_escape_shorter in E. cbn [String.length] in E.
      rewrite (IH fuel ltac:(lia) rest ltac:(lia)).
      now rewrite (IH (String.length s) ltac:(lia) rest ltac:(lia)).
    + f_equal. apply (IH fuel); lia.
Qed.

(** The equation of the substitution, without fuel. *)
Lemma filter_ansi_escape_eq (a : ascii) (s : string) :
  Ansi.filter_ansi_escape (String a s)
  = match Ansi.__ansi_escape (String a s) with
    | Some rest => Ansi.filter_ansi_escape rest
    | None => String a (Ansi.filter_ansi_escape s)
    end.
Proof.
  unfold Ansi.filter_ansi_escape at 1. cbn [String.length Ansi.sub].
  destruct (Ansi.__ansi_escape (String a s)) as [rest|] eqn:E.
  - apply ansi_escape_shorter in E. cbn [String.length] in E.
    apply sub_fuel. lia.
  - reflexivity.
Qed.

Lemma no_esc_no_match (a : ascii) (s : string) :
  Ansi.is_esc a = false -> Ansi.__ansi_escape (String a s) = None.
Proof. unfold Ansi.__ansi_escape. cbn [Greedy.char]. now intros ->. Qed.

Lemma filter_plain_app (pre post : string) :
  Semver.forallb_str (fun a => negb (Ansi.is_esc a)) pre = true ->
  Ansi.filter_ansi_escape (pre +:+ post) = pre +:+ Ansi.filter_ansi_escape post.
Proof.
  induction pre as [|a pre IH]; intros P; [reflexivity|].
  cbn [Semver.forallb_str] in P. apply andb_true_iff in P as [Pa P].
  apply negb_true_iff in Pa.
  change (String a pre +:+ post) with (String a (pre +:+ post)).
  rewrite filter_ansi_escape_eq, (no_esc_no_match _ _ Pa), (IH P).
  reflexivity.
Qed.

(** X21.  [filter_ansi_escape] returns a text without the escape
    character unchanged, and no text comes out longer than it went in. *)
Theorem filter_ansi_escape_plain (content : string) :
  (Semver.forallb_str (fun a => negb (Ansi.is_esc a)) content = true ->
   Ansi.filter_ansi_escape content = content) /\
  (String.length (Ansi.filter_ansi_escape content)
   <= String.length content)%nat.
Proof.
  split.
  - intros P. pose proof (filter_plain_app content EmptyString P) as H.
    now rewrite !append_empty in H.
  - remember (String.length content) as n eqn:Len.
    revert content Len. induction n as [n IH] using lt_wf_ind.
    intros [|a s] ->; [cbn; lia|].
    rewrite filter_ansi_escape_eq. cbn [String.length] in *.
    destruct (Ansi.__ansi_escape (String a s)) as [rest|] eqn:E.
    + apply ansi_escape_shorter in E. cbn [String.length] in E.
      specialize (IH (String.length rest) ltac:(lia) rest eq_refl). lia.
    + cbn [String.length].
      specialize (IH (String.length s) ltac:(lia) s eq_refl). lia.
Qed.

Lemma filter_ansi_escape_plain_witness :
  Ansi.filter_ansi_escape "kexec-tools 2.0.18" = "kexec-tools 2.0.18".
Proof.
  apply (filter_ansi_escape_plain "kexec-tools 2.0.18"). reflexivity.
Defined.

Lemma in_range_disjoint (lo hi lo' hi' : nat) (a : ascii) :
  (hi < lo' \/ hi' < lo)%nat ->
  Ansi.in_range lo hi a = true -> Ansi.in_range lo' hi' a = false.
Proof.
  unfold Ansi.in_range. cbv zeta. intros D H.
  apply andb_true_iff in H as [L U].
  apply Nat.leb_le in L. apply Nat.leb_le in U.
  apply andb_false_iff.
  destruct D; [left|right]; apply Nat.leb_gt; lia.
Qed.

(** The pattern on a control sequence: the two greedy stars take the
    parameters and the intermediates whole. *)
Lemma ansi_escape_csi (params inters : string) (final : ascii)
      (post : string) :
  Semver.forallb_str Ansi.is_param params = true ->
  Semver.forallb_str Ansi.is_inter inters = true ->
  Ansi.is_final final = true ->
  Ansi.__ansi_escape (Ansi.csi params inters final +:+ post) = Some post.
Proof.
  intros P I F. unfold Ansi.csi, Ansi.__ansi_escape.
  change (String Ansi.ESC
            (String "[" (params +:+ (inters +:+ Text.chr final))) +:+ post)
    with (String Ansi.ESC
            (String "[" ((params +:+ (inters +:+ Text.chr final)) +:+ post))).
  rewrite !append_assoc.
  change (Text.chr final +:+ post) with (String final post).
  cbn [Greedy.char]. change (Ansi.is_esc Ansi.ESC) with true. cbv iota.
  unfold Ansi.alt. cbn [Greedy.char].
  change (Ansi.is_fe "[") with false. change (Ansi.is_bracket "[") with true.
  cbv iota.
  assert (NotParam : Ansi.is_param final = false)
    by (apply (in_range_disjoint 64 126); [lia|exact F]).
  assert (NotInter : Ansi.is_inter final = false)
    by (apply (in_range_disjoint 64 126); [lia|exact F]).
  unfold Ansi.star at 1. apply star_from_run; [exact P| |].
  { destruct inters as [|b inters]; [exact NotParam|].
    cbn [Semver.forallb_str] in I. apply andb_true_iff in I as [Ib _].
    change (String b inters +:+ String final post)
      with (String b (inters +:+ String final post)).
    cbn [Greedy.head_is].
    apply (in_range_disjoint 32 47); [lia|exact Ib]. }
  unfold Ansi.star. apply star_from_run; [exact I|exact NotInter|].
  cbn [Greedy.char]. now rewrite F.
Qed.

(** X22.  A control sequence (the escape character, an opening square
    bracket, parameters from [0] to [?], intermediates from the blank to
    [/] and one final character from [@] to [~]: the colour codes, for
    instance) that follows text without the escape character is dropped as
    a whole: the text before it is kept and the filtering goes on behind
    its final character. *)
Theorem filter_ansi_escape_csi (pre params inters : string) (final : ascii)
        (post : string) :
  Semver.forallb_str (fun a => negb (Ansi.is_esc a)) pre = true ->
  Semver.forallb_str Ansi.is_param params = true ->
  Semver.forallb_str Ansi.is_inter inters = true ->
  Ansi.is_final final = true ->
  Ansi.filter_ansi_escape (pre +:+ (Ansi.csi params inters final +:+ post))
  = pre +:+ Ansi.filter_ansi_escape post.
Proof.
  intros Pre P I F. rewrite (filter_plain_app _ _ Pre). f_equal.
  pose proof (ansi_escape_csi params inters final post P I F) as E.
  unfold Ansi.csi in *.
  change (String Ansi.ESC
            (String "[" (params +:+ (inters +:+ Text.chr final))) +:+ post)
    with (String Ansi.ESC
            (String "[" ((params +:+ (inters +:+ Text.chr final)) +:+ post)))
    in *.
  now rewrite filter_ansi_escape_eq, E.
Qed.

Lemma filter_ansi_escape_csi_witness :
  Ansi.filter_ansi_escape
    ("ok " +:+ (Ansi.csi "1;31" EmptyString "m" +:+ "failed"))
  = "ok failed".
Proof.
  apply (filter_ansi_escape_csi "ok " "1;31" EmptyString "m" "failed");
    reflexivity.
Defined.
